(** * nbsphinx-link: link resolution, media collection and dependency tracking

    A shallow embedding of [src/nbsphinx_link/__init__.py]: the parser of
    [.nblink] files, [collect_extra_media], [copy_and_register_files],
    [copy_file] and [register_dependency], together with the parts of the
    Python library they call ([posixpath], [pathlib], [shutil], [os.walk],
    [os.makedirs], [docutils.utils.relative_path]) on a POSIX file system
    without symbolic links. *)

From Stdlib Require Import String Ascii List ZArith Lia Bool.
From stdpp Require Import gmap strings list.

(** ** Python [str] operations used by the path functions *)

Module Str.

Definition sep : ascii := "/"%char.

Definition is_sep (c : ascii) : bool := Ascii.eqb c sep.

Definition eqb (s t : string) : bool := bool_decide (s = t).

(** [s.split('/')]: never empty, [''.split('/') = ['']]. *)
Fixpoint split (s : string) : list string :=
  match s with
  | EmptyString => [EmptyString]
  | String c s' =>
      if is_sep c then EmptyString :: split s'
      else match split s' with
           | h :: t => String c h :: t
           | [] => [String c EmptyString]
           end
  end.

(** ['/'.join(l)]. *)
Fixpoint join (l : list string) : string :=
  match l with
  | [] => ""
  | [a] => a
  | a :: l' => a +:+ "/" +:+ join l'
  end.

(** [s.startswith('/')]. *)
Definition startswith_sep (s : string) : bool :=
  match s with
  | String c _ => is_sep c
  | EmptyString => false
  end.

(** [s.endswith('/')]. *)
Fixpoint endswith_sep (s : string) : bool :=
  match s with
  | EmptyString => false
  | String c EmptyString => is_sep c
  | String _ s' => endswith_sep s'
  end.

(** [s == '/' * len(s)]. *)
Fixpoint all_sep (s : string) : bool :=
  match s with
  | EmptyString => true
  | String c s' => is_sep c && all_sep s'
  end.

(** [s.rstrip('/')]. *)
Fixpoint rstrip_sep (s : string) : string :=
  match s with
  | EmptyString => EmptyString
  | String c s' =>
      match rstrip_sep s' with
      | EmptyString => if is_sep c then EmptyString else String c EmptyString
      | r => String c r
      end
  end.

(** [(s[:i], s[i:])] for [i = s.rfind('/') + 1]. *)
Fixpoint cut_rfind (s : string) : string * string :=
  match s with
  | EmptyString => (EmptyString, EmptyString)
  | String c s' =>
      let '(h, t) := cut_rfind s' in
      if is_sep c then (String c h, t)
      else match h with
           | EmptyString => (EmptyString, String c t)
           | _ => (String c h, t)
           end
  end.

(** The characters of a string, as one-character strings
    ([for c in s]). *)
Fixpoint chars (s : string) : list string :=
  match s with
  | EmptyString => []
  | String c s' => String c EmptyString :: chars s'
  end.

End Str.

(** ** [posixpath] *)

Module posixpath.

Definition isabs (s : string) : bool := Str.startswith_sep s.

(** [os.path.join(a, b)]. *)
Definition join (a b : string) : string :=
  if Str.startswith_sep b then b
  else if Str.eqb a "" || Str.endswith_sep a then a +:+ b
  else a +:+ "/" +:+ b.

(** [os.path.split(p)]. *)
Definition split (p : string) : string * string :=
  let '(head, tail) := Str.cut_rfind p in
  let head :=
    if negb (Str.eqb head "") && negb (Str.all_sep head)
    then Str.rstrip_sep head else head in
  (head, tail).

Definition dirname (p : string) : string := fst (split p).

Definition basename (p : string) : string := snd (Str.cut_rfind p).

(** The number of leading slashes [normpath] keeps: POSIX allows one
    or two initial slashes and treats three or more as one. *)
Definition initial_slashes (path : string) : nat :=
  match path with
  | String c1 (String c2 (String c3 _)) =>
      if Str.is_sep c1 then
        if Str.is_sep c2 && negb (Str.is_sep c3) then 2 else 1
      else 0
  | String c1 (String c2 EmptyString) =>
      if Str.is_sep c1 then if Str.is_sep c2 then 2 else 1 else 0
  | String c1 EmptyString => if Str.is_sep c1 then 1 else 0
  | EmptyString => 0
  end.

(** The loop of [normpath] over the components; [new_comps] is kept
    reversed, its head is [new_comps[-1]]. *)
Fixpoint norm_comps (initial : nat) (comps new_comps : list string)
  : list string :=
  match comps with
  | [] => rev new_comps
  | comp :: comps' =>
      if Str.eqb comp "" || Str.eqb comp "." then
        norm_comps initial comps' new_comps
      else if negb (Str.eqb comp "..")
              || (Nat.eqb initial 0 && bool_decide (new_comps = []))
              || match new_comps with
                 | last :: _ => Str.eqb last ".."
                 | [] => false
                 end
      then norm_comps initial comps' (comp :: new_comps)
      else norm_comps initial comps' (tail new_comps)
  end.

Fixpoint slashes (n : nat) : string :=
  match n with
  | O => ""
  | S n' => String Str.sep (slashes n')
  end.

(** [os.path.normpath(path)]. *)
Definition normpath (path : string) : string :=
  if Str.eqb path "" then "."
  else
    let initial := initial_slashes path in
    let comps := norm_comps initial (Str.split path) [] in
    let path' := slashes initial +:+ Str.join comps in
    if Str.eqb path' "" then "." else path'.

(** [os.path.abspath(path)], with the working directory [cwd]. *)
Definition abspath (cwd path : string) : string :=
  normpath (if isabs path then path else join cwd path).

(** [os.path.commonprefix] of two lists, as its length. *)
Fixpoint common_len (a b : list string) : nat :=
  match a, b with
  | x :: a', y :: b' => if Str.eqb x y then S (common_len a' b') else 0
  | _, _ => 0
  end.

(** [os.path.relpath(path, start)]; [None] is the [ValueError] raised
    for an empty [path]. *)
Definition relpath (cwd path start : string) : option string :=
  if Str.eqb path "" then None
  else
    let nonempty := filter (fun x => x ≠ "") in
    let start_list := nonempty (Str.split (abspath cwd start)) in
    let path_list := nonempty (Str.split (abspath cwd path)) in
    let i := common_len start_list path_list in
    let rel_list :=
      repeat ".." (length start_list - i) ++ drop i path_list in
    match rel_list with
    | [] => Some "."
    | a :: l => Some (fold_left join l a)
    end.

End posixpath.

(** ** [docutils.utils.relative_path] *)

Module docutils.

(** [relative_path(source, target)]: a path to [target] relative to the
    directory of the file [source]; [None] stands for a file in the
    working directory.  With no common first component the absolute
    path of [target] is returned. *)
Definition relative_path (cwd : string) (source : option string)
  (target : string) : string :=
  let source_parts :=
    Str.split (posixpath.abspath cwd (default "dummy_file" source)) in
  let target_parts := Str.split (posixpath.abspath cwd target) in
  if bool_decide (take 2 source_parts = take 2 target_parts) then
    let n := posixpath.common_len source_parts target_parts in
    let source_parts := drop n source_parts in
    let target_parts := drop n target_parts in
    Str.join (repeat ".." (length source_parts - 1) ++ target_parts)
  else Str.join target_parts.

End docutils.

(** ** [pathlib] (POSIX flavour) *)

Module pathlib.

(** A parsed path: its root (empty, one slash or two) and its
    components. *)
Record PurePath := mkPath { root : string; tail : list string }.

#[export] Instance PurePath_eq_dec : EqDecision PurePath.
Proof. solve_decision. Defined.

(** [posixpath.splitroot]. *)
Definition splitroot (p : string) : string * string :=
  match p with
  | String c1 rest1 =>
      if Str.is_sep c1 then
        match rest1 with
        | String c2 rest2 =>
            if Str.is_sep c2 then
              match rest2 with
              | String c3 _ =>
                  if Str.is_sep c3 then ("/", rest1) else ("//", rest2)
              | EmptyString => ("//", rest2)
              end
            else ("/", rest1)
        | EmptyString => ("/", rest1)
        end
      else ("", p)
  | EmptyString => ("", p)
  end.

(** [Path(path)]: empty and [.] components are dropped, [..] is kept. *)
Definition Path (path : string) : PurePath :=
  let '(root, rel) := splitroot path in
  {| root := root;
     tail := filter (fun x => x ≠ "" ∧ x ≠ ".") (Str.split rel) |}.

(** The text of a parsed path before the [.] of the empty path is
    put in. *)
Definition format_parsed_parts (p : PurePath) : string :=
  root p +:+ Str.join (tail p).

(** [str(p)] and [os.fspath(p)]. *)
Definition fspath (p : PurePath) : string :=
  if Str.eqb (format_parsed_parts p) "" then "." else format_parsed_parts p.

(** [p.parent]. *)
Definition parent (p : PurePath) : PurePath :=
  match tail p with
  | [] => p
  | _ => {| root := root p; tail := removelast (tail p) |}
  end.

(** [p / key]. *)
Definition joinpath (p : PurePath) (key : string) : PurePath :=
  Path (posixpath.join (format_parsed_parts p) key).

(** [p.resolve()]: [os.path.realpath] has no link to follow on the
    modelled file system, so it is [abspath]. *)
Definition resolve (cwd : string) (p : PurePath) : PurePath :=
  Path (posixpath.abspath cwd (fspath p)).

(** [p.is_relative_to(other)]: [other == p or other in p.parents]. *)
Definition is_relative_to (p other : PurePath) : bool :=
  Str.eqb (root p) (root other)
  && bool_decide (take (length (tail other)) (tail p) = tail other).

(** The loop of [relative_to(other, walk_up=True)] over [other] and its
    parents; [other_rev] is the tail of the candidate, reversed, so its
    head is the candidate's name.  [None] is the [ValueError]. *)
Fixpoint relative_to_walk (p : PurePath) (other_root : string)
  (other_rev : list string) (step : nat) : option PurePath :=
  let candidate := {| root := other_root; tail := rev other_rev |} in
  if is_relative_to p candidate then
    Some {| root := "";
            tail := repeat ".." step ++ drop (length other_rev) (tail p) |}
  else
    match other_rev with
    | [] => None
    | name :: rest =>
        if Str.eqb name ".." then None
        else relative_to_walk p other_root rest (S step)
    end.

(** [p.relative_to(other, walk_up=True)]. *)
Definition relative_to (p other : PurePath) : option PurePath :=
  relative_to_walk p (root other) (rev (tail other)) 0.

End pathlib.

Export pathlib (PurePath, mkPath).

(** ** Decoded JSON values *)

#[local] Set Warnings "-register-all,-clear-no-such-hyp".

Inductive json :=
| JNull
| JBool (b : bool)
| JInt (n : Z)
| JFloat (mantissa exponent : Z)
| JStr (s : string)
| JList (items : list json)
| JDict (items : list (string * json)).

(** Python truth value of a decoded value ([if extra_media:]). *)
Definition truthy (v : json) : bool :=
  match v with
  | JNull => false
  | JBool b => b
  | JInt n => negb (Z.eqb n 0)
  | JFloat m _ => negb (Z.eqb m 0)
  | JStr s => negb (Str.eqb s "")
  | JList l => negb (bool_decide (length l = 0))
  | JDict d => negb (bool_decide (length d = 0))
  end.

Definition is_list (v : json) : bool :=
  match v with JList _ => true | _ => false end.

(** [d.get(key, None)] on the items of a [dict]. *)
Fixpoint dict_get (d : list (string * json)) (key : string) : option json :=
  match d with
  | [] => None
  | (k, v) :: d' => if Str.eqb k key then Some v else dict_get d' key
  end.

(** ** The file system *)

Module os.

(** A tree of regular files and directories; a directory lists its
    entries in the order [scandir] reports them. *)
Inductive node :=
| File (content : string)
| Dir (entries : list (string * node)).

Inductive OSErrorKind :=
| ENOENT      (* FileNotFoundError *)
| ENOTDIR     (* NotADirectoryError *)
| EISDIR      (* IsADirectoryError *)
| EEXIST      (* FileExistsError *)
| SameFile.   (* shutil.SameFileError *)

#[export] Instance OSErrorKind_eq_dec : EqDecision OSErrorKind.
Proof. solve_decision. Defined.

Record FileSystem := mkFS { fs_root : node; getcwd : string }.

Fixpoint lookup_entry (name : string) (entries : list (string * node))
  : option node :=
  match entries with
  | [] => None
  | (k, n) :: entries' =>
      if Str.eqb k name then Some n else lookup_entry name entries'
  end.

(** The node at an absolute, canonical list of components. *)
Fixpoint get_node (n : node) (key : list string) : option node :=
  match key with
  | [] => Some n
  | name :: key' =>
      match n with
      | Dir entries =>
          match lookup_entry name entries with
          | Some n' => get_node n' key'
          | None => None
          end
      | File _ => None
      end
  end.

(** Replace the entry [name], or append it. *)
Fixpoint set_entry (name : string) (f : option node → node)
  (entries : list (string * node)) : list (string * node) :=
  match entries with
  | [] => [(name, f None)]
  | (k, n) :: entries' =>
      if Str.eqb k name then (k, f (Some n)) :: entries'
      else (k, n) :: set_entry name f entries'
  end.

(** Put [new] at [key]; the directories on the way exist already. *)
Fixpoint set_node (n : node) (key : list string) (new : node) : node :=
  match key with
  | [] => new
  | name :: key' =>
      match n with
      | Dir entries =>
          Dir (set_entry name
                 (fun old => set_node (default (Dir []) old) key' new)
                 entries)
      | File _ => n
      end
  end.

(** Path resolution by the kernel, one component at a time: every
    component is looked up in a directory, [..] steps to the parent. *)
Fixpoint walk_components (root : node) (cur comps : list string)
  : OSErrorKind + list string :=
  match comps with
  | [] => inr cur
  | comp :: comps' =>
      match get_node root cur with
      | Some (Dir entries) =>
          if Str.eqb comp "" || Str.eqb comp "." then
            walk_components root cur comps'
          else if Str.eqb comp ".." then
            walk_components root (removelast cur) comps'
          else
            match lookup_entry comp entries with
            | Some _ => walk_components root (cur ++ [comp]) comps'
            | None => inl ENOENT
            end
      | Some (File _) => inl ENOTDIR
      | None => inl ENOENT
      end
  end.

Definition components (path : string) : list string :=
  filter (fun x => x ≠ "") (Str.split path).

(** The directory a path starts from. *)
Definition start_dir (fs : FileSystem) (path : string) : list string :=
  if posixpath.isabs path then [] else components (getcwd fs).

Definition namei (fs : FileSystem) (path : string)
  : OSErrorKind + list string :=
  if Str.eqb path "" then inl ENOENT
  else walk_components (fs_root fs) (start_dir fs path) (Str.split path).

(** [os.stat(path)]. *)
Definition stat (fs : FileSystem) (path : string) : OSErrorKind + node :=
  match namei fs path with
  | inr key =>
      match get_node (fs_root fs) key with
      | Some n => inr n
      | None => inl ENOENT
      end
  | inl e => inl e
  end.

(** [os.path.exists] and [os.path.isdir]. *)
Definition path_exists (fs : FileSystem) (path : string) : bool :=
  match stat fs path with inr _ => true | inl _ => false end.

Definition path_isdir (fs : FileSystem) (path : string) : bool :=
  match stat fs path with inr (Dir _) => true | _ => false end.

(** [os.path.samefile], [False] where it raises. *)
Definition samefile (fs : FileSystem) (a b : string) : bool :=
  match namei fs a, namei fs b with
  | inr ka, inr kb => bool_decide (ka = kb)
  | _, _ => false
  end.

(** [open(path, 'rb').read()]. *)
Definition read_file (fs : FileSystem) (path : string)
  : OSErrorKind + string :=
  match stat fs path with
  | inr (File content) => inr content
  | inr (Dir _) => inl EISDIR
  | inl e => inl e
  end.

Fixpoint strip_trailing_empty (comps : list string) : list string :=
  match comps with
  | [] => []
  | c :: comps' =>
      match strip_trailing_empty comps' with
      | [] => if Str.eqb c "" then [] else [c]
      | r => c :: r
      end
  end.

(** Create the entry a path names, in the directory its other
    components lead to; the path itself resolves to nothing yet. *)
Definition create (fs : FileSystem) (comps : list string) (new : node)
  : OSErrorKind + FileSystem :=
  match walk_components (fs_root fs) [] (removelast comps) with
  | inr key =>
      match get_node (fs_root fs) key with
      | Some (Dir _) =>
          let name := List.last comps "" in
          if Str.eqb name "" || Str.eqb name "." || Str.eqb name ".."
          then inl ENOENT
          else inr (mkFS (set_node (fs_root fs) (key ++ [name]) new)
                         (getcwd fs))
      | Some (File _) => inl ENOTDIR
      | None => inl ENOENT
      end
  | inl e => inl e
  end.

(** All the components of a path from the root directory. *)
Definition from_root (fs : FileSystem) (path : string) : list string :=
  start_dir fs path ++ Str.split path.

(** [open(path, 'wb').write(content)]. *)
Definition write_file (fs : FileSystem) (path content : string)
  : OSErrorKind + FileSystem :=
  match stat fs path with
  | inr (File _) =>
      match namei fs path with
      | inr key =>
          inr (mkFS (set_node (fs_root fs) key (File content)) (getcwd fs))
      | inl e => inl e
      end
  | inr (Dir _) => inl EISDIR
  | inl _ =>
      if Str.eqb path "" then inl ENOENT
      else if Str.endswith_sep path then inl EISDIR
      else create fs (from_root fs path) (File content)
  end.

(** [os.mkdir(path)]. *)
Definition mkdir (fs : FileSystem) (path : string)
  : OSErrorKind + FileSystem :=
  match stat fs path with
  | inr _ => inl EEXIST
  | inl _ =>
      if Str.eqb path "" then inl ENOENT
      else create fs (strip_trailing_empty (from_root fs path)) (Dir [])
  end.

(** [os.makedirs(name)]; each call on [head] is on a shorter string,
    the fuel counts the characters. *)
Fixpoint makedirs_loop (fuel : nat) (fs : FileSystem) (name : string)
  : OSErrorKind + FileSystem :=
  match fuel with
  | O => inl ENOENT
  | S fuel' =>
      let '(head, tail) := posixpath.split name in
      let '(head, tail) :=
        if Str.eqb tail "" then posixpath.split head else (head, tail) in
      if negb (Str.eqb head "") && negb (Str.eqb tail "")
         && negb (path_exists fs head)
      then
        let after_head :=
          match makedirs_loop fuel' fs head with
          | inr fs' => inr fs'
          | inl EEXIST => inr fs
          | inl e => inl e
          end in
        match after_head with
        | inr fs' => if Str.eqb tail "." then inr fs' else mkdir fs' name
        | inl e => inl e
        end
      else mkdir fs name
  end.

Definition makedirs (fs : FileSystem) (name : string)
  : OSErrorKind + FileSystem :=
  makedirs_loop (S (String.length name)) fs name.

(** [os.scandir(top)] as [os.walk] sorts it: the names of the
    directories and the names of the other entries. *)
Definition scandir (fs : FileSystem) (top : string)
  : OSErrorKind + (list string * list string) :=
  match stat fs top with
  | inr (Dir entries) =>
      inr (omap (fun e => match e.2 with Dir _ => Some e.1 | _ => None end)
             entries,
           omap (fun e => match e.2 with File _ => Some e.1 | _ => None end)
             entries)
  | inr (File _) => inl ENOTDIR
  | inl e => inl e
  end.

End os.

Export os (node, File, Dir, FileSystem, mkFS, OSErrorKind,
  ENOENT, ENOTDIR, EISDIR, EEXIST, SameFile).

(** ** [shutil] *)

Module shutil.

(** [shutil.copy(src, dst)]: [copyfile] into [dst], or into the entry
    of [dst] named like [src] when [dst] is a directory. *)
Definition copy (fs : FileSystem) (src dst : string)
  : OSErrorKind + FileSystem :=
  let dst :=
    if os.path_isdir fs dst
    then posixpath.join dst (posixpath.basename src) else dst in
  if os.samefile fs src dst then inl SameFile
  else
    match os.read_file fs src with
    | inr content => os.write_file fs dst content
    | inl e => inl e
    end.

End shutil.

(** ** Exceptions, warnings and the state the parser acts on *)

Inductive Exception :=
| JSONDecodeError (msg : string)
| KeyError (key : string)
| TypeError
| ValueError
| OSError (kind : OSErrorKind)
| NotebookError (docname : string) (cause : OSErrorKind).

(** The three messages the module logs with [logger.warning]. *)
Inductive Warning :=
| NotAList (source_file : string) (value : json)
| CopyFailed (src : string) (error : OSErrorKind)
| InvalidPath (extract_media_path source_file : string).

(** The file system, the build environment [document.settings.env] with
    its configuration, the document's [record_dependencies] and the
    records of the logger. *)
Record State := mkState {
  fs : FileSystem;
  docname : string;
  nbsphinx_link_target_root : option string;
  nbsphinx_custom_formats : option (gmap string string);
  record_dependencies : list string;
  dependencies : gmap string (gset string);
  reread_always : gset string;
  metadata : gmap string (gmap string PurePath);
  warnings : list Warning
}.

Definition set_fs (x : FileSystem) (st : State) : State :=
  mkState x (docname st) (nbsphinx_link_target_root st)
    (nbsphinx_custom_formats st) (record_dependencies st) (dependencies st)
    (reread_always st) (metadata st) (warnings st).

Definition set_custom_formats (x : option (gmap string string)) (st : State)
  : State :=
  mkState (fs st) (docname st) (nbsphinx_link_target_root st) x
    (record_dependencies st) (dependencies st) (reread_always st)
    (metadata st) (warnings st).

Definition set_record_dependencies (x : list string) (st : State) : State :=
  mkState (fs st) (docname st) (nbsphinx_link_target_root st)
    (nbsphinx_custom_formats st) x (dependencies st) (reread_always st)
    (metadata st) (warnings st).

Definition set_dependencies (x : gmap string (gset string)) (st : State)
  : State :=
  mkState (fs st) (docname st) (nbsphinx_link_target_root st)
    (nbsphinx_custom_formats st) (record_dependencies st) x
    (reread_always st) (metadata st) (warnings st).

Definition set_reread_always (x : gset string) (st : State) : State :=
  mkState (fs st) (docname st) (nbsphinx_link_target_root st)
    (nbsphinx_custom_formats st) (record_dependencies st) (dependencies st)
    x (metadata st) (warnings st).

Definition set_metadata (x : gmap string (gmap string PurePath)) (st : State)
  : State :=
  mkState (fs st) (docname st) (nbsphinx_link_target_root st)
    (nbsphinx_custom_formats st) (record_dependencies st) (dependencies st)
    (reread_always st) x (warnings st).

Definition set_warnings (x : list Warning) (st : State) : State :=
  mkState (fs st) (docname st) (nbsphinx_link_target_root st)
    (nbsphinx_custom_formats st) (record_dependencies st) (dependencies st)
    (reread_always st) (metadata st) x.

(** How a call ends: it returns, it raises, or the bound on the steps
    of [os.walk] is used up. *)
Inductive outcome (A : Type) :=
| Done (a : A)
| Raise (e : Exception)
| OutOfFuel.

Arguments Done {A} a.
Arguments Raise {A} e.
Arguments OutOfFuel {A}.

(** A call changes the state also when it raises. *)
Definition M (A : Type) : Type := State → outcome A * State.

Definition ret {A} (a : A) : M A := fun st => (Done a, st).

Definition bind {A B} (m : M A) (k : A → M B) : M B :=
  fun st =>
    match m st with
    | (Done a, st') => k a st'
    | (Raise e, st') => (Raise e, st')
    | (OutOfFuel, st') => (OutOfFuel, st')
    end.

Definition raise {A} (e : Exception) : M A := fun st => (Raise e, st).

Definition out_of_fuel {A} : M A := fun st => (OutOfFuel, st).

Definition gets {A} (f : State → A) : M A := fun st => (Done (f st), st).

Definition modify (f : State → State) : M unit := fun st => (Done tt, f st).

#[export] Instance M_ret : MRet M := @ret.
#[export] Instance M_bind : MBind M := fun A B k m => bind m k.

(** The result of a system call, an [OSError] where it fails. *)
Definition syscall {A} (r : OSErrorKind + A) : M A :=
  match r with
  | inr a => ret a
  | inl e => raise (OSError e)
  end.

(** [logger.warning(...)]. *)
Definition warning (w : Warning) : M unit :=
  modify (fun st => set_warnings (warnings st ++ [w]) st).

(** ** The module *)

(** [DependencyList.add]: a path is appended unless it is listed. *)
Definition DependencyList_add (path : string) (l : list string)
  : list string :=
  if bool_decide (path ∈ l) then l else l ++ [path].

(** [env.note_dependency]: the path joins the set of the current
    document. *)
Definition note_dependency (path : string) (st : State) : State :=
  set_dependencies
    (<[docname st := {[path]} ∪ default ∅ (dependencies st !! docname st)]>
       (dependencies st)) st.

Definition register_dependency (file_path : string) : M unit :=
  modify (fun st =>
    set_record_dependencies
      (DependencyList_add file_path (record_dependencies st)) st);;
  modify (note_dependency file_path).

Definition copy_file (src dest : string) : M unit :=
  files ← gets fs;
  match shutil.copy files src dest with
  | inr files' => modify (set_fs files');; register_dependency src
  | inl e => warning (CopyFailed src e)
  end.

(** [for filename in filenames], in the directory [root]. *)
Fixpoint copy_filenames (root dst_root : string) (filenames : list string)
  : M unit :=
  match filenames with
  | [] => ret tt
  | filename :: filenames' =>
      files ← gets fs;
      let src_path :=
        posixpath.abspath (os.getcwd files) (posixpath.join root filename) in
      copy_file src_path dst_root;;
      copy_filenames root dst_root filenames'
  end.

(** The body of the loop over [os.walk(src)], for the directory [root]
    with the files [filenames]. *)
Definition copy_directory (src dest root : string) (filenames : list string)
  : M unit :=
  files ← gets fs;
  match posixpath.relpath (os.getcwd files) root src with
  | None => raise ValueError
  | Some rel =>
      let dst_root := posixpath.join dest rel in
      (if negb (bool_decide (filenames = []))
          && negb (os.path_exists files dst_root)
       then files' ← syscall (os.makedirs files dst_root);
            modify (set_fs files')
       else ret tt);;
      copy_filenames root dst_root filenames
  end.

(** [for root, _, filenames in os.walk(src)]: [stack] holds the
    directories still to scan, the next one first.  A directory is
    scanned when it is reached, after the copies made before; one that
    cannot be scanned is skipped.  [fuel] bounds the number of
    directories scanned. *)
Fixpoint walk (fuel : nat) (stack : list string) (src dest : string)
  : M unit :=
  match stack with
  | [] => ret tt
  | top :: stack' =>
      match fuel with
      | O => out_of_fuel
      | S fuel' =>
          files ← gets fs;
          match os.scandir files top with
          | inl _ => walk fuel' stack' src dest
          | inr (dirs, nondirs) =>
              copy_directory src dest top nondirs;;
              walk fuel' (map (posixpath.join top) dirs ++ stack') src dest
          end
      end
  end.

Definition copy_and_register_files (fuel : nat) (src dest : string)
  : M unit :=
  files ← gets fs;
  if os.path_isdir files src then walk fuel [src] src dest
  else copy_file src dest.

(** [env.note_reread()]. *)
Definition note_reread : M unit :=
  modify (fun st => set_reread_always ({[docname st]} ∪ reread_always st) st).

(** What [for x in extra_media] steps through; a number, a boolean or
    [None] is not iterable. *)
Definition iterate (v : json) : M (list json) :=
  match v with
  | JList items => ret items
  | JStr s => ret (map JStr (Str.chars s))
  | JDict items => ret (map (fun kv => JStr kv.1) items)
  | _ => raise TypeError
  end.

(** [os.fspath(x)] of a decoded value. *)
Definition json_fspath (v : json) : M string :=
  match v with
  | JStr s => ret s
  | _ => raise TypeError
  end.

(** The source path of an entry of the list, lines 128 to 132. *)
Definition media_src_path (source_dir extract_media_path : string) : string :=
  if posixpath.isabs extract_media_path then extract_media_path
  else
    let extract_media_relpath :=
      posixpath.join source_dir extract_media_path in
    posixpath.normpath (posixpath.join source_dir extract_media_relpath).

(** The destination of an entry of the list, lines 134 and 135. *)
Definition media_dest_path (cwd source_dir nb_path src_path : string)
  : string :=
  let dest_path := docutils.relative_path cwd (Some nb_path) src_path in
  posixpath.normpath (posixpath.join source_dir dest_path).

(** One turn of the loop of [collect_extra_media]; the result is the
    new value of [any_dirs]. *)
Definition media_entry (fuel : nat) (source_file nb_path : string)
  (entry : json) (any_dirs : bool) : M bool :=
  let source_dir := posixpath.dirname source_file in
  extract_media_path ← json_fspath entry;
  let src_path := media_src_path source_dir extract_media_path in
  files ← gets fs;
  let dest_path :=
    media_dest_path (os.getcwd files) source_dir nb_path src_path in
  any_dirs ←
    (if os.path_exists files src_path then
       let any_dirs := any_dirs || os.path_isdir files src_path in
       copy_and_register_files fuel src_path dest_path;;
       ret any_dirs
     else
       warning (InvalidPath extract_media_path source_file);;
       ret any_dirs);
  (if any_dirs : bool then note_reread else ret tt);;
  ret any_dirs.

(** The loop of [collect_extra_media] over the entries; the result is
    the value of [any_dirs] at its end. *)
Fixpoint media_loop (fuel : nat) (source_file nb_path : string)
  (entries : list json) (any_dirs : bool) : M bool :=
  match entries with
  | [] => ret any_dirs
  | entry :: entries' =>
      any_dirs ← media_entry fuel source_file nb_path entry any_dirs;
      media_loop fuel source_file nb_path entries' any_dirs
  end.

Definition collect_extra_media (fuel : nat) (extra_media : json)
  (source_file nb_path : PurePath) : M unit :=
  (if negb (is_list extra_media)
   then warning (NotAList (pathlib.fspath source_file) extra_media)
   else ret tt);;
  entries ← iterate extra_media;
  media_loop fuel (pathlib.fspath source_file) (pathlib.fspath nb_path)
    entries false;;
  ret tt.

(** [link["path"]]. *)
Definition subscript (link : json) (key : string) : M json :=
  match link with
  | JDict items =>
      match dict_get items key with
      | Some v => ret v
      | None => raise (KeyError key)
      end
  | _ => raise TypeError
  end.

(** [link.get(key, None)]; [link] is a [dict] where this is reached. *)
Definition get_item (link : json) (key : string) : json :=
  match link with
  | JDict items => default JNull (dict_get items key)
  | _ => JNull
  end.

(** The absolute path of the notebook, line 182. *)
Definition notebook_abs_path (cwd docname path : string) : PurePath :=
  let source_file := pathlib.Path docname in
  let source_dir := pathlib.parent source_file in
  pathlib.resolve cwd (pathlib.joinpath source_dir path).

(** The path of the notebook the parser works with, line 183. *)
Definition notebook_path (cwd : string) (abs_path : PurePath) : PurePath :=
  pathlib.Path (docutils.relative_path cwd None (pathlib.fspath abs_path)).

(** [env.config.nbsphinx_link_target_root or Path.cwd()]. *)
Definition target_root (cwd : string) (configured : option string)
  : PurePath :=
  match configured with
  | Some root => if Str.eqb root "" then pathlib.Path cwd else pathlib.Path root
  | None => pathlib.Path cwd
  end.

(** The value recorded as [nbsphinx-link-target], lines 191 and 192;
    [None] is the [ValueError] of [relative_to]. *)
Definition link_target (cwd : string) (configured : option string)
  (abs_path : PurePath) : option PurePath :=
  pathlib.relative_to abs_path (target_root cwd configured).

(** [formats.setdefault(key, value)]. *)
Definition setdefault (key value : string) (formats : gmap string string)
  : gmap string string :=
  match formats !! key with
  | Some _ => formats
  | None => <[key := value]> formats
  end.

Definition set_link_target (target : PurePath) (st : State) : State :=
  set_metadata
    (<[docname st :=
         <["nbsphinx-link-target" := target]>
           (default ∅ (metadata st !! docname st))]> (metadata st)) st.

Definition register_format (st : State) : State :=
  set_custom_formats
    (setdefault ".nblink" "nbformat.reads" <$> nbsphinx_custom_formats st) st.

(** Lines 191 to 193: the target relative to the configured root goes
    to the metadata of the document. *)
Definition record_link_target (cwd : string) (abs_path : PurePath) : M unit :=
  configured ← gets nbsphinx_link_target_root;
  target ← match link_target cwd configured abs_path with
           | Some target => ret target
           | None => raise ValueError
           end;
  modify (set_link_target target).

(** Lines 208 to 226: the text of the notebook; an [OSError] on opening
    it becomes a [NotebookError]. *)
Definition read_notebook (name : string) (path : PurePath) : M string :=
  files ← gets fs;
  match os.read_file files (pathlib.fspath path) with
  | inr rawtext => ret rawtext
  | inl e => raise (NotebookError name e)
  end.

Section Parser.

(** [json.loads]: the decoded value, or the message of the
    [JSONDecodeError]. *)
Variable json_loads : string → string + json.

(** [LinkedNotebookParser.parse]; the text it returns is what it hands
    to [NotebookParser.parse]. *)
Definition parse (fuel : nat) (inputstring : string) : M string :=
  link ← match json_loads inputstring with
         | inr v => ret v
         | inl msg => raise (JSONDecodeError msg)
         end;
  name ← gets docname;
  cwd ← gets (fun st => os.getcwd (fs st));
  let source_file := pathlib.Path name in
  key ← subscript link "path";
  key ← json_fspath key;
  let abs_path := notebook_abs_path cwd name key in
  let path := notebook_path cwd abs_path in
  let extra_media := get_item link "extra-media" in
  (if truthy extra_media
   then collect_extra_media fuel extra_media source_file path
   else ret tt);;
  register_dependency (pathlib.fspath path);;
  record_link_target cwd abs_path;;
  modify register_format;;
  read_notebook name path.

End Parser.

(** The dependencies recorded for the current document. *)
Definition dependency_set (st : State) : gset string :=
  default ∅ (dependencies st !! docname st).

(** A call that does not read the records of the logger: run from a
    state with other records it returns the same result, leaves the
    same state, and appends the same warnings. *)
Definition appends {A} (m : M A) : Prop :=
  ∀ st, ∃ r st' new,
    ∀ ws, m (set_warnings ws st) = (r, set_warnings (ws ++ new) st').

(** ** Components of paths *)

(** A string without a slash. *)
Fixpoint sep_free (s : string) : bool :=
  match s with
  | EmptyString => true
  | String c s' => negb (Str.is_sep c) && sep_free s'
  end.

(** A component [pathlib] keeps: not empty, not [.], without a slash. *)
Definition clean (c : string) : Prop := c ≠ "" ∧ c ≠ "." ∧ sep_free c = true.

(** A component [normpath] keeps where it stands: clean and not [..]. *)
Definition proper (c : string) : Prop := clean c ∧ c ≠ "..".

(** The components of a string that are neither empty nor [.]. *)
Definition comps_of (s : string) : list string :=
  filter (fun x => x ≠ "" ∧ x ≠ ".") (Str.split s).

(** A parsed path as [pathlib] builds them. *)
Definition well_formed (p : PurePath) : Prop :=
  (∃ i, i ≤ 2 ∧ pathlib.root p = posixpath.slashes i)
  ∧ Forall clean (pathlib.tail p).

(** The exception lines 177 to 182 raise for the decoded text of a
    link file, if they raise one: the [JSONDecodeError] of the decoder,
    the [KeyError] of a [dict] without the key [path], or the
    [TypeError] of a value that is no [dict] or of a path that is no
    string. *)
Definition descriptor_error (decoded : string + json) : option Exception :=
  match decoded with
  | inl msg => Some (JSONDecodeError msg)
  | inr (JDict items) =>
      match dict_get items "path" with
      | None => Some (KeyError "path")
      | Some (JStr _) => None
      | Some _ => Some TypeError
      end
  | inr _ => Some TypeError
  end.

(** Whether [shutil.copy] succeeds, and the file system it leaves. *)
Definition copy_succeeds (files : FileSystem) (src dest : string) : bool :=
  match shutil.copy files src dest with inr _ => true | inl _ => false end.

Definition after_copy (files : FileSystem) (src dest : string) : FileSystem :=
  match shutil.copy files src dest with inr files' => files' | inl _ => files end.

(** The destination of an entry as the specification words it: the
    offset of the source from the directory of the link file, applied
    from the directory of the notebook. *)
Definition media_dest_path_from_notebook (cwd source_dir nb_path src_path
  : string) : option string :=
  let nb_dir := posixpath.dirname (posixpath.abspath cwd nb_path) in
  offset ← posixpath.relpath cwd src_path
             (if Str.eqb source_dir "" then "." else source_dir);
  Some (posixpath.normpath (posixpath.join nb_dir offset)).

(** ** What a call may change

    Relations between the state before a call and the state after it,
    for the properties that hold of every call of the module. *)

(** The records of the current document only grow: what is listed in
    [record_dependencies] stays, in its order, at the head of the list;
    the dependencies, the marks for rereading and the log lose nothing. *)
Definition grows (st st' : State) : Prop :=
  docname st' = docname st
  ∧ record_dependencies st `prefix_of` record_dependencies st'
  ∧ dependency_set st ⊆ dependency_set st'
  ∧ reread_always st ⊆ reread_always st'
  ∧ warnings st `prefix_of` warnings st'.

(** The other documents are left alone: their dependencies, their
    metadata and their marks for rereading are the same, and in the
    metadata of the current document only [nbsphinx-link-target] may
    differ. *)
Definition same_elsewhere (st st' : State) : Prop :=
  docname st' = docname st
  ∧ (∀ d, d ≠ docname st → dependencies st' !! d = dependencies st !! d)
  ∧ (∀ d, d ≠ docname st → metadata st' !! d = metadata st !! d)
  ∧ (∀ d, d ≠ docname st → d ∈ reread_always st' → d ∈ reread_always st)
  ∧ (∀ key, key ≠ "nbsphinx-link-target" →
       default ∅ (metadata st' !! docname st) !! key
       = default ∅ (metadata st !! docname st) !! key).

(** The working directory and the configuration are the same, up to the
    format of [.nblink]: [nbsphinx_custom_formats], where it is set,
    keeps all its entries and gains at most this one. *)
Definition same_configuration (st st' : State) : Prop :=
  os.getcwd (fs st') = os.getcwd (fs st)
  ∧ nbsphinx_link_target_root st' = nbsphinx_link_target_root st
  ∧ match nbsphinx_custom_formats st with
    | None => nbsphinx_custom_formats st' = None
    | Some formats =>
        ∃ formats', nbsphinx_custom_formats st' = Some formats'
                    ∧ formats ⊆ formats'
                    ∧ ∀ key, key ≠ ".nblink" → formats' !! key = formats !! key
    end.

(** The two records of dependencies have gained the same paths. *)
Definition registered_alike (st st' : State) : Prop :=
  docname st' = docname st
  ∧ ∃ added : gset string,
      list_to_set (record_dependencies st')
      =@{gset string} list_to_set (record_dependencies st) ∪ added
      ∧ dependency_set st' = dependency_set st ∪ added.

(** The document and the marks for rereading are the same. *)
Definition same_rereads (st st' : State) : Prop :=
  docname st' = docname st ∧ reread_always st' = reread_always st.

(** What is registered for the document beyond the paths of [st] is
    absolute. *)
Definition registers_absolute (st st' : State) : Prop :=
  docname st' = docname st
  ∧ os.getcwd (fs st') = os.getcwd (fs st)
  ∧ ∀ path, path ∈ dependency_set st' →
            path ∈ dependency_set st ∨ posixpath.isabs path = true.

(** The working directory is an existing directory, given by its
    canonical path: walked from the root, its components lead to
    themselves. *)
Definition canonical_cwd (files : FileSystem) : Prop :=
  os.walk_components (os.fs_root files) [] (os.components (os.getcwd files))
  = inr (os.components (os.getcwd files)).

(** A root in which every directory of [root] is a directory, with at
    least its names. *)
Definition keeps_directories (root root' : node) : Prop :=
  ∀ cur entries,
    os.get_node root cur = Some (Dir entries) →
    ∃ entries',
      os.get_node root' cur = Some (Dir entries')
      ∧ ∀ name, is_Some (os.lookup_entry name entries) →
                is_Some (os.lookup_entry name entries').

(** The file system [files'] has the working directory of [files] and
    all its directories. *)
Definition fs_kept (files files' : FileSystem) : Prop :=
  os.getcwd files' = os.getcwd files
  ∧ keeps_directories (os.fs_root files) (os.fs_root files').

(** From a file system with a canonical working directory, the calls
    lead to one that has all its directories, and the working directory
    stays canonical. *)
Definition never_deletes (st st' : State) : Prop :=
  canonical_cwd (fs st) →
  canonical_cwd (fs st') ∧ fs_kept (fs st) (fs st').

(** A relation between states that the steps of
    [copy_and_register_files] keep: it is a preorder, and a successful
    [shutil.copy] or [os.makedirs], a registration and a warning lead to
    a related state. *)
Record copy_invariant (R : State → State → Prop) : Prop := {
  invariant_refl : ∀ st, R st st;
  invariant_trans : ∀ st1 st2 st3, R st1 st2 → R st2 st3 → R st1 st3;
  invariant_copy : ∀ st src dest files',
    shutil.copy (fs st) src dest = inr files' → R st (set_fs files' st);
  invariant_makedirs : ∀ st name files',
    os.makedirs (fs st) name = inr files' → R st (set_fs files' st);
  invariant_register : ∀ path st, R st (register_dependency path st).2;
  invariant_warning : ∀ w st, R st (set_warnings (warnings st ++ [w]) st)
}.

(** A relation that the other writes of the module keep as well: the mark
    for rereading, the target of the link and the format of [.nblink]. *)
Record invariant (R : State → State → Prop) : Prop := {
  invariant_copying : copy_invariant R;
  invariant_reread : ∀ st,
    R st (set_reread_always ({[docname st]} ∪ reread_always st) st);
  invariant_target : ∀ target st, R st (set_link_target target st);
  invariant_format : ∀ st, R st (register_format st)
}.

(** Every run of [m] ends in a state related to the one it starts
    from, whether it returns or raises. *)
Definition keeps (R : State → State → Prop) {A} (m : M A) : Prop :=
  ∀ st, R st (m st).2.

Definition is_OSError (e : Exception) : Prop := ∃ kind, e = OSError kind.

(** Every exception [m] raises satisfies [P]. *)
Definition raises_only (P : Exception → Prop) {A} (m : M A) : Prop :=
  ∀ st e, (m st).1 = Raise e → P e.

(** Lines 185 to 187 of [parse], for a link file that is a [dict] with
    the items [items] and the string [p] at [path]: the media are
    collected when the value at [extra-media] is true. *)
Definition media_stage (fuel : nat) (items : list (string * json)) (p : string)
  : M unit :=
  fun st =>
    let cwd := os.getcwd (fs st) in
    let path := notebook_path cwd (notebook_abs_path cwd (docname st) p) in
    let extra_media := default JNull (dict_get items "extra-media") in
    (if truthy extra_media
     then collect_extra_media fuel extra_media (pathlib.Path (docname st)) path
     else ret tt) st.

(** ** A project tree and link files for the examples *)

Module Examples.

Definition quoted (s : string) : string :=
  String (ascii_of_nat 34) (s +:+ String (ascii_of_nat 34) "").

(** The tree of the scenario: [docs/a/b.nblink], the notebook
    [notebooks/demo.ipynb] and the picture [notebooks/img/fig.png],
    under [/project]. *)
Definition project_tree : node :=
  Dir [("project",
        Dir [("docs",
              Dir [("a", Dir [("b.nblink", File "link")]);
                   ("index.nblink", File "link")]);
             ("notebooks",
              Dir [("demo.ipynb", File "notebook");
                   ("a.png", File "picture a");
                   ("img", Dir [("fig.png", File "figure");
                                ("b.png", File "picture b")])])])].

Definition project (cwd : string) : FileSystem := mkFS project_tree cwd.

(** The tree of the scenario of the specification, and nothing else. *)
Definition scenario_tree : node :=
  Dir [("project",
        Dir [("docs", Dir [("a", Dir [("b.nblink", File "link")])]);
             ("notebooks",
              Dir [("demo.ipynb", File "notebook");
                   ("img", Dir [("fig.png", File "figure")])])])].

Definition scenario (cwd : string) : FileSystem := mkFS scenario_tree cwd.

(** A document that has recorded nothing yet. *)
Definition fresh (files : FileSystem) (name : string)
  (configured : option string) : State :=
  mkState files name configured None [] ∅ ∅ ∅ [].

Definition scenario_text : string :=
  "{" +:+ quoted "path" +:+ ": " +:+ quoted "../../notebooks/demo.ipynb"
  +:+ ", " +:+ quoted "extra-media" +:+ ": ["
  +:+ quoted "../../notebooks/img" +:+ "]}".

Definition scenario_link : json :=
  JDict [("path", JStr "../../notebooks/demo.ipynb");
         ("extra-media", JList [JStr "../../notebooks/img"])].

(** The link file of the scenario with the entry as an absolute path. *)
Definition absolute_entry_text : string :=
  "{" +:+ quoted "path" +:+ ": " +:+ quoted "../../notebooks/demo.ipynb"
  +:+ ", " +:+ quoted "extra-media" +:+ ": ["
  +:+ quoted "/project/notebooks/img" +:+ "]}".

Definition absolute_entry_link : json :=
  JDict [("path", JStr "../../notebooks/demo.ipynb");
         ("extra-media", JList [JStr "/project/notebooks/img"])].

Definition two_files_text : string :=
  "{" +:+ quoted "path" +:+ ": " +:+ quoted "../notebooks/demo.ipynb"
  +:+ ", " +:+ quoted "extra-media" +:+ ": ["
  +:+ quoted "../notebooks/a.png" +:+ ", "
  +:+ quoted "../notebooks/img/b.png" +:+ "]}".

Definition two_files_link : json :=
  JDict [("path", JStr "../notebooks/demo.ipynb");
         ("extra-media",
          JList [JStr "../notebooks/a.png"; JStr "../notebooks/img/b.png"])].

Definition one_missing_text : string :=
  "{" +:+ quoted "path" +:+ ": " +:+ quoted "../notebooks/demo.ipynb"
  +:+ ", " +:+ quoted "extra-media" +:+ ": ["
  +:+ quoted "../notebooks/a.png" +:+ ", "
  +:+ quoted "../notebooks/missing.png" +:+ ", "
  +:+ quoted "../notebooks/img" +:+ "]}".

Definition media_value_text (value : string) : string :=
  "{" +:+ quoted "path" +:+ ": " +:+ quoted "../notebooks/demo.ipynb"
  +:+ ", " +:+ quoted "extra-media" +:+ ": " +:+ value +:+ "}".

Definition media_value_link (value : json) : json :=
  JDict [("path", JStr "../notebooks/demo.ipynb"); ("extra-media", value)].

Definition truncated_text : string := "{" +:+ quoted "path" +:+ ": ".

Definition no_path_text : string :=
  "{" +:+ quoted "extra-media" +:+ ": []}".

(** [json.loads] on the texts above. *)
Definition decoded : list (string * (string + json)) :=
  [(scenario_text, inr scenario_link);
   (absolute_entry_text, inr absolute_entry_link);
   (two_files_text, inr two_files_link);
   (media_value_text (quoted "img"), inr (media_value_link (JStr "img")));
   (media_value_text (quoted ""), inr (media_value_link (JStr "")));
   (media_value_text "5", inr (media_value_link (JInt 5)));
   (no_path_text, inr (JDict [("extra-media", JList [])]));
   (truncated_text,
    inl "Expecting value: line 1 column 10 (char 9)")].

Definition json_loads (text : string) : string + json :=
  default (inl "Expecting value: line 1 column 1 (char 0)")
    (snd <$> head (filter (fun kv => kv.1 = text) decoded)).

End Examples.

(** * Properties *)

(** ** The scenario of the specification *)

(** C3. The link file [docs/a/b.nblink] of the scenario, read in
    [/project]: the notebook is found and registered, but the entry
    [../../notebooks/img] is joined twice to [docs/a], the directory
    [docs/a/notebooks/img] does not exist, a warning is logged and
    nothing is copied. *)
Theorem scenario_media_not_copied :
  let st := Examples.fresh (Examples.scenario "/project") "docs/a/b" None in
  let r := parse Examples.json_loads 8 Examples.scenario_text st in
  r.1 = Done "notebook"
  ∧ notebook_abs_path "/project" "docs/a/b" "../../notebooks/demo.ipynb"
    = pathlib.Path "/project/notebooks/demo.ipynb"
  ∧ media_src_path "docs/a" "../../notebooks/img" = "docs/a/notebooks/img"
  ∧ warnings r.2 = [InvalidPath "../../notebooks/img" "docs/a/b"]
  ∧ fs r.2 = fs st
  ∧ os.stat (fs r.2) "docs/a/img/fig.png" = inl ENOENT
  ∧ dependency_set r.2 = {["notebooks/demo.ipynb"]}
  ∧ record_dependencies r.2 = ["notebooks/demo.ipynb"].
Proof. cbv zeta. split_and!; vm_compute; reflexivity. Qed.

(** The same link file read with the source directory [/project/docs]
    as working directory, as the document [a/b]: the entry is joined
    twice to [a], and again nothing is copied. *)
Lemma scenario_media_not_copied_from_docs :
  let st := Examples.fresh (Examples.scenario "/project/docs") "a/b" None in
  let r := parse Examples.json_loads 8 Examples.scenario_text st in
  r.1 = Done "notebook"
  ∧ media_src_path "a" "../../notebooks/img" = "notebooks/img"
  ∧ warnings r.2 = [InvalidPath "../../notebooks/img" "a/b"]
  ∧ fs r.2 = fs st
  ∧ dependency_set r.2 = {["../notebooks/demo.ipynb"]}.
Proof. cbv zeta. split_and!; vm_compute; reflexivity. Qed.

(** With the entry written as an absolute path, which is not joined,
    the scenario ends as the specification expects: the picture is
    copied to [docs/a/img/fig.png], it is registered with the notebook,
    the document is marked for rereading and nothing is logged. *)
Lemma scenario_with_absolute_entry :
  let st := Examples.fresh (Examples.scenario "/project") "docs/a/b" None in
  let r := parse Examples.json_loads 8 Examples.absolute_entry_text st in
  r.1 = Done "notebook"
  ∧ warnings r.2 = []
  ∧ os.stat (fs r.2) "docs/a/img/fig.png" = inr (File "figure")
  ∧ dependency_set r.2
    = {["notebooks/demo.ipynb"; "/project/notebooks/img/fig.png"]}
  ∧ reread_always r.2 = {["docs/a/b"]}.
Proof. cbv zeta. split_and!; vm_compute; reflexivity. Qed.

(** ** The monad *)

Lemma bind_unfold {A B} (m : M A) (k : A → M B) (st : State) :
  (m ≫= k) st =
    match m st with
    | (Done a, st') => k a st'
    | (Raise e, st') => (Raise e, st')
    | (OutOfFuel, st') => (OutOfFuel, st')
    end.
Proof. reflexivity. Qed.

Lemma bind_Done_inv {A B} (m : M A) (k : A → M B) st b st' :
  (m ≫= k) st = (Done b, st') →
  ∃ a st1, m st = (Done a, st1) ∧ k a st1 = (Done b, st').
Proof.
  rewrite bind_unfold. destruct (m st) as [[a | e |] st1]; [| done | done].
  intros H. exists a, st1. split; [reflexivity | exact H].
Qed.

Lemma bind_gets {A B} (f : State → A) (k : A → M B) st :
  (gets f ≫= k) st = k (f st) st.
Proof. reflexivity. Qed.

Lemma bind_ret {A B} (a : A) (k : A → M B) st : (ret a ≫= k) st = k a st.
Proof. reflexivity. Qed.

Lemma bind_modify {B} (g : State → State) (k : unit → M B) st :
  (modify g ≫= k) st = k tt (g st).
Proof. reflexivity. Qed.

Lemma bind_warning {B} w (k : unit → M B) st :
  (warning w ≫= k) st = k tt (set_warnings (warnings st ++ [w]) st).
Proof. reflexivity. Qed.

Lemma bind_raise {A B} e (k : A → M B) st :
  (raise e ≫= k) st = (Raise e, st).
Proof. reflexivity. Qed.

Lemma bind_assoc {A B C} (m : M A) (k1 : A → M B) (k2 : B → M C) st :
  ((m ≫= k1) ≫= k2) st = (m ≫= (fun a => k1 a ≫= k2)) st.
Proof.
  rewrite !bind_unfold. destruct (m st) as [[a | e |] st1]; reflexivity.
Qed.

Lemma ret_run {A} (a : A) st : ret a st = (Done a, st).
Proof. reflexivity. Qed.

Ltac mstep :=
  repeat first
    [ rewrite bind_assoc | rewrite bind_gets | rewrite bind_ret
    | rewrite bind_modify | rewrite bind_warning | rewrite bind_raise
    | rewrite ret_run ].

Lemma set_warnings_same (st : State) : set_warnings (warnings st) st = st.
Proof. destruct st; reflexivity. Qed.

(** ** Dependency registration *)

Lemma dependency_set_note path st :
  dependency_set (note_dependency path st) = {[path]} ∪ dependency_set st.
Proof.
  unfold dependency_set, note_dependency, set_dependencies; cbn.
  rewrite lookup_insert_eq. reflexivity.
Qed.

Lemma register_dependency_run path st :
  register_dependency path st =
    (Done tt,
     note_dependency path
       (set_record_dependencies
          (DependencyList_add path (record_dependencies st)) st)).
Proof. reflexivity. Qed.

Lemma DependencyList_add_elem path (l : list string) x :
  x ∈ DependencyList_add path l ↔ x = path ∨ x ∈ l.
Proof.
  unfold DependencyList_add. case_bool_decide as Hin.
  - split; [auto | intros [-> | ?]; auto].
  - rewrite elem_of_app, list_elem_of_singleton. tauto.
Qed.

Lemma copy_file_run src dest st :
  copy_file src dest st =
    match shutil.copy (fs st) src dest with
    | inr files' =>
        (Done tt,
         note_dependency src
           (set_record_dependencies
              (DependencyList_add src (record_dependencies st))
              (set_fs files' st)))
    | inl e => (Done tt, set_warnings (warnings st ++ [CopyFailed src e]) st)
    end.
Proof.
  unfold copy_file. rewrite bind_unfold. unfold gets.
  destruct (shutil.copy (fs st) src dest); reflexivity.
Qed.

(** C10. A file copied by [copy_file] is registered as a dependency
    exactly when [shutil.copy] succeeded: after a successful copy the
    source joins both dependency records and nothing is logged; after an
    [OSError] one warning naming the source and the error is logged, and
    the file system and both dependency records are as before.  The call
    itself never raises. *)
Theorem copy_file_registers_iff_copied (src dest : string) (st : State) :
  (copy_file src dest st).1 = Done tt
  ∧ match shutil.copy (fs st) src dest with
    | inr files' =>
        fs (copy_file src dest st).2 = files'
        ∧ warnings (copy_file src dest st).2 = warnings st
        ∧ dependency_set (copy_file src dest st).2
          = {[src]} ∪ dependency_set st
        ∧ record_dependencies (copy_file src dest st).2
          = DependencyList_add src (record_dependencies st)
    | inl e =>
        fs (copy_file src dest st).2 = fs st
        ∧ warnings (copy_file src dest st).2
          = warnings st ++ [CopyFailed src e]
        ∧ dependencies (copy_file src dest st).2 = dependencies st
        ∧ dependency_set (copy_file src dest st).2 = dependency_set st
        ∧ record_dependencies (copy_file src dest st).2
          = record_dependencies st
    end.
Proof.
  rewrite copy_file_run.
  destruct (shutil.copy (fs st) src dest) as [e | files']; cbn [fst snd].
  - repeat split.
  - repeat split. rewrite dependency_set_note. reflexivity.
Qed.

(** ** The log is only written

    No function of the module reads the records of the logger: run from
    a state with other records, a call returns the same result, leaves
    the same state, and appends the same warnings. *)

Lemma set_warnings_twice ws ws' st :
  set_warnings ws (set_warnings ws' st) = set_warnings ws st.
Proof. reflexivity. Qed.

Lemma appends_ret {A} (a : A) : appends (mret a).
Proof.
  intros st. exists (Done a), st, []. intros ws.
  rewrite app_nil_r. reflexivity.
Qed.

Lemma appends_raise {A} e : appends (raise e : M A).
Proof.
  intros st. exists (Raise e), st, []. intros ws.
  rewrite app_nil_r. reflexivity.
Qed.

Lemma appends_out_of_fuel {A} : appends (out_of_fuel : M A).
Proof.
  intros st. exists OutOfFuel, st, []. intros ws.
  rewrite app_nil_r. reflexivity.
Qed.

Lemma appends_gets {A} (f : State → A) :
  (∀ ws st, f (set_warnings ws st) = f st) → appends (gets f).
Proof.
  intros Hf st. exists (Done (f st)), st, []. intros ws.
  rewrite app_nil_r. unfold gets. rewrite Hf. reflexivity.
Qed.

Lemma appends_modify (g : State → State) :
  (∀ ws st, g (set_warnings ws st) = set_warnings ws (g st)) →
  appends (modify g).
Proof.
  intros Hg st. exists (Done tt), (g st), []. intros ws.
  rewrite app_nil_r. unfold modify. rewrite Hg. reflexivity.
Qed.

Lemma appends_warning w : appends (warning w).
Proof.
  intros st. exists (Done tt), st, [w]. intros ws. reflexivity.
Qed.

Lemma appends_bind {A B} (m : M A) (k : A → M B) :
  appends m → (∀ a, appends (k a)) → appends (m ≫= k).
Proof.
  intros Hm Hk st. destruct (Hm st) as (r & st1 & new1 & H1).
  destruct r as [a | e |].
  - destruct (Hk a st1) as (r2 & st2 & new2 & H2).
    exists r2, st2, (new1 ++ new2). intros ws.
    rewrite bind_unfold, H1, H2, app_assoc. reflexivity.
  - exists (Raise e), st1, new1. intros ws.
    rewrite bind_unfold, H1. reflexivity.
  - exists OutOfFuel, st1, new1. intros ws.
    rewrite bind_unfold, H1. reflexivity.
Qed.

Lemma appends_syscall {A} (r : OSErrorKind + A) : appends (syscall r).
Proof. destruct r; [apply appends_raise | apply appends_ret]. Qed.

Create HintDb appends.

#[local] Hint Resolve appends_ret appends_raise appends_out_of_fuel
  appends_warning appends_syscall : appends.

Ltac appends_step :=
  first
    [ solve [auto with appends]
    | apply appends_gets; reflexivity
    | apply appends_modify; reflexivity
    | apply appends_bind; [| intros ?] ].

Ltac appends_auto :=
  repeat first
    [ appends_step
    | match goal with
      | |- appends (match ?x with _ => _ end) => destruct x
      end ].

Lemma appends_register_dependency path : appends (register_dependency path).
Proof. unfold register_dependency. appends_auto. Qed.

#[local] Hint Resolve appends_register_dependency : appends.

Lemma appends_copy_file src dest : appends (copy_file src dest).
Proof. unfold copy_file. appends_auto. Qed.

#[local] Hint Resolve appends_copy_file : appends.

Lemma appends_copy_filenames root dst_root filenames :
  appends (copy_filenames root dst_root filenames).
Proof.
  induction filenames as [| filename filenames IH]; cbn [copy_filenames];
    appends_auto.
Qed.

#[local] Hint Resolve appends_copy_filenames : appends.

Lemma appends_copy_directory src dest root filenames :
  appends (copy_directory src dest root filenames).
Proof. unfold copy_directory. appends_auto. Qed.

#[local] Hint Resolve appends_copy_directory : appends.

Lemma appends_walk fuel stack src dest : appends (walk fuel stack src dest).
Proof.
  revert stack. induction fuel as [| fuel IH]; intros [| top stack];
    cbn [walk]; appends_auto.
Qed.

#[local] Hint Resolve appends_walk : appends.

Lemma appends_copy_and_register_files fuel src dest :
  appends (copy_and_register_files fuel src dest).
Proof. unfold copy_and_register_files. appends_auto. Qed.

#[local] Hint Resolve appends_copy_and_register_files : appends.

Lemma appends_note_reread : appends note_reread.
Proof. unfold note_reread. appends_auto. Qed.

#[local] Hint Resolve appends_note_reread : appends.

Lemma appends_json_fspath v : appends (json_fspath v).
Proof. destruct v; cbn; appends_auto. Qed.

Lemma appends_iterate v : appends (iterate v).
Proof. destruct v; cbn; appends_auto. Qed.

#[local] Hint Resolve appends_json_fspath appends_iterate : appends.

Lemma appends_media_entry fuel source_file nb_path entry any_dirs :
  appends (media_entry fuel source_file nb_path entry any_dirs).
Proof. unfold media_entry. appends_auto. Qed.

#[local] Hint Resolve appends_media_entry : appends.

Lemma appends_media_loop fuel source_file nb_path entries any_dirs :
  appends (media_loop fuel source_file nb_path entries any_dirs).
Proof.
  revert any_dirs.
  induction entries as [| entry entries IH]; intros any_dirs;
    cbn [media_loop]; appends_auto.
Qed.

#[local] Hint Resolve appends_media_loop : appends.

(** What [appends] gives for one run. *)
Lemma appends_run {A} (m : M A) st r st' :
  appends m → m st = (r, st') →
  ∃ new, warnings st' = warnings st ++ new
         ∧ ∀ ws, m (set_warnings ws st) = (r, set_warnings (ws ++ new) st').
Proof.
  intros Hm Hrun. destruct (Hm st) as (r0 & st0 & new & H).
  pose proof (H (warnings st)) as H0.
  rewrite set_warnings_same, Hrun in H0. injection H0 as -> ->.
  exists new. split; [reflexivity |]. intros ws. rewrite H. reflexivity.
Qed.

(** ** The loop over the entries *)

Lemma media_loop_app fuel source_file nb_path entries1 entries2 any_dirs st :
  media_loop fuel source_file nb_path (entries1 ++ entries2) any_dirs st =
    (media_loop fuel source_file nb_path entries1 any_dirs
     ≫= media_loop fuel source_file nb_path entries2) st.
Proof.
  revert any_dirs st.
  induction entries1 as [| entry entries1 IH]; intros any_dirs st.
  - reflexivity.
  - cbn [app media_loop]. rewrite !bind_unfold.
    destruct (media_entry fuel source_file nb_path entry any_dirs st)
      as [[a | e |] st1]; [| reflexivity | reflexivity].
    rewrite IH. reflexivity.
Qed.

(** A turn that ends with [any_dirs] set has marked the document for
    rereading. *)
Lemma media_entry_reread fuel source_file nb_path entry any_dirs st st' :
  media_entry fuel source_file nb_path entry any_dirs st = (Done true, st') →
  docname st' ∈ reread_always st'.
Proof.
  unfold media_entry. intros H.
  apply bind_Done_inv in H as (p & st0 & _ & H).
  apply bind_Done_inv in H as (files & st1 & _ & H).
  apply bind_Done_inv in H as (a & st2 & _ & H).
  apply bind_Done_inv in H as ([] & st3 & H & Hret).
  injection Hret as -> ->. unfold note_reread, modify in H.
  injection H as <-. cbn. set_solver.
Qed.

Lemma media_loop_reread fuel source_file nb_path entries any_dirs st a st' :
  media_loop fuel source_file nb_path entries any_dirs st = (Done a, st') →
  (any_dirs = true → docname st ∈ reread_always st) →
  a = true → docname st' ∈ reread_always st'.
Proof.
  revert any_dirs st.
  induction entries as [| entry entries IH]; intros any_dirs st.
  - cbn. intros [= -> ->]. auto.
  - cbn [media_loop]. rewrite bind_unfold.
    destruct (media_entry fuel source_file nb_path entry any_dirs st)
      as [[a1 | e |] st1] eqn:Hentry; [| done | done].
    intros Hloop _. apply (IH _ _ Hloop). intros ->.
    exact (media_entry_reread _ _ _ _ _ _ _ Hentry).
Qed.

(** The turn of an entry whose source does not exist: one warning, and
    nothing else changes when the document is marked already. *)
Lemma media_entry_missing fuel source_file nb_path entry any_dirs st :
  os.path_exists (fs st)
    (media_src_path (posixpath.dirname source_file) entry) = false →
  (any_dirs = true → docname st ∈ reread_always st) →
  media_entry fuel source_file nb_path (JStr entry) any_dirs st =
    (Done any_dirs,
     set_warnings (warnings st ++ [InvalidPath entry source_file]) st).
Proof.
  intros Hmissing Hreread. unfold media_entry.
  cbn [json_fspath]. mstep. rewrite Hmissing. mstep.
  destruct any_dirs; [| mstep; reflexivity].
  unfold note_reread. mstep. f_equal.
  unfold set_reread_always, set_warnings. cbn. f_equal.
  apply subseteq_union_1_L, singleton_subseteq_l, Hreread. reflexivity.
Qed.

Lemma collect_extra_media_list fuel entries source_file nb_path st :
  collect_extra_media fuel (JList entries) source_file nb_path st =
    match media_loop fuel (pathlib.fspath source_file)
            (pathlib.fspath nb_path) entries false st with
    | (Done _, st') => (Done tt, st')
    | (Raise e, st') => (Raise e, st')
    | (OutOfFuel, st') => (OutOfFuel, st')
    end.
Proof.
  unfold collect_extra_media. cbn [is_list negb iterate]. mstep.
  rewrite bind_unfold. reflexivity.
Qed.

(** C7. A list with one entry whose source does not exist when the
    loop reaches it, among entries that are valid (alone they are
    processed to the end and nothing is logged): [collect_extra_media]
    returns, the only warning is the one naming the entry and the link
    file, and everything else is as after processing the valid entries
    alone, so each of them is copied and registered as without the
    missing one. *)
Theorem one_missing_entry_one_warning (fuel : nat)
  (source_file nb_path : PurePath) (before after : list string)
  (missing : string) (st reached st' : State) (any_dirs : bool) :
  media_loop fuel (pathlib.fspath source_file) (pathlib.fspath nb_path)
    (JStr <$> before) false st = (Done any_dirs, reached) →
  os.path_exists (fs reached)
    (media_src_path (posixpath.dirname (pathlib.fspath source_file)) missing)
  = false →
  collect_extra_media fuel (JList (JStr <$> before ++ after))
    source_file nb_path st = (Done tt, st') →
  warnings st' = warnings st →
  collect_extra_media fuel (JList (JStr <$> before ++ missing :: after))
    source_file nb_path st
  = (Done tt,
     set_warnings
       (warnings st ++ [InvalidPath missing (pathlib.fspath source_file)])
       st').
Proof.
  intros Hbefore Hmissing Hvalid Hquiet.
  rewrite collect_extra_media_list in *.
  rewrite fmap_app in *. rewrite fmap_cons.
  rewrite media_loop_app, bind_unfold, Hbefore in *.
  cbn [media_loop]. rewrite bind_unfold.
  rewrite (media_entry_missing _ _ _ _ _ _ Hmissing)
    by (intros ->; exact (media_loop_reread _ _ _ _ _ _ _ _ Hbefore
                            ltac:(discriminate) eq_refl)).
  destruct (appends_run _ _ _ _ (appends_media_loop _ _ _ _ _) Hbefore)
    as (new1 & Hnew1 & _).
  destruct (media_loop fuel (pathlib.fspath source_file)
              (pathlib.fspath nb_path) (JStr <$> after) any_dirs reached)
    as [r st2] eqn:Hafter.
  destruct (appends_run _ _ _ _ (appends_media_loop _ _ _ _ _) Hafter)
    as (new2 & Hnew2 & Hframe).
  rewrite Hframe.
  destruct r as [a | e |]; [| discriminate | discriminate].
  injection Hvalid as ->.
  rewrite Hnew2, Hnew1, <- app_assoc in Hquiet.
  assert (Hnil : new1 ++ new2 = []).
  { apply (app_inv_head (warnings st)). rewrite app_nil_r. exact Hquiet. }
  apply app_eq_nil in Hnil as [-> ->].
  rewrite !app_nil_r in *. rewrite Hnew1. reflexivity.
Qed.

(** ** The parser *)

Section ParserProperties.

Variable json_loads : string → string + json.

(** The run of [parse] on a link file that is a [dict] with a string
    at [path]. *)
Lemma parse_link fuel text st items p :
  json_loads text = inr (JDict items) →
  dict_get items "path" = Some (JStr p) →
  parse json_loads fuel text st =
    (let cwd := os.getcwd (fs st) in
     let abs_path := notebook_abs_path cwd (docname st) p in
     let path := notebook_path cwd abs_path in
     let extra_media := default JNull (dict_get items "extra-media") in
     (if truthy extra_media
      then collect_extra_media fuel extra_media
             (pathlib.Path (docname st)) path
      else ret tt);;
     register_dependency (pathlib.fspath path);;
     record_link_target cwd abs_path;;
     modify register_format;;
     read_notebook (docname st) path) st.
Proof.
  intros Hloads Hpath. unfold parse. rewrite Hloads. mstep.
  cbn [subscript]. rewrite Hpath. mstep. cbn [json_fspath]. mstep.
  reflexivity.
Qed.

(** What follows the registration of the notebook changes neither the
    file system, nor the log, nor the dependencies. *)
Lemma parse_end_preserves cwd abs_path name path st :
  let st' :=
    (record_link_target cwd abs_path;;
     modify register_format;;
     read_notebook name path) st in
  fs st'.2 = fs st ∧ warnings st'.2 = warnings st
  ∧ dependency_set st'.2 = dependency_set st
  ∧ record_dependencies st'.2 = record_dependencies st.
Proof.
  cbv zeta. unfold record_link_target, read_notebook. mstep.
  destruct (link_target cwd _ abs_path); mstep; [| done].
  cbn [fs register_format set_custom_formats set_link_target set_metadata].
  destruct (os.read_file _ _); done.
Qed.

(** C9, as the code has it.  A link file that is not JSON fails with
    the [JSONDecodeError] of the decoder, a JSON object without [path]
    with [KeyError], and a value that is no object (or a [path] that
    is no string) with [TypeError]; the exception is raised before
    anything is registered, copied or logged, and it is not wrapped:
    it names neither a [ConfigurationError] nor the link file. *)
Theorem parse_raises_descriptor_error (fuel : nat) (text : string)
  (st : State) (e : Exception) :
  descriptor_error (json_loads text) = Some e →
  parse json_loads fuel text st = (Raise e, st).
Proof.
  unfold descriptor_error, parse.
  destruct (json_loads text) as [msg | link]; mstep.
  - intros [= <-]. reflexivity.
  - destruct link as [| b | n | m x | s | l | items]; cbn [subscript];
      mstep; try (intros [= <-]; reflexivity).
    destruct (dict_get items "path") as [[| b | n | m x | s | l | d] |];
      mstep; cbn [json_fspath]; mstep;
      first [intros [= <-]; reflexivity | discriminate].
Qed.

(** C8, as the code has it.  A value of [extra-media] that is no list:
    when it is true in Python (a string with characters, an object with
    keys, a number that is not zero, [true]) the first thing logged is
    the warning naming the link file and the value; when it is false
    (the empty string, the empty object, zero, [false], [null]) the
    document is processed as if the key were absent, with no warning. *)
Theorem non_list_media_value (fuel : nat) (text : string) (st : State)
  (items : list (string * json)) (p : string) (v : json) :
  json_loads text = inr (JDict items) →
  dict_get items "path" = Some (JStr p) →
  dict_get items "extra-media" = Some v →
  is_list v = false →
  if truthy v then
    ∃ rest,
      warnings (parse json_loads fuel text st).2
      = warnings st
        ++ NotAList (pathlib.fspath (pathlib.Path (docname st))) v :: rest
  else
    ∀ text' items',
      json_loads text' = inr (JDict items') →
      dict_get items' "path" = Some (JStr p) →
      dict_get items' "extra-media" = None →
      parse json_loads fuel text st = parse json_loads fuel text' st.
Proof.
  intros Hloads Hpath Hmedia Hlist.
  rewrite (parse_link _ _ _ _ _ Hloads Hpath). cbv zeta.
  rewrite Hmedia. change (default JNull (Some v)) with v.
  destruct (truthy v) eqn:Htruthy.
  - unfold collect_extra_media. rewrite Hlist. cbn [negb]. mstep.
    match goal with
    | |- ∃ rest, warnings (?m _).2 = _ =>
        assert (Happ : appends m)
          by (unfold record_link_target, read_notebook; appends_auto)
    end.
    destruct (Happ st) as (r & st' & new & Hrun). rewrite Hrun.
    exists new. cbn [snd warnings set_warnings].
    rewrite <- app_assoc. reflexivity.
  - intros text' items' Hloads' Hpath' Hmedia'.
    rewrite (parse_link _ _ _ _ _ Hloads' Hpath'). cbv zeta.
    rewrite Hmedia'. reflexivity.
Qed.

End ParserProperties.

Lemma parse_raises_descriptor_error_witness :
  descriptor_error (Examples.json_loads Examples.truncated_text)
  = Some (JSONDecodeError "Expecting value: line 1 column 10 (char 9)")
  ∧ parse Examples.json_loads 4 Examples.truncated_text
      (Examples.fresh (Examples.project "/project") "docs/a/b" None)
    = (Raise (JSONDecodeError "Expecting value: line 1 column 10 (char 9)"),
       Examples.fresh (Examples.project "/project") "docs/a/b" None).
Proof.
  split; [vm_compute; reflexivity |].
  apply (parse_raises_descriptor_error Examples.json_loads 4
           Examples.truncated_text
           (Examples.fresh (Examples.project "/project") "docs/a/b" None)).
  vm_compute. reflexivity.
Defined.

(** C9 does not hold as stated: the text cut after [path] raises the
    [JSONDecodeError] of the decoder and the object without [path]
    raises [KeyError], each the same exception for the link files
    [docs/a/b] and [index]; neither is a [ConfigurationError] and
    neither tells which file failed. *)
Lemma descriptor_error_does_not_name_the_file :
  let b := Examples.fresh (Examples.project "/project") "docs/a/b" None in
  let i := Examples.fresh (Examples.project "/project/docs") "index" None in
  (parse Examples.json_loads 4 Examples.truncated_text b).1
  = Raise (JSONDecodeError "Expecting value: line 1 column 10 (char 9)")
  ∧ (parse Examples.json_loads 4 Examples.truncated_text i).1
    = Raise (JSONDecodeError "Expecting value: line 1 column 10 (char 9)")
  ∧ (parse Examples.json_loads 4 Examples.no_path_text b).1
    = Raise (KeyError "path")
  ∧ (parse Examples.json_loads 4 Examples.no_path_text i).1
    = Raise (KeyError "path")
  ∧ docname b ≠ docname i.
Proof.
  cbv zeta. split_and!; vm_compute; first [reflexivity | discriminate].
Qed.

Lemma non_list_media_value_witness :
  Examples.json_loads (Examples.media_value_text (Examples.quoted "img"))
  = inr (Examples.media_value_link (JStr "img"))
  ∧ ∃ rest,
      warnings
        (parse Examples.json_loads 4
           (Examples.media_value_text (Examples.quoted "img"))
           (Examples.fresh (Examples.project "/project/docs") "index" None)).2
      = [] ++ NotAList "index" (JStr "img") :: rest.
Proof.
  split; [vm_compute; reflexivity |].
  exact (non_list_media_value Examples.json_loads 4
           (Examples.media_value_text (Examples.quoted "img"))
           (Examples.fresh (Examples.project "/project/docs") "index" None)
           _ "../notebooks/demo.ipynb" (JStr "img")
           eq_refl eq_refl eq_refl eq_refl).
Defined.

(** C8 does not hold as stated.  For the empty string nothing is
    logged; for the string [img] the warning is followed by the loop
    over its characters, each taken as an entry and resolved; for the
    number 5 the warning is followed by the [TypeError] of the loop,
    which ends the processing of the document. *)
Lemma non_list_media_not_skipped :
  let st := Examples.fresh (Examples.project "/project/docs") "index" None in
  let run value := parse Examples.json_loads 4
                     (Examples.media_value_text value) st in
  warnings (run (Examples.quoted "")).2 = []
  ∧ warnings (run (Examples.quoted "img")).2
    = [NotAList "index" (JStr "img"); InvalidPath "i" "index";
       InvalidPath "m" "index"; InvalidPath "g" "index"]
  ∧ (run "5").1 = Raise TypeError
  ∧ warnings (run "5").2 = [NotAList "index" (JInt 5)]
  ∧ dependency_set (run "5").2 = ∅.
Proof. cbv zeta. split_and!; vm_compute; reflexivity. Qed.

(** ** Media that are regular files *)

Lemma getcwd_write_file files path content files' :
  os.write_file files path content = inr files' →
  os.getcwd files' = os.getcwd files.
Proof.
  unfold os.write_file, os.create. intros H.
  repeat case_match; simplify_eq; reflexivity.
Qed.

Lemma getcwd_copy files src dest files' :
  shutil.copy files src dest = inr files' →
  os.getcwd files' = os.getcwd files.
Proof.
  unfold shutil.copy. intros H.
  repeat case_match; simplify_eq; eapply getcwd_write_file; eassumption.
Qed.

Lemma getcwd_after_copy files src dest :
  os.getcwd (after_copy files src dest) = os.getcwd files.
Proof.
  unfold after_copy.
  destruct (shutil.copy files src dest) eqn:H; [reflexivity |].
  exact (getcwd_copy _ _ _ _ H).
Qed.

Lemma copy_file_state src dest st :
  copy_file src dest st = (Done tt, (copy_file src dest st).2)
  ∧ fs (copy_file src dest st).2 = after_copy (fs st) src dest
  ∧ dependency_set (copy_file src dest st).2
    = (if copy_succeeds (fs st) src dest then {[src]} else ∅)
      ∪ dependency_set st
  ∧ docname (copy_file src dest st).2 = docname st.
Proof.
  rewrite copy_file_run. unfold after_copy, copy_succeeds.
  destruct (shutil.copy (fs st) src dest); cbn [fst snd].
  - repeat split.
    change (dependency_set (set_warnings ?ws st)) with (dependency_set st).
    rewrite union_empty_l_L. reflexivity.
  - repeat split. rewrite dependency_set_note. reflexivity.
Qed.

(** The turn of an entry whose source is a regular file. *)
Lemma media_entry_file fuel source_file nb_path entry st content :
  let src_path := media_src_path (posixpath.dirname source_file) entry in
  os.stat (fs st) src_path = inr (File content) →
  media_entry fuel source_file nb_path (JStr entry) false st =
    (Done false,
     (copy_file src_path
        (media_dest_path (os.getcwd (fs st)) (posixpath.dirname source_file)
           nb_path src_path) st).2).
Proof.
  cbv zeta. intros Hstat. unfold media_entry. cbn [json_fspath]. mstep.
  unfold os.path_exists, os.path_isdir, copy_and_register_files.
  rewrite Hstat. mstep. unfold os.path_isdir. rewrite Hstat.
  rewrite bind_unfold.
  destruct (copy_file_state
              (media_src_path (posixpath.dirname source_file) entry)
              (media_dest_path (os.getcwd (fs st))
                 (posixpath.dirname source_file) nb_path
                 (media_src_path (posixpath.dirname source_file) entry)) st)
    as (Hrun & _).
  rewrite Hrun. cbn [orb]. mstep. reflexivity.
Qed.

Section TwoMediaFiles.

Variable json_loads : string → string + json.

(** C6, as the code has it.  A document with the notebook path [N] and
    two entries that name regular files [M1] and [M2], with nothing
    registered before: afterwards the dependencies of the document are
    [N] and those of [M1], [M2] whose copy succeeded; a file whose copy
    raised an [OSError] is not registered.  The three are the paths
    as the module computes them, relative to the working directory where
    the link file is. *)
Theorem two_media_files_dependencies (fuel : nat) (text : string)
  (st : State) (items : list (string * json)) (p e1 e2 c1 c2 : string) :
  json_loads text = inr (JDict items) →
  dict_get items "path" = Some (JStr p) →
  dict_get items "extra-media" = Some (JList [JStr e1; JStr e2]) →
  dependency_set st = ∅ →
  let cwd := os.getcwd (fs st) in
  let source_dir :=
    posixpath.dirname (pathlib.fspath (pathlib.Path (docname st))) in
  let N :=
    pathlib.fspath
      (notebook_path cwd (notebook_abs_path cwd (docname st) p)) in
  let M1 := media_src_path source_dir e1 in
  let M2 := media_src_path source_dir e2 in
  let dest1 := media_dest_path cwd source_dir N M1 in
  let dest2 := media_dest_path cwd source_dir N M2 in
  os.stat (fs st) M1 = inr (File c1) →
  os.stat (after_copy (fs st) M1 dest1) M2 = inr (File c2) →
  dependency_set (parse json_loads fuel text st).2
  = {[N]}
    ∪ (if copy_succeeds (fs st) M1 dest1 then {[M1]} else ∅)
    ∪ (if copy_succeeds (after_copy (fs st) M1 dest1) M2 dest2
       then {[M2]} else ∅).
Proof.
  intros Hloads Hpath Hmedia Hfresh cwd source_dir N M1 M2 dest1 dest2 H1 H2.
  rewrite (parse_link _ _ _ _ _ _ Hloads Hpath). cbv zeta.
  rewrite Hmedia. change (default JNull (Some ?v)) with v.
  cbn [truthy length bool_decide decide_rel negb].
  change (bool_decide (2 = 0)) with false. cbn [negb].
  rewrite bind_unfold, collect_extra_media_list.
  cbn [media_loop]. rewrite bind_unfold.
  rewrite (media_entry_file _ _ _ _ _ _ H1).
  fold cwd source_dir N M1 dest1.
  destruct (copy_file_state M1 dest1 st) as (_ & Hfs1 & Hdeps1 & Hname1).
  set (st1 := (copy_file M1 dest1 st).2) in *.
  rewrite bind_unfold.
  assert (Hcwd1 : os.getcwd (fs st1) = cwd)
    by (rewrite Hfs1; apply getcwd_after_copy).
  rewrite (media_entry_file _ _ _ _ st1 c2)
    by (rewrite Hfs1; exact H2).
  rewrite Hcwd1. fold source_dir M2 dest2.
  destruct (copy_file_state M2 dest2 st1) as (_ & Hfs2 & Hdeps2 & Hname2).
  set (st2 := (copy_file M2 dest2 st1).2) in *.
  cbn [media_loop]. mstep. rewrite bind_unfold, register_dependency_run.
  cbn beta iota.
  match goal with
  | |- dependency_set (?m ?s).2 = _ =>
      destruct (parse_end_preserves cwd
                  (notebook_abs_path cwd (docname st) p) (docname st)
                  (notebook_path cwd (notebook_abs_path cwd (docname st) p))
                  s) as (_ & _ & Hdeps & _)
  end.
  rewrite Hdeps, dependency_set_note.
  change (dependency_set (set_record_dependencies ?l st2))
    with (dependency_set st2).
  rewrite Hdeps2, Hdeps1, Hfs1, Hfresh.
  destruct (copy_succeeds _ M1 dest1), (copy_succeeds _ M2 dest2);
    set_solver.
Qed.

End TwoMediaFiles.

Lemma two_media_files_dependencies_witness :
  let st := Examples.fresh (Examples.project "/project/docs") "index" None in
  Examples.json_loads Examples.two_files_text = inr Examples.two_files_link
  ∧ os.stat (fs st) "../notebooks/a.png" = inr (File "picture a")
  ∧ os.stat (after_copy (fs st) "../notebooks/a.png" "a.png")
      "../notebooks/img/b.png" = inr (File "picture b")
  ∧ dependency_set (parse Examples.json_loads 4 Examples.two_files_text st).2
    = {["../notebooks/demo.ipynb"]} ∪ {["../notebooks/a.png"]} ∪ ∅.
Proof.
  cbv zeta. split; [vm_compute; reflexivity |].
  split; [vm_compute; reflexivity |]. split; [vm_compute; reflexivity |].
  exact (two_media_files_dependencies Examples.json_loads 4
           Examples.two_files_text
           (Examples.fresh (Examples.project "/project/docs") "index" None)
           _ "../notebooks/demo.ipynb" "../notebooks/a.png"
           "../notebooks/img/b.png" "picture a" "picture b"
           eq_refl eq_refl eq_refl eq_refl eq_refl eq_refl).
Defined.

(** C6 does not hold as stated.  The link file [docs/index.nblink]
    names the notebook and two pictures that exist; the first is copied
    next to the link file, the second would go to [img/b.png] there,
    the directory [docs/img] does not exist and [shutil.copy] raises:
    the picture is not registered, and the paths that are registered
    are relative ones. *)
Lemma two_media_files_one_not_registered :
  let st := Examples.fresh (Examples.project "/project/docs") "index" None in
  let r := parse Examples.json_loads 4 Examples.two_files_text st in
  os.stat (fs st) "/project/notebooks/a.png" = inr (File "picture a")
  ∧ os.stat (fs st) "/project/notebooks/img/b.png" = inr (File "picture b")
  ∧ r.1 = Done "notebook"
  ∧ dependency_set r.2 = {["../notebooks/demo.ipynb"; "../notebooks/a.png"]}
  ∧ record_dependencies r.2
    = ["../notebooks/a.png"; "../notebooks/demo.ipynb"]
  ∧ warnings r.2 = [CopyFailed "../notebooks/img/b.png" ENOENT]
  ∧ os.stat (fs r.2) "a.png" = inr (File "picture a")
  ∧ os.stat (fs r.2) "img/b.png" = inl ENOENT.
Proof. cbv zeta. split_and!; vm_compute; reflexivity. Qed.

Lemma one_missing_entry_one_warning_witness :
  let source_file := pathlib.Path "index" in
  let nb_path := pathlib.Path "../notebooks/demo.ipynb" in
  let st := Examples.fresh (Examples.project "/project/docs") "index" None in
  let reached := (copy_file "../notebooks/a.png" "a.png" st).2 in
  let st' :=
    (collect_extra_media 4
       (JList [JStr "../notebooks/a.png"; JStr "../notebooks/img"])
       source_file nb_path st).2 in
  os.path_exists (fs reached) "../notebooks/missing.png" = false
  ∧ warnings st' = []
  ∧ os.stat (fs st') "img/fig.png" = inr (File "figure")
  ∧ collect_extra_media 4
      (JList [JStr "../notebooks/a.png"; JStr "../notebooks/missing.png";
              JStr "../notebooks/img"])
      source_file nb_path st
    = (Done tt,
       set_warnings [InvalidPath "../notebooks/missing.png" "index"] st').
Proof.
  cbv zeta. split; [vm_compute; reflexivity |].
  split; [vm_compute; reflexivity |]. split; [vm_compute; reflexivity |].
  apply (one_missing_entry_one_warning 4 (pathlib.Path "index")
           (pathlib.Path "../notebooks/demo.ipynb")
           ["../notebooks/a.png"] ["../notebooks/img"]
           "../notebooks/missing.png"
           (Examples.fresh (Examples.project "/project/docs") "index" None)
           (copy_file "../notebooks/a.png" "a.png"
              (Examples.fresh (Examples.project "/project/docs") "index"
                 None)).2
           _ false);
    vm_compute; reflexivity.
Defined.

(** ** Strings and components *)

Lemma split_nonempty s : Str.split s ≠ [].
Proof. destruct s as [| c s]; cbn; [done |]. repeat case_match; done. Qed.

Lemma append_cons c a b : String c a +:+ b = String c (a +:+ b).
Proof. reflexivity. Qed.

Lemma append_nil_l b : "" +:+ b = b.
Proof. reflexivity. Qed.

Lemma append_nil_r a : a +:+ "" = a.
Proof. induction a as [| c a IH]; [done |]. by rewrite append_cons, IH. Qed.

Lemma append_assoc a b c : (a +:+ b) +:+ c = a +:+ (b +:+ c).
Proof.
  induction a as [| x a IH]; [done |]. by rewrite !append_cons, IH.
Qed.

Lemma split_append_sep a b :
  Str.split (a +:+ String Str.sep b) = Str.split a ++ Str.split b.
Proof.
  induction a as [| c a IH]; cbn [Str.split String.append app].
  - reflexivity.
  - rewrite append_cons. cbn [Str.split].
    rewrite IH. destruct (Str.is_sep c); [reflexivity |].
    destruct (Str.split a) eqn:Ha; [by apply split_nonempty in Ha |].
    reflexivity.
Qed.

Lemma split_sep_free_string s : sep_free s = true → Str.split s = [s].
Proof.
  induction s as [| c s IH]; cbn; [reflexivity |].
  intros [Hc Hs]%andb_true_iff. apply negb_true_iff in Hc.
  rewrite Hc, (IH Hs). reflexivity.
Qed.

Lemma split_all_sep_free s : Forall (fun c => sep_free c = true) (Str.split s).
Proof.
  induction s as [| c s IH]; cbn; [by repeat constructor |].
  destruct (Str.is_sep c) eqn:Hc; [by constructor |].
  destruct (Str.split s) as [| h t] eqn:Hs; [by apply split_nonempty in Hs |].
  inversion IH; subst. constructor; [| done]. cbn. by rewrite Hc.
Qed.

Lemma split_join l :
  l ≠ [] → Forall (fun c => sep_free c = true) l →
  Str.split (Str.join l) = l.
Proof.
  induction l as [| a l IH]; [done |]. intros _ Hl.
  inversion Hl as [| ? ? Ha Hl']; subst.
  destruct l as [| b l]; [by apply split_sep_free_string |].
  change (Str.join (a :: b :: l))
    with (a +:+ String Str.sep (Str.join (b :: l))).
  rewrite split_append_sep, (split_sep_free_string _ Ha), IH by done.
  reflexivity.
Qed.

(** ** The bound on [os.walk] only bounds *)

Lemma bind_not_out_of_fuel {A B} (m : M A) (k : A → M B) st :
  ((m ≫= k) st).1 ≠ OutOfFuel → (m st).1 ≠ OutOfFuel.
Proof.
  rewrite bind_unfold. by destruct (m st) as [[a | e |] st1].
Qed.

Lemma bind_more_fuel {A B} (m m' : M A) (k k' : A → M B) st :
  ((m ≫= k) st).1 ≠ OutOfFuel →
  ((m st).1 ≠ OutOfFuel → m' st = m st) →
  (∀ a st1, m st = (Done a, st1) → (k a st1).1 ≠ OutOfFuel →
            k' a st1 = k a st1) →
  (m' ≫= k') st = (m ≫= k) st.
Proof.
  intros Hrun Hm Hk. pose proof (bind_not_out_of_fuel _ _ _ Hrun) as Hm1.
  rewrite !bind_unfold in *. rewrite (Hm Hm1).
  destruct (m st) as [[a | e |] st1]; [| done | done].
  by apply Hk.
Qed.

Lemma walk_more_fuel fuel extra stack src dest st :
  (walk fuel stack src dest st).1 ≠ OutOfFuel →
  walk (fuel + extra) stack src dest st = walk fuel stack src dest st.
Proof.
  revert stack st. induction fuel as [| fuel IH]; intros [| top stack] st.
  - by destruct extra.
  - done.
  - done.
  - cbn [Nat.add walk]. rewrite !bind_gets.
    destruct (os.scandir (fs st) top) as [e | [dirs nondirs]]; [apply IH |].
    intros Hrun. apply bind_more_fuel; [done | done |].
    intros [] st1 _. apply IH.
Qed.

Lemma copy_and_register_files_more_fuel fuel extra src dest st :
  (copy_and_register_files fuel src dest st).1 ≠ OutOfFuel →
  copy_and_register_files (fuel + extra) src dest st
  = copy_and_register_files fuel src dest st.
Proof.
  unfold copy_and_register_files. rewrite !bind_gets.
  destruct (os.path_isdir (fs st) src); [apply walk_more_fuel | done].
Qed.

Lemma media_entry_more_fuel fuel extra source_file nb_path entry any_dirs st :
  (media_entry fuel source_file nb_path entry any_dirs st).1 ≠ OutOfFuel →
  media_entry (fuel + extra) source_file nb_path entry any_dirs st
  = media_entry fuel source_file nb_path entry any_dirs st.
Proof.
  unfold media_entry. intros Hrun.
  apply bind_more_fuel; [done | done |]. intros p st1 _.
  rewrite !bind_gets. intros Hrun1.
  apply bind_more_fuel; [done | | done].
  destruct (os.path_exists _ _); [| done]. intros Hrun2.
  apply bind_more_fuel; [done | | done].
  apply copy_and_register_files_more_fuel.
Qed.

Lemma media_loop_more_fuel fuel extra source_file nb_path entries any_dirs st :
  (media_loop fuel source_file nb_path entries any_dirs st).1 ≠ OutOfFuel →
  media_loop (fuel + extra) source_file nb_path entries any_dirs st
  = media_loop fuel source_file nb_path entries any_dirs st.
Proof.
  revert any_dirs st.
  induction entries as [| entry entries IH]; intros any_dirs st; [done |].
  cbn [media_loop]. intros Hrun.
  apply bind_more_fuel; [done | apply media_entry_more_fuel |].
  intros a st1 _. apply IH.
Qed.

Lemma collect_extra_media_more_fuel fuel extra extra_media source_file
  nb_path st :
  (collect_extra_media fuel extra_media source_file nb_path st).1
  ≠ OutOfFuel →
  collect_extra_media (fuel + extra) extra_media source_file nb_path st
  = collect_extra_media fuel extra_media source_file nb_path st.
Proof.
  unfold collect_extra_media. intros Hrun.
  apply bind_more_fuel; [done | done |]. intros [] st1 _ Hrun1.
  apply bind_more_fuel; [done | done |]. intros entries st2 _ Hrun2.
  apply bind_more_fuel; [done | apply media_loop_more_fuel | done].
Qed.

(** A run of [parse] that is not cut short by the bound is the run
    with any larger bound. *)
Lemma parse_more_fuel json_loads fuel extra text st :
  (parse json_loads fuel text st).1 ≠ OutOfFuel →
  parse json_loads (fuel + extra) text st = parse json_loads fuel text st.
Proof.
  unfold parse. intros Hrun.
  apply bind_more_fuel; [done | done |]. intros link st1 _.
  rewrite !bind_gets. intros Hrun1.
  apply bind_more_fuel; [done | done |]. intros key st2 _ Hrun2.
  apply bind_more_fuel; [done | done |]. intros p st3 _ Hrun3.
  apply bind_more_fuel; [done | | done].
  destruct (truthy _); [apply collect_extra_media_more_fuel | done].
Qed.

(** Entries that are regular files need no directory to be scanned. *)
Lemma media_entry_file_any_fuel fuel fuel' source_file nb_path entry st content :
  os.stat (fs st) (media_src_path (posixpath.dirname source_file) entry)
  = inr (File content) →
  media_entry fuel source_file nb_path (JStr entry) false st
  = media_entry fuel' source_file nb_path (JStr entry) false st.
Proof.
  intros Hstat.
  by rewrite (media_entry_file fuel _ _ _ _ _ Hstat),
    (media_entry_file fuel' _ _ _ _ _ Hstat).
Qed.

(** ** Components *)

Lemma filter_Forall_id {A} (P : A → Prop) `{∀ x, Decision (P x)} (l : list A) :
  Forall P l → filter P l = l.
Proof.
  induction 1 as [| x l Hx Hl IH]; [done |].
  by rewrite filter_cons_True, IH.
Qed.

Lemma clean_sep_free l :
  Forall clean l → Forall (fun c => sep_free c = true) l.
Proof. intros H. eapply Forall_impl; [exact H |]. by intros ? (_ & _ & ?). Qed.

Lemma comps_of_join l : Forall clean l → comps_of (Str.join l) = l.
Proof.
  intros Hl. unfold comps_of. destruct l as [| a l]; [reflexivity |].
  rewrite split_join by (done || by apply clean_sep_free).
  apply filter_Forall_id. eapply Forall_impl; [exact Hl |].
  by intros ? (? & ? & _).
Qed.

Lemma comps_of_append_sep a b :
  comps_of (a +:+ String Str.sep b) = comps_of a ++ comps_of b.
Proof. unfold comps_of. by rewrite split_append_sep, filter_app. Qed.

Lemma comps_of_clean s : Forall clean (comps_of s).
Proof.
  unfold comps_of. apply Forall_forall. intros c Hc.
  apply list_elem_of_filter in Hc as [[? ?] Hc].
  split_and!; [done | done |].
  by apply (proj1 (Forall_forall _ _) (split_all_sep_free s)).
Qed.

Lemma comps_of_empty : comps_of "" = [].
Proof. reflexivity. Qed.

Lemma comps_of_dot : comps_of "." = [].
Proof. reflexivity. Qed.

(** A leading slash adds an empty component. *)
Lemma comps_of_cons_sep s : comps_of (String Str.sep s) = comps_of s.
Proof.
  change (String Str.sep s) with ("" +:+ String Str.sep s).
  by rewrite comps_of_append_sep.
Qed.

Lemma comps_of_slashes i s :
  comps_of (posixpath.slashes i +:+ s) = comps_of s.
Proof.
  induction i as [| i IH]; [done |].
  cbn [posixpath.slashes]. by rewrite append_cons, comps_of_cons_sep.
Qed.

(** ** [normpath] on components *)

Lemma norm_comps_filter i l acc :
  posixpath.norm_comps i (filter (fun x => x ≠ "" ∧ x ≠ ".") l) acc
  = posixpath.norm_comps i l acc.
Proof.
  revert acc. induction l as [| c l IH]; intros acc; [done |].
  cbn [posixpath.norm_comps]. unfold Str.eqb.
  destruct (decide (c = "")) as [-> | Hc1].
  { rewrite filter_cons_False by naive_solver. by rewrite bool_decide_eq_true_2. }
  destruct (decide (c = ".")) as [-> | Hc2].
  { rewrite filter_cons_False by naive_solver. cbn. apply IH. }
  rewrite filter_cons_True by done. cbn [posixpath.norm_comps].
  unfold Str.eqb. rewrite !(bool_decide_eq_false_2 (c = _)) by done.
  cbn [orb]. destruct (_ || _); apply IH.
Qed.

Lemma norm_comps_app i a b acc :
  posixpath.norm_comps i (a ++ b) acc
  = posixpath.norm_comps i b (rev (posixpath.norm_comps i a acc)).
Proof.
  revert acc. induction a as [| c a IH]; intros acc.
  - cbn. by rewrite rev_involutive.
  - cbn [app posixpath.norm_comps]. repeat case_match; apply IH.
Qed.

Lemma norm_comps_proper i l acc :
  Forall proper l → posixpath.norm_comps i l acc = rev acc ++ l.
Proof.
  revert acc. induction l as [| c l IH]; intros acc Hl.
  - cbn. by rewrite app_nil_r.
  - inversion Hl as [| ? ? [(Hc1 & Hc2 & _) Hc3] Hl']; subst.
    cbn [posixpath.norm_comps]. unfold Str.eqb.
    rewrite !(bool_decide_eq_false_2 (c = _)) by done. cbn [orb negb].
    rewrite IH by done. cbn [rev]. by rewrite <- app_assoc.
Qed.

Lemma norm_comps_dots i ext l acc :
  Forall proper ext →
  posixpath.norm_comps i (repeat ".." (length ext) ++ l) (rev ext ++ acc)
  = posixpath.norm_comps i l acc.
Proof.
  induction ext as [| e ext IH] using rev_ind; intros Hext; [done |].
  apply Forall_app in Hext as [Hext He]. inversion He as [| ? ? [_ He'] _]; subst.
  rewrite length_app, Nat.add_comm, rev_app_distr. cbn [length Nat.add repeat rev app].
  cbn [posixpath.norm_comps]. unfold Str.eqb.
  rewrite (bool_decide_eq_false_2 (".." = "")) by done.
  rewrite (bool_decide_eq_false_2 (".." = ".")) by done.
  rewrite (bool_decide_eq_true_2 (".." = "..")) by done.
  rewrite (bool_decide_eq_false_2 (e = "..")) by done.
  rewrite (bool_decide_eq_false_2 (e :: _ = [])) by done.
  rewrite andb_false_r. cbn [orb negb tail]. by apply IH.
Qed.

(** From an absolute start the components [normpath] keeps are proper. *)
Lemma norm_comps_keeps_proper i l acc :
  i ≠ 0 → Forall clean l → Forall proper acc →
  Forall proper (posixpath.norm_comps i l acc).
Proof.
  intros Hi. revert acc. induction l as [| c l IH]; intros acc Hl Hacc.
  - cbn. by apply Forall_rev.
  - inversion Hl as [| ? ? Hc Hl']; subst. cbn [posixpath.norm_comps].
    destruct (_ || _); [by apply IH |].
    destruct (Str.eqb c "..") eqn:Hdots; cbn [negb orb].
    + replace (i =? 0) with false by (symmetry; by apply Nat.eqb_neq).
      cbn [andb orb].
      destruct acc as [| last acc]; [by apply IH |].
      inversion Hacc as [| ? ? [_ Hlast] Hacc']; subst.
      unfold Str.eqb. rewrite (bool_decide_eq_false_2 (last = "..")) by done.
      by apply IH.
    + apply IH; [done |]. constructor; [| done]. split; [done |].
      unfold Str.eqb in Hdots. by apply bool_decide_eq_false_1 in Hdots.
Qed.

Lemma norm_comps_keeps_clean i l acc :
  Forall clean l → Forall clean acc →
  Forall clean (posixpath.norm_comps i l acc).
Proof.
  revert acc. induction l as [| c l IH]; intros acc Hl Hacc.
  - cbn. by apply Forall_rev.
  - inversion Hl as [| ? ? Hc Hl']; subst. cbn [posixpath.norm_comps].
    repeat case_match; apply IH; try done;
      first [by constructor | by apply Forall_nil | by inversion Hacc].
Qed.

(** ** Parsed paths *)

Lemma is_sep_eq c : Str.is_sep c = true → c = Str.sep.
Proof. apply Ascii.eqb_eq. Qed.

Lemma initial_slashes_le s : posixpath.initial_slashes s ≤ 2.
Proof.
  destruct s as [| c1 [| c2 [| c3 s]]]; cbn; repeat case_match; lia.
Qed.

Lemma Path_root s :
  pathlib.root (pathlib.Path s)
  = posixpath.slashes (posixpath.initial_slashes s).
Proof.
  unfold pathlib.Path, pathlib.splitroot, posixpath.initial_slashes.
  destruct s as [| c1 [| c2 [| c3 s]]]; [done | | |].
  - by destruct (Str.is_sep c1).
  - by destruct (Str.is_sep c1), (Str.is_sep c2).
  - by destruct (Str.is_sep c1), (Str.is_sep c2), (Str.is_sep c3).
Qed.

Lemma Path_tail s : pathlib.tail (pathlib.Path s) = comps_of s.
Proof.
  unfold pathlib.Path, pathlib.splitroot.
  destruct s as [| c1 rest1]; [done |].
  destruct (Str.is_sep c1) eqn:H1; [apply is_sep_eq in H1 as -> | done].
  rewrite comps_of_cons_sep.
  destruct rest1 as [| c2 rest2]; [done |].
  destruct (Str.is_sep c2) eqn:H2; [apply is_sep_eq in H2 as -> | done].
  destruct rest2 as [| c3 rest3]; [done |].
  destruct (Str.is_sep c3) eqn:H3; [done |].
  cbn [pathlib.tail]. by rewrite comps_of_cons_sep.
Qed.

Lemma Path_eq s :
  pathlib.Path s
  = mkPath (posixpath.slashes (posixpath.initial_slashes s)) (comps_of s).
Proof.
  rewrite <- Path_root, <- Path_tail. by destruct (pathlib.Path s).
Qed.

Lemma Path_well_formed s : well_formed (pathlib.Path s).
Proof.
  rewrite Path_eq. split; [| apply comps_of_clean].
  eexists. split; [apply initial_slashes_le | done].
Qed.

Lemma join_clean_head a l :
  Forall clean (a :: l) →
  ∃ c s, Str.join (a :: l) = String c s ∧ Str.is_sep c = false.
Proof.
  intros Hl. inversion Hl as [| ? ? (Ha & _ & Hfree) _]; subst.
  destruct a as [| c a]; [done |]. cbn in Hfree.
  apply andb_true_iff in Hfree as [Hc%negb_true_iff _].
  destruct l; cbn; eauto.
Qed.

Lemma initial_slashes_anchor i x :
  i ≤ 2 →
  (x = "" ∨ ∃ c s, x = String c s ∧ Str.is_sep c = false) →
  posixpath.initial_slashes (posixpath.slashes i +:+ x) = i.
Proof.
  intros Hi [-> | (c & s & -> & Hc)].
  - destruct i as [| [| [| i]]]; [done | done | done | lia].
  - destruct i as [| [| [| i]]]; [| | | lia].
    + change (posixpath.slashes 0 +:+ String c s) with (String c s).
      unfold posixpath.initial_slashes.
      destruct s as [| ? [| ? ?]]; by rewrite Hc.
    + change (posixpath.slashes 1 +:+ String c s)
        with (String Str.sep (String c s)).
      unfold posixpath.initial_slashes.
      change (Str.is_sep Str.sep) with true.
      destruct s; by rewrite Hc.
    + change (posixpath.slashes 2 +:+ String c s)
        with (String Str.sep (String Str.sep (String c s))).
      unfold posixpath.initial_slashes.
      change (Str.is_sep Str.sep) with true. by rewrite Hc.
Qed.

Lemma isabs_anchor i x :
  (x = "" ∨ ∃ c s, x = String c s ∧ Str.is_sep c = false) →
  posixpath.isabs (posixpath.slashes i +:+ x) = negb (i =? 0).
Proof.
  intros Hx. destruct i as [| i]; [| done].
  destruct Hx as [-> | (c & s & -> & Hc)]; [done | exact Hc].
Qed.

Lemma join_clean_anchor l :
  Forall clean l →
  Str.join l = "" ∨ ∃ c s, Str.join l = String c s ∧ Str.is_sep c = false.
Proof.
  intros Hl. destruct l as [| a l]; [by left | right].
  by apply join_clean_head.
Qed.

Section WellFormed.

Variable p : PurePath.
Hypothesis Hp : well_formed p.

Lemma format_comps : comps_of (pathlib.format_parsed_parts p) = pathlib.tail p.
Proof.
  destruct Hp as [(i & _ & Hroot) Htail]. unfold pathlib.format_parsed_parts.
  by rewrite Hroot, comps_of_slashes, comps_of_join.
Qed.

Lemma format_initial :
  pathlib.root p
  = posixpath.slashes
      (posixpath.initial_slashes (pathlib.format_parsed_parts p)).
Proof.
  destruct Hp as [(i & Hi & Hroot) Htail]. unfold pathlib.format_parsed_parts.
  rewrite Hroot, initial_slashes_anchor; [done | done |].
  by apply join_clean_anchor.
Qed.

Lemma fspath_comps : comps_of (pathlib.fspath p) = pathlib.tail p.
Proof.
  unfold pathlib.fspath, Str.eqb. case_bool_decide as Hempty.
  - rewrite <- format_comps, Hempty. done.
  - apply format_comps.
Qed.

Lemma fspath_initial :
  pathlib.root p
  = posixpath.slashes (posixpath.initial_slashes (pathlib.fspath p)).
Proof.
  unfold pathlib.fspath, Str.eqb. case_bool_decide as Hempty.
  - rewrite format_initial, Hempty. done.
  - apply format_initial.
Qed.

End WellFormed.

Lemma slashes_inj i j :
  i ≤ 2 → j ≤ 2 → posixpath.slashes i = posixpath.slashes j → i = j.
Proof.
  destruct i as [| [| [| i]]], j as [| [| [| j]]]; cbn; intros; try lia;
    discriminate.
Qed.

Lemma isabs_initial s :
  posixpath.isabs s = negb (posixpath.initial_slashes s =? 0).
Proof.
  destruct s as [| c1 [| c2 [| c3 s]]]; cbn; repeat case_match; done.
Qed.

Lemma join_clean_empty l : Forall clean l → Str.join l = "" → l = [].
Proof.
  intros Hl Hempty. destruct l as [| a l]; [done |].
  destruct (join_clean_head a l Hl) as (c & s & Hjoin & _). congruence.
Qed.

(** The parsed form of a normalised path. *)
Lemma Path_normpath s :
  pathlib.Path (posixpath.normpath s)
  = mkPath (posixpath.slashes (posixpath.initial_slashes s))
      (posixpath.norm_comps (posixpath.initial_slashes s) (comps_of s) []).
Proof.
  unfold posixpath.normpath, Str.eqb.
  case_bool_decide as Hs; [by subst |].
  rewrite <- (norm_comps_filter _ (Str.split s)). fold (comps_of s).
  set (i := posixpath.initial_slashes s).
  set (c := posixpath.norm_comps i (comps_of s) []).
  assert (Hc : Forall clean c)
    by (apply norm_comps_keeps_clean; [apply comps_of_clean | done]).
  assert (Hi : i ≤ 2) by apply initial_slashes_le.
  case_bool_decide as Hempty.
  - destruct i as [| i]; [| done]. cbn in Hempty.
    by rewrite (join_clean_empty _ Hc Hempty).
  - rewrite Path_eq, comps_of_slashes, comps_of_join by done.
    rewrite initial_slashes_anchor; [done | done |].
    by apply join_clean_anchor.
Qed.

(** ** [os.path.join] *)

#[local] Arguments Str.is_sep : simpl never.

Lemma is_sep_sep : Str.is_sep Str.sep = true.
Proof. reflexivity. Qed.

Lemma endswith_sep_split a :
  Str.endswith_sep a = true → ∃ a', a = a' +:+ String Str.sep "".
Proof.
  induction a as [| c a IH]; [done |]. cbn [Str.endswith_sep].
  destruct a as [| c' a].
  - intros ->%is_sep_eq. by exists "".
  - intros (a' & Ha')%IH. exists (String c a'). by rewrite append_cons, <- Ha'.
Qed.

Lemma join_absolute a b : posixpath.isabs b = true → posixpath.join a b = b.
Proof. unfold posixpath.join, posixpath.isabs. by intros ->. Qed.

Lemma comps_of_os_join a b :
  posixpath.isabs b = false →
  comps_of (posixpath.join a b) = comps_of a ++ comps_of b.
Proof.
  unfold posixpath.join, posixpath.isabs, Str.eqb. intros ->.
  case_bool_decide as Ha; [by subst |]. cbn [orb].
  destruct (Str.endswith_sep a) eqn:Hend.
  - apply endswith_sep_split in Hend as (a' & ->).
    rewrite append_assoc. cbn [String.append].
    change (String Str.sep "" +:+ b) with (String Str.sep b).
    rewrite !comps_of_append_sep, comps_of_empty, app_nil_r. done.
  - change ("/" +:+ b) with (String Str.sep b). apply comps_of_append_sep.
Qed.

Ltac norm_append := repeat (rewrite append_cons || rewrite append_nil_l).

Lemma initial_slashes_os_join a b :
  posixpath.isabs b = false →
  posixpath.initial_slashes (posixpath.join a b)
  = posixpath.initial_slashes a.
Proof.
  intros Hb. pose proof Hb as Hb0. rewrite isabs_initial in Hb0.
  apply negb_false_iff, Nat.eqb_eq in Hb0.
  unfold posixpath.join. unfold posixpath.isabs in Hb. rewrite Hb.
  destruct a as [| c1 [| c2 [| c3 a]]].
  - done.
  - unfold Str.eqb. rewrite bool_decide_eq_false_2 by done. cbn [orb].
    cbn [Str.endswith_sep]. destruct (Str.is_sep c1) eqn:H1; norm_append.
    + destruct b as [| d [| d' b]]; cbn in *; rewrite ?H1, ?Hb; done.
    + destruct b; cbn; by rewrite H1.
  - unfold Str.eqb. rewrite bool_decide_eq_false_2 by done. cbn [orb].
    cbn [Str.endswith_sep]. destruct (Str.is_sep c2) eqn:H2; norm_append.
    + destruct b as [| d b]; cbn in *; rewrite ?H2, ?Hb; done.
    + cbn. by rewrite H2, andb_false_l.
  - destruct (_ || _); norm_append; done.
Qed.

(** ** [abspath], [resolve] and [joinpath] on components *)

Lemma Path_abspath_absolute cwd s :
  posixpath.isabs s = true →
  pathlib.Path (posixpath.abspath cwd s)
  = mkPath (posixpath.slashes (posixpath.initial_slashes s))
      (posixpath.norm_comps (posixpath.initial_slashes s) (comps_of s) []).
Proof. intros Hs. unfold posixpath.abspath. rewrite Hs. apply Path_normpath. Qed.

Lemma Path_abspath_relative cwd s :
  posixpath.isabs s = false →
  pathlib.Path (posixpath.abspath cwd s)
  = mkPath (posixpath.slashes (posixpath.initial_slashes cwd))
      (posixpath.norm_comps (posixpath.initial_slashes cwd)
         (comps_of cwd ++ comps_of s) []).
Proof.
  intros Hs. unfold posixpath.abspath. rewrite Hs, Path_normpath.
  by rewrite initial_slashes_os_join, comps_of_os_join.
Qed.


Lemma fspath_isabs p i :
  well_formed p → i ≤ 2 → pathlib.root p = posixpath.slashes i →
  posixpath.isabs (pathlib.fspath p) = negb (i =? 0)
  ∧ posixpath.initial_slashes (pathlib.fspath p) = i.
Proof.
  intros Hp Hi Hroot. rewrite isabs_initial.
  pose proof (fspath_initial p Hp) as Hinit. rewrite Hroot in Hinit.
  apply slashes_inj in Hinit; [| done | apply initial_slashes_le].
  by rewrite <- Hinit.
Qed.

Lemma resolve_absolute cwd p i :
  well_formed p → 0 < i ≤ 2 → pathlib.root p = posixpath.slashes i →
  pathlib.resolve cwd p
  = mkPath (posixpath.slashes i) (posixpath.norm_comps i (pathlib.tail p) []).
Proof.
  intros Hp [Hpos Hi] Hroot. unfold pathlib.resolve.
  destruct (fspath_isabs p i Hp Hi Hroot) as [Habs Hinit].
  rewrite Path_abspath_absolute, Hinit, fspath_comps; [done | done |].
  rewrite Habs. destruct i; [lia | done].
Qed.

Lemma resolve_relative cwd p :
  well_formed p → pathlib.root p = "" →
  pathlib.resolve cwd p
  = mkPath (posixpath.slashes (posixpath.initial_slashes cwd))
      (posixpath.norm_comps (posixpath.initial_slashes cwd)
         (comps_of cwd ++ pathlib.tail p) []).
Proof.
  intros Hp Hroot. unfold pathlib.resolve.
  destruct (fspath_isabs p 0 Hp ltac:(lia) Hroot) as [Habs _].
  by rewrite Path_abspath_relative, fspath_comps.
Qed.

Lemma format_isabs p :
  well_formed p →
  posixpath.initial_slashes (pathlib.format_parsed_parts p)
  = posixpath.initial_slashes (pathlib.fspath p).
Proof.
  intros Hp. apply slashes_inj; try apply initial_slashes_le.
  by rewrite <- format_initial, <- fspath_initial.
Qed.


Lemma joinpath_relative p key :
  well_formed p → posixpath.isabs key = false →
  pathlib.joinpath p key
  = mkPath (pathlib.root p) (pathlib.tail p ++ comps_of key).
Proof.
  intros Hp Hkey. unfold pathlib.joinpath.
  rewrite Path_eq, initial_slashes_os_join, comps_of_os_join by done.
  by rewrite <- format_initial, format_comps.
Qed.

Lemma parent_well_formed p : well_formed p → well_formed (pathlib.parent p).
Proof.
  intros [Hroot Htail]. unfold pathlib.parent.
  destruct (pathlib.tail p) as [| a l] eqn:Hp; [by split; [| rewrite Hp] |].
  split; [done |]. cbn [pathlib.tail].
  apply Forall_forall. intros x Hx. rewrite Forall_forall in Htail.
  apply Htail. apply list_elem_of_In. apply list_elem_of_In in Hx.
  revert Hx. generalize (a :: l). clear. intros l.
  induction l as [| y [| z l] IH]; cbn; [done | done |].
  intros [-> | H]; [by left | right; by apply IH].
Qed.



Lemma isabs_positive s : posixpath.isabs s = true → 0 < posixpath.initial_slashes s.
Proof.
  rewrite isabs_initial. intros H%negb_true_iff%Nat.eqb_neq. lia.
Qed.


(** ** The path relative to the target root *)

Lemma relative_to_walk_inv p r other_rev step rel :
  pathlib.relative_to_walk p r other_rev step = Some rel →
  ∃ common extra rest,
    rev other_rev = common ++ extra
    ∧ pathlib.root p = r
    ∧ pathlib.tail p = common ++ rest
    ∧ Forall (fun x => x ≠ "..") extra
    ∧ rel = mkPath "" (repeat ".." (step + length extra) ++ rest).
Proof.
  revert step. induction other_rev as [| name other_rev IH]; intros step;
    cbn [pathlib.relative_to_walk];
    unfold pathlib.is_relative_to at 1; cbn [pathlib.root pathlib.tail].
  - unfold Str.eqb. cbn [rev length take].
    case_bool_decide as Hroot; cbn [andb]; [| done].
    intros [= <-]. exists [], [], (pathlib.tail p).
    rewrite Nat.add_0_r. cbn [length drop]. by split_and!.
  - destruct (Str.eqb (pathlib.root p) r && _) eqn:Hrel.
    + apply andb_true_iff in Hrel as [Hroot Hprefix].
      apply bool_decide_eq_true_1 in Hroot, Hprefix.
      intros [= <-]. rewrite length_rev in Hprefix.
      exists (rev (name :: other_rev)), [],
        (drop (length (name :: other_rev)) (pathlib.tail p)).
      rewrite Nat.add_0_r, app_nil_r. split_and!; try done.
      by rewrite <- Hprefix at 1; rewrite take_drop.
    + destruct (Str.eqb name "..") eqn:Hname; [done |].
      unfold Str.eqb in Hname. apply bool_decide_eq_false_1 in Hname.
      intros (common & extra & rest & Hrev & Hroot & Htail & Hextra & ->)%IH.
      exists common, (extra ++ [name]), rest. split_and!; try done.
      * cbn [rev]. by rewrite Hrev, app_assoc.
      * apply Forall_app. by split; [| constructor].
      * rewrite length_app. cbn [length]. do 3 f_equal. lia.
Qed.

Lemma clean_dots : clean "..".
Proof. by split_and!. Qed.

Lemma proper_clean l : Forall proper l → Forall clean l.
Proof. intros H. eapply Forall_impl; [exact H |]. by intros ? [? _]. Qed.

(** Joining the relative path to the root it was computed from and
    resolving gives the path back. *)
Lemma relative_to_round_trip cwd i t other rel :
  0 < i ≤ 2 → Forall proper t → well_formed other →
  pathlib.relative_to (mkPath (posixpath.slashes i) t) other = Some rel →
  pathlib.resolve cwd (pathlib.joinpath other (pathlib.fspath rel))
  = mkPath (posixpath.slashes i) t.
Proof.
  intros Hi Ht Hother Hrel. unfold pathlib.relative_to in Hrel.
  apply relative_to_walk_inv in Hrel
    as (common & extra & rest & Hrev & Hroot & Htail & Hextra & ->).
  rewrite rev_involutive in Hrev. cbn [pathlib.root pathlib.tail Nat.add] in *.
  subst t. apply Forall_app in Ht as [Hcommon Hrest].
  assert (Hwf : well_formed
            (mkPath "" (repeat ".." (length extra) ++ rest))).
  { split; [exists 0; by split; [lia |] |]. cbn [pathlib.tail].
    apply Forall_app. split; [| by apply proper_clean].
    apply Forall_forall. intros x ->%list_elem_of_In%repeat_spec.
    apply clean_dots. }
  destruct (fspath_isabs _ 0 Hwf ltac:(lia) eq_refl) as [Hrelative _].
  rewrite joinpath_relative, (fspath_comps _ Hwf) by done.
  cbn [pathlib.tail]. rewrite <- Hroot, Hrev.
  assert (Hextra' : Forall proper extra).
  { destruct Hother as [_ Hclean]. rewrite Hrev in Hclean.
    apply Forall_app in Hclean as [_ Hclean].
    apply Forall_forall. intros x Hx. split.
    - by apply (proj1 (Forall_forall _ _) Hclean).
    - by apply (proj1 (Forall_forall _ _) Hextra). }
  rewrite (resolve_absolute cwd _ i); [| | done | done].
  - cbn [pathlib.tail]. f_equal.
    rewrite norm_comps_app, (norm_comps_proper i (common ++ extra))
      by (apply Forall_app; by split).
    cbn [rev app]. rewrite rev_app_distr, norm_comps_dots by done.
    rewrite norm_comps_proper by done. by rewrite rev_involutive.
  - split; [exists i; by split; [lia |] |]. cbn [pathlib.tail].
    apply Forall_app. split; [| by destruct Hwf].
    apply proper_clean, Forall_app. by split.
Qed.

Lemma joinpath_well_formed p key : well_formed (pathlib.joinpath p key).
Proof. apply Path_well_formed. Qed.

(** A resolved path: absolute, with proper components. *)
Lemma resolve_shape cwd p :
  posixpath.isabs cwd = true → well_formed p →
  ∃ i t, 0 < i ≤ 2 ∧ Forall proper t
         ∧ pathlib.resolve cwd p = mkPath (posixpath.slashes i) t.
Proof.
  intros Hcwd Hp. pose proof Hp as [(i & Hi & Hroot) Htail].
  pose proof (isabs_positive _ Hcwd) as Hpos.
  pose proof (initial_slashes_le cwd) as Hle.
  destruct i as [| i].
  - exists (posixpath.initial_slashes cwd),
      (posixpath.norm_comps (posixpath.initial_slashes cwd)
         (comps_of cwd ++ pathlib.tail p) []).
    split; [done |]. split; [| by apply resolve_relative].
    apply norm_comps_keeps_proper; [lia | | done].
    apply Forall_app. split; [apply comps_of_clean | done].
  - exists (S i), (posixpath.norm_comps (S i) (pathlib.tail p) []).
    split; [lia |]. split; [| apply resolve_absolute; [done | lia | done]].
    by apply norm_comps_keeps_proper.
Qed.

(** C2. For the absolute path [N] of a notebook and two target roots
    from which [relative_to] with [walk_up] gives a relative path:
    joining each relative path to its own root and resolving the result
    gives [N] back, for both. *)
Theorem link_target_round_trip (cwd docname P : string)
  (configured1 configured2 : option string) (target1 target2 : PurePath) :
  posixpath.isabs cwd = true →
  let N := notebook_abs_path cwd docname P in
  link_target cwd configured1 N = Some target1 →
  link_target cwd configured2 N = Some target2 →
  pathlib.resolve cwd
    (pathlib.joinpath (target_root cwd configured1) (pathlib.fspath target1))
  = N
  ∧ pathlib.resolve cwd
      (pathlib.joinpath (target_root cwd configured2)
         (pathlib.fspath target2))
    = N.
Proof.
  intros Hcwd N H1 H2. unfold link_target in *.
  destruct (resolve_shape cwd
              (pathlib.joinpath (pathlib.parent (pathlib.Path docname)) P)
              Hcwd (joinpath_well_formed _ _))
    as (i & t & Hi & Ht & HN).
  change (pathlib.resolve cwd _) with N in HN. rewrite HN in *.
  assert (Hroot : ∀ c, well_formed (target_root cwd c)).
  { intros c. unfold target_root. repeat case_match; apply Path_well_formed. }
  split; by apply relative_to_round_trip.
Qed.

(** ** Sources and destinations of the media *)

Lemma join_empty_l b : posixpath.join "" b = b.
Proof. unfold posixpath.join. by destruct (Str.startswith_sep b). Qed.

Lemma isabs_append a b :
  posixpath.isabs a = true → posixpath.isabs (a +:+ b) = true.
Proof. by destruct a. Qed.

(** Where the entry is joined once: the link file is in the working
    directory, or is given by an absolute path. *)
Lemma media_src_path_joined_once source_dir entry :
  source_dir = "" ∨ posixpath.isabs source_dir = true →
  posixpath.isabs entry = false →
  media_src_path source_dir entry
  = posixpath.normpath (posixpath.join source_dir entry).
Proof.
  intros Hdir Hentry. unfold media_src_path. rewrite Hentry.
  destruct Hdir as [-> | Hdir]; [by rewrite !join_empty_l |].
  rewrite (join_absolute source_dir); [done |].
  unfold posixpath.join. unfold posixpath.isabs in Hentry. rewrite Hentry.
  destruct (_ || _); by apply isabs_append.
Qed.

Lemma common_len_app p a b :
  posixpath.common_len (p ++ a) (p ++ b)
  = length p + posixpath.common_len a b.
Proof.
  induction p as [| x p IH]; [done |]. cbn [app posixpath.common_len length].
  unfold Str.eqb. rewrite bool_decide_eq_true_2 by done. by rewrite IH.
Qed.

(** C5, as the code has it.  The notebook is the file [f] in the
    directory with the components [c ++ u], the source of the entry has
    the components [c ++ q], and the two part after [c]: the offset of
    the source from the directory of the notebook is [length u] steps up
    and then [q], and the destination is this offset applied from
    [source_dir], the directory of the link file. *)
Theorem media_destination_offset (cwd source_dir nb_path src_path : string)
  (c u q : list string) (f : string) :
  Str.split (posixpath.abspath cwd nb_path) = "" :: c ++ u ++ [f] →
  Str.split (posixpath.abspath cwd src_path) = "" :: c ++ q →
  c ≠ [] →
  posixpath.common_len (u ++ [f]) q = 0 →
  media_dest_path cwd source_dir nb_path src_path
  = posixpath.normpath
      (posixpath.join source_dir (Str.join (repeat ".." (length u) ++ q))).
Proof.
  intros Hnb Hsrc Hc Hdiverge. unfold media_dest_path, docutils.relative_path.
  cbn [default from_option id]. rewrite Hnb, Hsrc.
  destruct c as [| c1 c]; [done |]. cbn [take app].
  rewrite bool_decide_eq_true_2 by done.
  change ("" :: c1 :: c ++ ?x) with (("" :: c1 :: c) ++ x).
  rewrite common_len_app, Hdiverge, Nat.add_0_r.
  rewrite !drop_app_length, length_app. cbn [length].
  by replace (length u + 1 - 1) with (length u) by lia.
Qed.


Lemma link_target_round_trip_witness :
  let N := notebook_abs_path "/project" "docs/a/b"
             "../../notebooks/demo.ipynb" in
  let target1 := mkPath "" ["notebooks"; "demo.ipynb"] in
  let target2 := mkPath "" [".."; ".."; "notebooks"; "demo.ipynb"] in
  posixpath.isabs "/project" = true
  ∧ link_target "/project" None N = Some target1
  ∧ link_target "/project" (Some "/project/docs/build") N = Some target2
  ∧ pathlib.resolve "/project"
      (pathlib.joinpath (target_root "/project" None)
         (pathlib.fspath target1)) = N
  ∧ pathlib.resolve "/project"
      (pathlib.joinpath (target_root "/project" (Some "/project/docs/build"))
         (pathlib.fspath target2)) = N.
Proof.
  cbv zeta. split; [reflexivity |].
  split; [vm_compute; reflexivity |]. split; [vm_compute; reflexivity |].
  apply (link_target_round_trip "/project" "docs/a/b"
           "../../notebooks/demo.ipynb" None (Some "/project/docs/build"));
    vm_compute; reflexivity.
Defined.

(** C4. The entry [img/fig.png] of the link file [docs/a/b] is joined
    to the directory [docs/a] twice: the source is
    [docs/a/docs/a/img/fig.png], where joining once gives
    [docs/a/img/fig.png]. *)
Theorem media_source_joined_twice :
  posixpath.dirname "docs/a/b" = "docs/a"
  ∧ media_src_path (posixpath.dirname "docs/a/b") "img/fig.png"
    = "docs/a/docs/a/img/fig.png"
  ∧ posixpath.normpath (posixpath.join "docs/a" "img/fig.png")
    = "docs/a/img/fig.png"
  ∧ media_src_path (posixpath.dirname "docs/a/b") "/media/fig.png"
    = "/media/fig.png".
Proof. split_and!; vm_compute; reflexivity. Qed.

Lemma media_destination_offset_witness :
  Str.split (posixpath.abspath "/project" "notebooks/demo.ipynb")
  = "" :: ["project"; "notebooks"] ++ [] ++ ["demo.ipynb"]
  ∧ Str.split (posixpath.abspath "/project" "/project/notebooks/img")
    = "" :: ["project"; "notebooks"] ++ ["img"]
  ∧ media_dest_path "/project" "docs/a" "notebooks/demo.ipynb"
      "/project/notebooks/img"
    = posixpath.normpath (posixpath.join "docs/a" "img").
Proof.
  split; [vm_compute; reflexivity |]. split; [vm_compute; reflexivity |].
  apply (media_destination_offset "/project" "docs/a" "notebooks/demo.ipynb"
           "/project/notebooks/img" ["project"; "notebooks"] [] ["img"]
           "demo.ipynb");
    [vm_compute; reflexivity | vm_compute; reflexivity | discriminate
    | vm_compute; reflexivity].
Defined.

(** C5 does not hold as stated.  For the link file [docs/a/b], the
    notebook [notebooks/demo.ipynb] and the entry
    [/project/notebooks/img], the destination is [docs/a/img], in the
    directory of the link file: the offset [img] that the source has
    from the directory of the notebook, applied from [docs/a].  The
    offset of the entry from [docs/a] applied from the directory of the
    notebook would be [/notebooks/img]. *)
Lemma media_destination_next_to_link_file :
  media_dest_path "/project" "docs/a" "notebooks/demo.ipynb"
    "/project/notebooks/img" = "docs/a/img"
  ∧ media_dest_path_from_notebook "/project" "docs/a" "notebooks/demo.ipynb"
      "/project/notebooks/img" = Some "/notebooks/img"
  ∧ media_dest_path "/project/docs" "" "../notebooks/demo.ipynb"
      "../notebooks/img" = "img"
  ∧ media_dest_path_from_notebook "/project/docs" ""
      "../notebooks/demo.ipynb" "../notebooks/img"
    = Some "/project/notebooks/img".
Proof. split_and!; vm_compute; reflexivity. Qed.

(** * Further properties *)

(** ** What every call keeps

    The lemmas go through the functions of the module once, for any
    relation that the writes keep. *)

Lemma getcwd_create files comps new files' :
  os.create files comps new = inr files' → os.getcwd files' = os.getcwd files.
Proof. unfold os.create. intros H. repeat case_match; simplify_eq; reflexivity. Qed.

Lemma getcwd_mkdir files path files' :
  os.mkdir files path = inr files' → os.getcwd files' = os.getcwd files.
Proof.
  unfold os.mkdir. intros H.
  repeat case_match; simplify_eq; eapply getcwd_create; eassumption.
Qed.

Lemma getcwd_makedirs_loop fuel files name files' :
  os.makedirs_loop fuel files name = inr files' →
  os.getcwd files' = os.getcwd files.
Proof.
  revert files name files'. induction fuel as [| fuel IH]; intros files name files'.
  - done.
  - cbn [os.makedirs_loop]. intros H.
    repeat case_match; simplify_eq;
      repeat match goal with
      | H : os.mkdir _ _ = inr _ |- _ => apply getcwd_mkdir in H
      | H : os.makedirs_loop _ _ _ = inr _ |- _ => apply IH in H
      end; congruence.
Qed.

Section CopyInvariant.

Variable R : State → State → Prop.
Hypothesis HR : copy_invariant R.

Lemma keeps_ret {A} (a : A) : keeps R (mret a).
Proof. intros st. apply (invariant_refl R HR). Qed.

Lemma keeps_raise {A} e : keeps R (raise e : M A).
Proof. intros st. apply (invariant_refl R HR). Qed.

Lemma keeps_out_of_fuel {A} : keeps R (out_of_fuel : M A).
Proof. intros st. apply (invariant_refl R HR). Qed.

Lemma keeps_gets {A} (f : State → A) : keeps R (gets f).
Proof. intros st. apply (invariant_refl R HR). Qed.

Lemma keeps_syscall {A} (r : OSErrorKind + A) : keeps R (syscall r).
Proof. destruct r; intros st; apply (invariant_refl R HR). Qed.

Lemma keeps_bind {A B} (m : M A) (k : A → M B) :
  keeps R m → (∀ a, keeps R (k a)) → keeps R (m ≫= k).
Proof.
  intros Hm Hk st. rewrite bind_unfold. specialize (Hm st).
  destruct (m st) as [[a | e |] st1]; [| done | done].
  exact ((invariant_trans R HR) _ _ _ Hm (Hk a st1)).
Qed.

Lemma keeps_warning w : keeps R (warning w).
Proof. intros st. apply (invariant_warning R HR). Qed.

Lemma keeps_register_dependency path : keeps R (register_dependency path).
Proof. intros st. apply (invariant_register R HR). Qed.

Lemma keeps_copy_file src dest : keeps R (copy_file src dest).
Proof.
  intros st. rewrite copy_file_run.
  destruct (shutil.copy (fs st) src dest) as [e | files'] eqn:Hcopy;
    cbn [snd]; [apply (invariant_warning R HR) |].
  eapply (invariant_trans R HR); [apply ((invariant_copy R HR) st src dest files' Hcopy) |].
  apply ((invariant_register R HR) src (set_fs files' st)).
Qed.

Lemma keeps_copy_filenames root dst_root filenames :
  keeps R (copy_filenames root dst_root filenames).
Proof.
  induction filenames as [| filename filenames IH]; cbn [copy_filenames].
  - apply keeps_ret.
  - apply keeps_bind; [apply keeps_gets | intros files].
    apply keeps_bind; [apply keeps_copy_file | intros _; exact IH].
Qed.

Lemma keeps_copy_directory src dest root filenames :
  keeps R (copy_directory src dest root filenames).
Proof.
  intros st. unfold copy_directory. rewrite bind_gets.
  destruct (posixpath.relpath _ root src) as [rel |]; [| apply (invariant_refl R HR)].
  rewrite bind_unfold. destruct (_ && _).
  - rewrite bind_unfold.
    destruct (os.makedirs (fs st) (posixpath.join dest rel))
      as [e | files'] eqn:Hmk; [apply (invariant_refl R HR) |].
    cbn [syscall]. rewrite ret_run. unfold modify.
    eapply (invariant_trans R HR); [| apply keeps_copy_filenames].
    exact ((invariant_makedirs R HR) st _ files' Hmk).
  - rewrite ret_run. apply keeps_copy_filenames.
Qed.

Lemma keeps_walk fuel stack src dest : keeps R (walk fuel stack src dest).
Proof.
  revert stack. induction fuel as [| fuel IH]; intros [| top stack] st;
    cbn [walk]; try apply (invariant_refl R HR).
  rewrite bind_gets.
  destruct (os.scandir (fs st) top) as [e | [dirs nondirs]]; [apply IH |].
  apply keeps_bind; [apply keeps_copy_directory | intros _; apply IH].
Qed.

Lemma keeps_copy_and_register_files fuel src dest :
  keeps R (copy_and_register_files fuel src dest).
Proof.
  intros st. unfold copy_and_register_files. rewrite bind_gets.
  destruct (os.path_isdir (fs st) src);
    [apply keeps_walk | apply keeps_copy_file].
Qed.

End CopyInvariant.

Section Invariant.

Variable R : State → State → Prop.
Hypothesis HR : invariant R.

Lemma keeps_note_reread : keeps R note_reread.
Proof. intros st. apply (invariant_reread R HR). Qed.

Lemma keeps_media_entry fuel source_file nb_path entry any_dirs :
  keeps R (media_entry fuel source_file nb_path entry any_dirs).
Proof.
  unfold media_entry.
  apply (keeps_bind R (invariant_copying R HR)); [destruct entry; first [apply (keeps_ret R (invariant_copying R HR)) | apply (keeps_raise R (invariant_copying R HR))] |].
  intros p st. rewrite bind_gets. revert st.
  apply (keeps_bind R (invariant_copying R HR)).
  - intros st. destruct (os.path_exists _ _).
    + apply (keeps_bind R (invariant_copying R HR));
        [apply (keeps_copy_and_register_files R (invariant_copying R HR)) | intros _; apply (keeps_ret R (invariant_copying R HR))].
    + apply (keeps_bind R (invariant_copying R HR)); [apply (keeps_warning R (invariant_copying R HR)) | intros _; apply (keeps_ret R (invariant_copying R HR))].
  - intros a. apply (keeps_bind R (invariant_copying R HR)); [| intros _; apply (keeps_ret R (invariant_copying R HR))].
    destruct a; [apply keeps_note_reread | apply (keeps_ret R (invariant_copying R HR))].
Qed.

Lemma keeps_media_loop fuel source_file nb_path entries any_dirs :
  keeps R (media_loop fuel source_file nb_path entries any_dirs).
Proof.
  revert any_dirs.
  induction entries as [| entry entries IH]; intros any_dirs;
    cbn [media_loop]; [apply (keeps_ret R (invariant_copying R HR)) |].
  apply (keeps_bind R (invariant_copying R HR)); [apply keeps_media_entry | intros a; apply IH].
Qed.

Lemma keeps_collect_extra_media fuel extra_media source_file nb_path :
  keeps R (collect_extra_media fuel extra_media source_file nb_path).
Proof.
  unfold collect_extra_media. apply (keeps_bind R (invariant_copying R HR)).
  { destruct (negb _); [apply (keeps_warning R (invariant_copying R HR)) | apply (keeps_ret R (invariant_copying R HR))]. }
  intros _. apply (keeps_bind R (invariant_copying R HR)).
  { destruct extra_media; first [apply (keeps_ret R (invariant_copying R HR)) | apply (keeps_raise R (invariant_copying R HR))]. }
  intros entries.
  apply (keeps_bind R (invariant_copying R HR)); [apply keeps_media_loop | intros _; apply (keeps_ret R (invariant_copying R HR))].
Qed.

Lemma keeps_record_link_target cwd abs_path :
  keeps R (record_link_target cwd abs_path).
Proof.
  intros st. unfold record_link_target. rewrite bind_gets.
  destruct (link_target cwd _ abs_path); mstep;
    [apply (invariant_target R HR) | apply (invariant_refl R (invariant_copying R HR))].
Qed.

Lemma keeps_read_notebook name path : keeps R (read_notebook name path).
Proof.
  intros st. unfold read_notebook. rewrite bind_gets.
  destruct (os.read_file _ _); apply (invariant_refl R (invariant_copying R HR)).
Qed.

Lemma keeps_parse json_loads fuel text :
  keeps R (parse json_loads fuel text).
Proof.
  unfold parse. apply (keeps_bind R (invariant_copying R HR)).
  { destruct (json_loads text); [apply (keeps_raise R (invariant_copying R HR)) | apply (keeps_ret R (invariant_copying R HR))]. }
  intros link st. rewrite !bind_gets.
  generalize (docname st), (os.getcwd (fs st)). intros name cwd. revert st.
  apply (keeps_bind R (invariant_copying R HR)).
  { destruct link; cbn [subscript]; try apply (keeps_raise R (invariant_copying R HR)).
    destruct (dict_get _ _); [apply (keeps_ret R (invariant_copying R HR)) | apply (keeps_raise R (invariant_copying R HR))]. }
  intros key. apply (keeps_bind R (invariant_copying R HR)).
  { destruct key; first [apply (keeps_ret R (invariant_copying R HR)) | apply (keeps_raise R (invariant_copying R HR))]. }
  intros p st. revert st. apply (keeps_bind R (invariant_copying R HR)).
  { intros st. destruct (truthy _);
      [apply keeps_collect_extra_media | apply (invariant_refl R (invariant_copying R HR))]. }
  intros _ st. revert st.
  apply (keeps_bind R (invariant_copying R HR)); [apply (keeps_register_dependency R (invariant_copying R HR)) | intros _].
  apply (keeps_bind R (invariant_copying R HR)); [apply keeps_record_link_target | intros _].
  apply (keeps_bind R (invariant_copying R HR)); [intros st; apply (invariant_format R HR) | intros _].
  apply keeps_read_notebook.
Qed.

End Invariant.

Lemma keeps_media_stage R fuel items p :
  invariant R → keeps R (media_stage fuel items p).
Proof.
  intros HR st. unfold media_stage. cbv zeta.
  destruct (truthy _); [by apply keeps_collect_extra_media |].
  apply (invariant_refl R (invariant_copying R HR)).
Qed.

(** ** The records of the document *)

Lemma DependencyList_add_prefix path l : l `prefix_of` DependencyList_add path l.
Proof.
  unfold DependencyList_add. case_bool_decide; [done |]. by apply prefix_app_r.
Qed.

Lemma grows_invariant : invariant grows.
Proof.
  split; [split |..]; unfold grows.
  - intros st. by split_and!.
  - intros st1 st2 st3 (Hn1 & Hr1 & Hd1 & Hq1 & Hw1) (Hn2 & Hr2 & Hd2 & Hq2 & Hw2).
    split_and!; [congruence | by etrans | by etrans | by etrans | by etrans].
  - intros st src dest files' _. by split_and!.
  - intros st name files' _. by split_and!.
  - intros path st. rewrite register_dependency_run. cbn [snd].
    rewrite dependency_set_note. split_and!; try done.
    + apply DependencyList_add_prefix.
    + apply union_subseteq_r.
  - intros w st. split_and!; try done. by apply prefix_app_r.
  - intros st. split_and!; try done. apply union_subseteq_r.
  - intros target st. by split_and!.
  - intros st. by split_and!.
Qed.

(** X1. Whatever the link file is and however [parse] ends (it
    returns, it raises, the media cannot all be scanned), the records
    of the document have only grown: [record_dependencies] has its
    former paths at its head, in their order; no dependency, no mark
    for rereading and no warning is lost; the document is the same. *)
Theorem parse_only_adds (json_loads : string → string + json) (fuel : nat)
  (text : string) (st : State) :
  let st' := (parse json_loads fuel text st).2 in
  docname st' = docname st
  ∧ record_dependencies st `prefix_of` record_dependencies st'
  ∧ dependency_set st ⊆ dependency_set st'
  ∧ reread_always st ⊆ reread_always st'
  ∧ warnings st `prefix_of` warnings st'.
Proof. exact (keeps_parse grows grows_invariant json_loads fuel text st). Qed.

Lemma same_elsewhere_invariant : invariant same_elsewhere.
Proof.
  split; [split |..]; unfold same_elsewhere.
  - intros st. by split_and!.
  - intros st1 st2 st3 (Hn1 & Hd1 & Hm1 & Hq1 & Hk1) (Hn2 & Hd2 & Hm2 & Hq2 & Hk2).
    rewrite Hn1 in *. split_and!.
    + congruence.
    + intros d Hd. by rewrite Hd2, Hd1.
    + intros d Hd. by rewrite Hm2, Hm1.
    + intros d Hd ?. by apply Hq1, Hq2.
    + intros key Hkey. by rewrite Hk2, Hk1.
  - intros st src dest files' _. by split_and!.
  - intros st name files' _. by split_and!.
  - intros path st. rewrite register_dependency_run. cbn [snd].
    split_and!; try done.
    intros d Hd. cbn. by rewrite lookup_insert_ne.
  - intros w st. by split_and!.
  - intros st. split_and!; try done.
    intros d Hd. cbn. rewrite elem_of_union, elem_of_singleton. by intros [? | ?].
  - intros target st. split_and!; try done.
    + intros d Hd. cbn. by rewrite lookup_insert_ne.
    + intros key Hkey. cbn. rewrite lookup_insert_eq. cbn.
      by rewrite lookup_insert_ne.
  - intros st. by split_and!.
Qed.

(** X2. [parse] writes only to the records of the document it reads:
    the dependencies, the metadata and the marks for rereading of every
    other document are as before, and in the metadata of the document
    itself only the key [nbsphinx-link-target] is written. *)
Theorem parse_keeps_other_documents (json_loads : string → string + json)
  (fuel : nat) (text : string) (st : State) :
  let st' := (parse json_loads fuel text st).2 in
  docname st' = docname st
  ∧ (∀ d, d ≠ docname st → dependencies st' !! d = dependencies st !! d)
  ∧ (∀ d, d ≠ docname st → metadata st' !! d = metadata st !! d)
  ∧ (∀ d, d ≠ docname st → d ∈ reread_always st' → d ∈ reread_always st)
  ∧ (∀ key, key ≠ "nbsphinx-link-target" →
       default ∅ (metadata st' !! docname st) !! key
       = default ∅ (metadata st !! docname st) !! key).
Proof.
  exact (keeps_parse same_elsewhere same_elsewhere_invariant json_loads fuel
           text st).
Qed.

Lemma same_configuration_same st st' :
  os.getcwd (fs st') = os.getcwd (fs st) →
  nbsphinx_link_target_root st' = nbsphinx_link_target_root st →
  nbsphinx_custom_formats st' = nbsphinx_custom_formats st →
  same_configuration st st'.
Proof.
  intros Hc Hr Hf. unfold same_configuration. split_and!; try done.
  rewrite Hf. destruct (nbsphinx_custom_formats st) as [f |]; [| done].
  by exists f.
Qed.

Lemma same_configuration_invariant : invariant same_configuration.
Proof.
  split; [split |..]; try (intros; by apply same_configuration_same).
  - unfold same_configuration.
    intros st1 st2 st3 (Hc1 & Hr1 & Hf1) (Hc2 & Hr2 & Hf2).
    split_and!; [congruence | congruence |].
    destruct (nbsphinx_custom_formats st1) as [f1 |].
    + destruct Hf1 as (f2 & Hst2 & Hsub1 & Hkeys1). rewrite Hst2 in Hf2.
      destruct Hf2 as (f3 & Hst3 & Hsub2 & Hkeys2).
      exists f3. split_and!; [done | by etrans |].
      intros key Hkey. by rewrite Hkeys2, Hkeys1.
    + by rewrite Hf1 in Hf2.
  - intros st src dest files' Hcopy.
    apply same_configuration_same; [| done | done].
    exact (getcwd_copy _ _ _ _ Hcopy).
  - intros st name files' Hmk.
    apply same_configuration_same; [| done | done].
    exact (getcwd_makedirs_loop _ _ _ _ Hmk).
  - intros st. unfold same_configuration. split_and!; try done.
    cbn. destruct (nbsphinx_custom_formats st) as [f |]; [| done].
    cbn. eexists. split; [done |]. unfold setdefault.
    destruct (f !! ".nblink") eqn:Hf; [done |]. split.
    + by apply insert_subseteq.
    + intros key Hkey. by rewrite lookup_insert_ne.
Qed.

(** X3. [parse] changes neither the working directory nor the
    configured target root, and of [nbsphinx_custom_formats] it keeps
    every entry: where the configuration has the value, the format of
    [.nblink] is added when there is none, a format configured for
    [.nblink] is not replaced, and no other key is touched; where the
    configuration has no such value, none is made. *)
Theorem parse_keeps_configuration (json_loads : string → string + json)
  (fuel : nat) (text : string) (st : State) :
  let st' := (parse json_loads fuel text st).2 in
  os.getcwd (fs st') = os.getcwd (fs st)
  ∧ nbsphinx_link_target_root st' = nbsphinx_link_target_root st
  ∧ match nbsphinx_custom_formats st with
    | None => nbsphinx_custom_formats st' = None
    | Some formats =>
        ∃ formats', nbsphinx_custom_formats st' = Some formats'
                    ∧ formats ⊆ formats'
                    ∧ ∀ key, key ≠ ".nblink" → formats' !! key = formats !! key
    end.
Proof.
  exact (keeps_parse same_configuration same_configuration_invariant
           json_loads fuel text st).
Qed.

Lemma list_to_set_DependencyList_add path l :
  list_to_set (DependencyList_add path l)
  =@{gset string} list_to_set l ∪ {[path]}.
Proof.
  unfold DependencyList_add. case_bool_decide as Hin.
  - apply set_eq. intros x. rewrite elem_of_union, elem_of_singleton.
    rewrite elem_of_list_to_set. split; [by left |]. by intros [? | ->].
  - rewrite list_to_set_app_L. cbn. by rewrite union_empty_r_L.
Qed.

Lemma registered_alike_same st st' :
  docname st' = docname st →
  record_dependencies st' = record_dependencies st →
  dependencies st' = dependencies st →
  registered_alike st st'.
Proof.
  intros Hn Hr Hd. split; [done |]. exists ∅.
  unfold dependency_set. by rewrite Hr, Hd, Hn, !union_empty_r_L.
Qed.

Lemma registered_alike_invariant : invariant registered_alike.
Proof.
  split; [split |..]; try (intros; by apply registered_alike_same).
  - intros st1 st2 st3 (Hn1 & a1 & Hr1 & Hd1) (Hn2 & a2 & Hr2 & Hd2).
    split; [congruence |]. exists (a1 ∪ a2).
    rewrite Hr2, Hr1, Hd2, Hd1, !assoc_L by apply _. done.
  - intros path st. rewrite register_dependency_run. cbn [snd].
    split; [done |]. exists {[path]}. rewrite dependency_set_note.
    split; [apply list_to_set_DependencyList_add | apply (comm_L _)].
Qed.

(** X4. The two records of dependencies are written together: the
    paths [parse] adds to [record_dependencies] of the document are the
    paths it adds to the dependencies of the document in the
    environment. *)
Theorem parse_registers_alike (json_loads : string → string + json)
  (fuel : nat) (text : string) (st : State) :
  let st' := (parse json_loads fuel text st).2 in
  ∃ added : gset string,
    list_to_set (record_dependencies st')
    =@{gset string} list_to_set (record_dependencies st) ∪ added
    ∧ dependency_set st' = dependency_set st ∪ added.
Proof.
  exact (proj2 (keeps_parse registered_alike registered_alike_invariant
                  json_loads fuel text st)).
Qed.

Lemma DependencyList_add_twice path l :
  DependencyList_add path (DependencyList_add path l) = DependencyList_add path l.
Proof.
  unfold DependencyList_add at 1. rewrite bool_decide_eq_true_2; [done |].
  apply DependencyList_add_elem. by left.
Qed.

(** X5. A registered path is in both records, and registering it a
    second time changes nothing: the list does not take a path twice and
    the dependencies of the document are a set. *)
Theorem register_dependency_idempotent (path : string) (st : State) :
  let st' := (register_dependency path st).2 in
  path ∈ record_dependencies st'
  ∧ path ∈ dependency_set st'
  ∧ (register_dependency path;; register_dependency path) st
    = register_dependency path st.
Proof.
  cbv zeta. split_and!.
  - rewrite register_dependency_run. cbn. apply DependencyList_add_elem. by left.
  - rewrite register_dependency_run. cbn [snd]. rewrite dependency_set_note.
    apply elem_of_union_l, elem_of_singleton. done.
  - change ((register_dependency path;; register_dependency path) st)
      with (register_dependency path (register_dependency path st).2).
    rewrite !register_dependency_run. cbn [snd]. f_equal.
    unfold note_dependency, set_dependencies, set_record_dependencies. cbn.
    rewrite DependencyList_add_twice, lookup_insert_eq, insert_insert_eq. cbn.
    by rewrite (assoc_L (∪)), (idemp_L (∪) {[path]}).
Qed.

(** ** What is raised *)

Lemma raises_only_bind {A B} P (m : M A) (k : A → M B) :
  raises_only P m → (∀ a, raises_only P (k a)) → raises_only P (m ≫= k).
Proof.
  intros Hm Hk st e. rewrite bind_unfold. specialize (Hm st).
  destruct (m st) as [[a | e' |] st1]; cbn in *; [apply Hk | | done].
  intros [= <-]. by apply Hm.
Qed.

Lemma raises_only_gets_bind {A B} P (f : State → A) (k : A → M B) :
  (∀ a, raises_only P (k a)) → raises_only P (gets f ≫= k).
Proof. intros Hk st e. rewrite bind_gets. apply Hk. Qed.

Lemma raises_only_Done {A} P (m : M A) :
  (∀ st, ∃ a, (m st).1 = Done a) → raises_only P m.
Proof. intros Hm st e He. destruct (Hm st) as [a Ha]. congruence. Qed.

Lemma raises_only_copy_file P src dest : raises_only P (copy_file src dest).
Proof.
  apply raises_only_Done. intros st. exists tt. rewrite copy_file_run.
  by destruct (shutil.copy _ _ _).
Qed.

Lemma raises_only_copy_filenames P root dst_root filenames :
  raises_only P (copy_filenames root dst_root filenames).
Proof.
  induction filenames as [| filename filenames IH]; cbn [copy_filenames].
  - by intros st e.
  - apply raises_only_gets_bind. intros files.
    apply raises_only_bind; [apply raises_only_copy_file | by intros _].
Qed.

Lemma relpath_nonempty cwd path start :
  path ≠ "" → posixpath.relpath cwd path start ≠ None.
Proof.
  intros Hpath. unfold posixpath.relpath, Str.eqb.
  rewrite bool_decide_eq_false_2 by done. cbv zeta. by case_match.
Qed.

Lemma join_nonempty a b : a ≠ "" → posixpath.join a b ≠ "".
Proof.
  intros Ha. unfold posixpath.join.
  destruct b as [| c b]; cbn [Str.startswith_sep].
  - destruct (_ || _); rewrite ?append_nil_r; by destruct a.
  - destruct (Str.is_sep c); [done |]. destruct (_ || _); by destruct a.
Qed.

Lemma raises_only_copy_directory src dest root filenames :
  root ≠ "" → raises_only is_OSError (copy_directory src dest root filenames).
Proof.
  intros Hroot. unfold copy_directory.
  apply raises_only_gets_bind. intros files.
  destruct (posixpath.relpath _ root src) as [rel |] eqn:Hrel;
    [| by apply relpath_nonempty in Hrel].
  apply raises_only_bind; [| intros _; apply raises_only_copy_filenames].
  destruct (_ && _); [| by intros st e].
  apply raises_only_bind; [| by intros files' st e].
  intros st e. destruct (os.makedirs _ _) as [kind |]; [| done].
  cbn. intros [= <-]. by exists kind.
Qed.

Lemma raises_only_walk fuel stack src dest :
  Forall (fun top => top ≠ "") stack →
  raises_only is_OSError (walk fuel stack src dest).
Proof.
  revert stack. induction fuel as [| fuel IH]; intros [| top stack] Hstack st e;
    cbn [walk]; try done.
  inversion Hstack as [| ? ? Htop Hstack']; subst. rewrite bind_gets.
  destruct (os.scandir (fs st) top) as [kind | [dirs nondirs]]; [by apply IH |].
  revert st e. apply raises_only_bind; [by apply raises_only_copy_directory |].
  intros _. apply IH, Forall_app. split; [| done].
  apply Forall_forall. intros x (d & -> & _)%list_elem_of_fmap.
  by apply join_nonempty.
Qed.

Lemma path_isdir_nonempty files path :
  os.path_isdir files path = true → path ≠ "".
Proof. by intros H ->. Qed.

(** X6. [copy_and_register_files] raises only for a source that is a
    directory, and then an [OSError], that of [os.makedirs]: for a
    single file every [OSError] of the copy is caught and logged, a
    directory that cannot be scanned is skipped, and [relpath] is never
    given an empty path. *)
Theorem copy_and_register_files_raises_OSError (fuel : nat)
  (src dest : string) (st : State) (e : Exception) :
  (copy_and_register_files fuel src dest st).1 = Raise e →
  os.path_isdir (fs st) src = true ∧ ∃ kind, e = OSError kind.
Proof.
  unfold copy_and_register_files. rewrite bind_gets.
  destruct (os.path_isdir (fs st) src) eqn:Hdir.
  - intros He. split; [done |].
    apply (raises_only_walk fuel [src] src dest) in He; [done |].
    constructor; [| done]. by apply path_isdir_nonempty in Hdir.
  - intros He. by apply (raises_only_copy_file (fun _ => False)) in He.
Qed.

Lemma copy_and_register_files_raises_OSError_witness :
  let st := Examples.fresh (Examples.project "/project") "docs/a/b" None in
  (copy_and_register_files 4 "notebooks/img" "notebooks/demo.ipynb/img" st).1
  = Raise (OSError ENOTDIR)
  ∧ os.path_isdir (fs st) "notebooks/img" = true
  ∧ ∃ kind, OSError ENOTDIR = OSError kind.
Proof.
  cbv zeta. split; [vm_compute; reflexivity |].
  apply (copy_and_register_files_raises_OSError 4 "notebooks/img"
           "notebooks/demo.ipynb/img"
           (Examples.fresh (Examples.project "/project") "docs/a/b" None)).
  vm_compute. reflexivity.
Defined.

Lemma media_entry_not_a_string fuel source_file nb_path entry any_dirs st :
  (∀ s, entry ≠ JStr s) →
  media_entry fuel source_file nb_path entry any_dirs st = (Raise TypeError, st).
Proof. intros Hentry. destruct entry; try done. by destruct (Hentry s). Qed.

(** X7. An entry of the list that is no string ends
    [collect_extra_media] with the [TypeError] of [os.path.isabs]: the
    entries before it have been processed, the state is the one they
    left, and the entries after it are not looked at. *)
Theorem entry_not_a_string_raises_TypeError (fuel : nat)
  (source_file nb_path : PurePath) (before : list string) (entry : json)
  (after : list json) (st reached : State) (any_dirs : bool) :
  (∀ s, entry ≠ JStr s) →
  media_loop fuel (pathlib.fspath source_file) (pathlib.fspath nb_path)
    (JStr <$> before) false st = (Done any_dirs, reached) →
  collect_extra_media fuel (JList ((JStr <$> before) ++ entry :: after))
    source_file nb_path st
  = (Raise TypeError, reached).
Proof.
  intros Hentry Hbefore.
  rewrite collect_extra_media_list, media_loop_app, bind_unfold, Hbefore.
  cbn [media_loop]. rewrite bind_unfold.
  by rewrite media_entry_not_a_string.
Qed.

Lemma entry_not_a_string_raises_TypeError_witness :
  let st := Examples.fresh (Examples.project "/project/docs") "index" None in
  let reached := (copy_file "../notebooks/a.png" "a.png" st).2 in
  (∀ s, JInt 5 ≠ JStr s)
  ∧ media_loop 4 "index" "../notebooks/demo.ipynb"
      [JStr "../notebooks/a.png"] false st = (Done false, reached)
  ∧ collect_extra_media 4
      (JList [JStr "../notebooks/a.png"; JInt 5; JStr "../notebooks/img"])
      (pathlib.Path "index") (pathlib.Path "../notebooks/demo.ipynb") st
    = (Raise TypeError, reached).
Proof.
  cbv zeta. split; [discriminate |]. split; [vm_compute; reflexivity |].
  apply (entry_not_a_string_raises_TypeError 4 (pathlib.Path "index")
           (pathlib.Path "../notebooks/demo.ipynb") ["../notebooks/a.png"]
           (JInt 5) [JStr "../notebooks/img"]
           (Examples.fresh (Examples.project "/project/docs") "index" None)
           _ false);
    [discriminate | vm_compute; reflexivity].
Defined.

(** ** The target root *)

Lemma notebook_abs_path_shape cwd docname P :
  posixpath.isabs cwd = true →
  ∃ i t, 0 < i ≤ 2 ∧ Forall proper t
         ∧ notebook_abs_path cwd docname P = mkPath (posixpath.slashes i) t.
Proof.
  intros Hcwd. apply resolve_shape; [done | apply joinpath_well_formed].
Qed.

Lemma relative_to_walk_roots p r other_rev step :
  pathlib.root p ≠ r → pathlib.relative_to_walk p r other_rev step = None.
Proof.
  intros Hroot. revert step.
  induction other_rev as [| name other_rev IH]; intros step;
    cbn [pathlib.relative_to_walk]; unfold pathlib.is_relative_to at 1;
    cbn [pathlib.root]; unfold Str.eqb at 1;
    rewrite (bool_decide_eq_false_2 _ Hroot); cbn [andb]; [done |].
  by destruct (Str.eqb name "..").
Qed.

Lemma link_target_relative_root cwd docname P r :
  posixpath.isabs cwd = true → r ≠ "" → posixpath.isabs r = false →
  link_target cwd (Some r) (notebook_abs_path cwd docname P) = None.
Proof.
  intros Hcwd Hr Hrel. unfold link_target, target_root, Str.eqb.
  rewrite bool_decide_eq_false_2 by done.
  destruct (notebook_abs_path_shape cwd docname P Hcwd)
    as (i & t & [Hpos Hle] & _ & ->).
  unfold pathlib.relative_to. apply relative_to_walk_roots.
  rewrite Path_root. cbn [pathlib.root].
  rewrite isabs_initial in Hrel. apply negb_false_iff, Nat.eqb_eq in Hrel.
  rewrite Hrel. destruct i; [lia | done].
Qed.

Lemma relative_to_walk_defined p r other_rev step :
  pathlib.root p = r → Forall (fun x => x ≠ "..") other_rev →
  is_Some (pathlib.relative_to_walk p r other_rev step).
Proof.
  intros Hroot Hother. revert step.
  induction Hother as [| name other_rev Hname Hother IH]; intros step;
    cbn [pathlib.relative_to_walk].
  - unfold pathlib.is_relative_to, Str.eqb. cbn.
    by rewrite bool_decide_eq_true_2.
  - destruct (pathlib.is_relative_to _ _); [done |].
    unfold Str.eqb. by rewrite bool_decide_eq_false_2.
Qed.

Lemma parent_root p : pathlib.root (pathlib.parent p) = pathlib.root p.
Proof. unfold pathlib.parent. by destruct (pathlib.tail p). Qed.

Lemma notebook_abs_path_root cwd docname P :
  posixpath.isabs docname = false → posixpath.isabs P = false →
  pathlib.root (notebook_abs_path cwd docname P)
  = pathlib.root (pathlib.Path cwd).
Proof.
  intros Hdoc HP. unfold notebook_abs_path.
  assert (HD : well_formed (pathlib.parent (pathlib.Path docname)))
    by apply parent_well_formed, Path_well_formed.
  rewrite joinpath_relative by done.
  rewrite resolve_relative.
  - cbn [pathlib.root]. by rewrite Path_root.
  - split; [apply HD |]. cbn [pathlib.tail]. apply Forall_app.
    split; [apply HD | apply comps_of_clean].
  - cbn [pathlib.root]. rewrite parent_root, Path_root.
    rewrite isabs_initial in Hdoc. apply negb_false_iff, Nat.eqb_eq in Hdoc.
    by rewrite Hdoc.
Qed.

(** X8. Line 192 does not raise for a target root that has the anchor
    of the working directory and no [..] among its components, as the
    working directory itself has when none is configured: for a link
    file and a notebook given by relative paths, [relative_to] with
    [walk_up] finds a path from the root to the notebook, also where
    the notebook is not below the root. *)
Theorem target_root_without_dots_defined (cwd docname P : string)
  (configured : option string) :
  posixpath.isabs docname = false →
  posixpath.isabs P = false →
  pathlib.root (target_root cwd configured) = pathlib.root (pathlib.Path cwd) →
  ".." ∉ pathlib.tail (target_root cwd configured) →
  is_Some (link_target cwd configured (notebook_abs_path cwd docname P)).
Proof.
  intros Hdoc HP Hroot Hdots. unfold link_target, pathlib.relative_to.
  apply relative_to_walk_defined.
  - by rewrite notebook_abs_path_root.
  - apply Forall_forall. intros x Hx ->. apply Hdots.
    apply list_elem_of_In in Hx. apply <- in_rev in Hx.
    by apply list_elem_of_In.
Qed.

Lemma target_root_without_dots_defined_witness :
  pathlib.root (target_root "/project" (Some "/srv/www")) = "/"
  ∧ pathlib.tail (target_root "/project" (Some "/srv/www")) = ["srv"; "www"]
  ∧ link_target "/project" (Some "/srv/www")
      (notebook_abs_path "/project" "docs/a/b" "../../notebooks/demo.ipynb")
    = Some (mkPath "" [".."; ".."; "project"; "notebooks"; "demo.ipynb"])
  ∧ is_Some (link_target "/project" (Some "/srv/www")
               (notebook_abs_path "/project" "docs/a/b"
                  "../../notebooks/demo.ipynb")).
Proof.
  split; [reflexivity |]. split; [vm_compute; reflexivity |].
  split; [vm_compute; reflexivity |].
  apply (target_root_without_dots_defined "/project" "docs/a/b"
           "../../notebooks/demo.ipynb" (Some "/srv/www"));
    [reflexivity | reflexivity | vm_compute; reflexivity |].
  vm_compute. intros H. by repeat (apply elem_of_cons in H as [H | H]; [discriminate |]);
    apply elem_of_nil in H.
Defined.

(** ** The stages of [parse] *)

(** Lines 177 to 182 either raise, and nothing has changed, or the link
    file is a [dict] with a string at [path]. *)
Lemma parse_descriptor_cases json_loads fuel text st :
  (∃ e, descriptor_error (json_loads text) = Some e
        ∧ parse json_loads fuel text st = (Raise e, st))
  ∨ (∃ items p, json_loads text = inr (JDict items)
                ∧ dict_get items "path" = Some (JStr p)).
Proof.
  unfold descriptor_error, parse.
  destruct (json_loads text) as [msg | link]; mstep;
    [left; by eexists |].
  destruct link as [| b | n | m x | s | l | items]; cbn [subscript];
    mstep; try (left; by eexists).
  destruct (dict_get items "path") as [[| b | n | m x | s | l | d] |]
    eqn:Hpath; mstep; cbn [json_fspath]; mstep; try (left; by eexists).
  right. by exists items, s.
Qed.

(** Lines 189 to 226: the notebook is registered, then the target is
    recorded unless [relative_to] raises, then the notebook is read. *)
Lemma parse_end_run cwd abs_path name path st :
  (register_dependency (pathlib.fspath path);;
   record_link_target cwd abs_path;;
   modify register_format;;
   read_notebook name path) st
  = let st1 := (register_dependency (pathlib.fspath path) st).2 in
    match link_target cwd (nbsphinx_link_target_root st) abs_path with
    | None => (Raise ValueError, st1)
    | Some target =>
        let st2 := register_format (set_link_target target st1) in
        match os.read_file (fs st) (pathlib.fspath path) with
        | inr rawtext => (Done rawtext, st2)
        | inl e => (Raise (NotebookError name e), st2)
        end
    end.
Proof.
  cbv zeta. rewrite bind_unfold, register_dependency_run.
  unfold record_link_target, read_notebook. mstep.
  cbn [nbsphinx_link_target_root note_dependency set_dependencies
       set_record_dependencies].
  destruct (link_target cwd _ abs_path); mstep; [| done].
  cbn [fs register_format set_custom_formats set_link_target set_metadata
       note_dependency set_dependencies set_record_dependencies].
  by destruct (os.read_file _ _).
Qed.

Lemma parse_stages json_loads fuel text st items p :
  json_loads text = inr (JDict items) →
  dict_get items "path" = Some (JStr p) →
  parse json_loads fuel text st
  = let cwd := os.getcwd (fs st) in
    let abs_path := notebook_abs_path cwd (docname st) p in
    let path := notebook_path cwd abs_path in
    (media_stage fuel items p;;
     register_dependency (pathlib.fspath path);;
     record_link_target cwd abs_path;;
     modify register_format;;
     read_notebook (docname st) path) st.
Proof.
  intros Hloads Hpath. rewrite (parse_link _ _ _ _ _ _ Hloads Hpath).
  cbv zeta. rewrite (bind_unfold (media_stage fuel items p)).
  unfold media_stage at 1. cbv zeta. rewrite bind_unfold. reflexivity.
Qed.

Section ParserStages.

Variable json_loads : string → string + json.

(** X9. With a configured target root that is a relative path, no link
    file is parsed: the absolute path of the notebook and the relative
    root have different anchors, [relative_to] raises [ValueError] at
    line 192, and [parse] never returns.  Where the link file is well
    formed and its media have been collected, this [ValueError] is
    what [parse] raises, after the notebook has been registered. *)
Theorem relative_target_root_raises_ValueError (fuel : nat) (text : string)
  (st : State) (r : string) :
  posixpath.isabs (os.getcwd (fs st)) = true →
  nbsphinx_link_target_root st = Some r →
  r ≠ "" →
  posixpath.isabs r = false →
  (∀ rawtext, (parse json_loads fuel text st).1 ≠ Done rawtext)
  ∧ ∀ items p st1,
      json_loads text = inr (JDict items) →
      dict_get items "path" = Some (JStr p) →
      media_stage fuel items p st = (Done tt, st1) →
      let cwd := os.getcwd (fs st) in
      let path := notebook_path cwd (notebook_abs_path cwd (docname st) p) in
      parse json_loads fuel text st
      = (Raise ValueError, (register_dependency (pathlib.fspath path) st1).2).
Proof.
  intros Hcwd Hroot Hr Hrel.
  assert (Hstage : ∀ items p st1,
            json_loads text = inr (JDict items) →
            dict_get items "path" = Some (JStr p) →
            media_stage fuel items p st = (Done tt, st1) →
            let cwd := os.getcwd (fs st) in
            let path := notebook_path cwd (notebook_abs_path cwd (docname st) p) in
            parse json_loads fuel text st
            = (Raise ValueError,
               (register_dependency (pathlib.fspath path) st1).2)).
  { intros items p st1 Hloads Hpath Hmedia. cbv zeta.
    rewrite (parse_stages _ _ _ _ _ _ Hloads Hpath). cbv zeta.
    rewrite bind_unfold, Hmedia, parse_end_run. cbv zeta.
    pose proof (keeps_media_stage _ fuel items p same_configuration_invariant st)
      as (_ & Hsame & _).
    rewrite Hmedia in Hsame. cbn [snd] in Hsame.
    by rewrite Hsame, Hroot, link_target_relative_root. }
  split; [| exact Hstage].
  intros rawtext Hdone.
  destruct (parse_descriptor_cases json_loads fuel text st)
    as [(e & _ & Hraise) | (items & p & Hloads & Hpath)].
  { by rewrite Hraise in Hdone. }
  destruct (media_stage fuel items p st) as [[[] | e |] st1] eqn:Hmedia.
  - by rewrite (Hstage _ _ _ Hloads Hpath Hmedia) in Hdone.
  - rewrite (parse_stages _ _ _ _ _ _ Hloads Hpath) in Hdone. cbv zeta in Hdone.
    by rewrite bind_unfold, Hmedia in Hdone.
  - rewrite (parse_stages _ _ _ _ _ _ Hloads Hpath) in Hdone. cbv zeta in Hdone.
    by rewrite bind_unfold, Hmedia in Hdone.
Qed.

(** X10. A link file whose notebook cannot be opened: once the media
    are collected (ending in [st1]) and the target is found, [parse]
    raises a [NotebookError] that names the document and carries the
    error of the file system, and by then the path of the notebook is
    registered in both records; the file system and the log are as the
    media left them. *)
Theorem unreadable_notebook_raises_NotebookError (fuel : nat) (text : string)
  (st st1 : State) (items : list (string * json)) (p : string)
  (target : PurePath) (e : OSErrorKind) :
  json_loads text = inr (JDict items) →
  dict_get items "path" = Some (JStr p) →
  media_stage fuel items p st = (Done tt, st1) →
  let cwd := os.getcwd (fs st) in
  let abs_path := notebook_abs_path cwd (docname st) p in
  let path := pathlib.fspath (notebook_path cwd abs_path) in
  link_target cwd (nbsphinx_link_target_root st) abs_path = Some target →
  os.read_file (fs st1) path = inl e →
  ∃ st',
    parse json_loads fuel text st = (Raise (NotebookError (docname st) e), st')
    ∧ fs st' = fs st1
    ∧ warnings st' = warnings st1
    ∧ record_dependencies st' = DependencyList_add path (record_dependencies st1)
    ∧ dependency_set st' = {[path]} ∪ dependency_set st1.
Proof.
  intros Hloads Hpath Hmedia cwd abs_path path Htarget Hread.
  rewrite (parse_stages _ _ _ _ _ _ Hloads Hpath). cbv zeta.
  fold cwd abs_path. rewrite bind_unfold, Hmedia, parse_end_run. cbv zeta.
  pose proof (keeps_media_stage _ fuel items p same_configuration_invariant st)
    as (_ & Hsame & _).
  rewrite Hmedia in Hsame. cbn [snd] in Hsame.
  rewrite Hsame, Htarget. fold path. rewrite Hread.
  eexists. split; [reflexivity |].
  rewrite register_dependency_run. cbn [snd].
  split_and!; try reflexivity.
  change (dependency_set (register_format (set_link_target target ?s)))
    with (dependency_set s).
  by rewrite dependency_set_note.
Qed.

(** X11. What holds when [parse] returns: the link file was a [dict]
    with a string [p] at [path]; the text returned is the content of
    the file at the path computed for the notebook, read in the file
    system the call leaves; this path is in both records of
    dependencies; and the metadata of the document hold, at
    [nbsphinx-link-target], the path of the notebook relative to the
    target root. *)
Theorem parse_returns_the_notebook (fuel : nat) (text rawtext : string)
  (st st' : State) :
  parse json_loads fuel text st = (Done rawtext, st') →
  ∃ items p target,
    json_loads text = inr (JDict items)
    ∧ dict_get items "path" = Some (JStr p)
    ∧ let cwd := os.getcwd (fs st) in
      let abs_path := notebook_abs_path cwd (docname st) p in
      let path := pathlib.fspath (notebook_path cwd abs_path) in
      os.read_file (fs st') path = inr rawtext
      ∧ path ∈ record_dependencies st'
      ∧ path ∈ dependency_set st'
      ∧ link_target cwd (nbsphinx_link_target_root st) abs_path = Some target
      ∧ default ∅ (metadata st' !! docname st) !! "nbsphinx-link-target"
        = Some target.
Proof.
  intros Hdone.
  destruct (parse_descriptor_cases json_loads fuel text st)
    as [(e & _ & Hraise) | (items & p & Hloads & Hpath)].
  { by rewrite Hraise in Hdone. }
  rewrite (parse_stages _ _ _ _ _ _ Hloads Hpath) in Hdone. cbv zeta in Hdone.
  apply bind_Done_inv in Hdone as ([] & st1 & Hmedia & Hdone).
  rewrite parse_end_run in Hdone. cbv zeta in Hdone.
  pose proof (keeps_media_stage _ fuel items p same_configuration_invariant st)
    as (_ & Hsame & _).
  pose proof (keeps_media_stage _ fuel items p grows_invariant st)
    as (Hname & _).
  rewrite Hmedia in Hsame, Hname. cbn [snd] in Hsame, Hname.
  rewrite Hsame in Hdone.
  destruct (link_target _ _ _) as [target |] eqn:Htarget; [| done].
  destruct (os.read_file (fs st1) _) as [kind | out] eqn:Hread; [done |].
  injection Hdone as <- <-.
  exists items, p, target. split; [done |]. split; [done |]. cbv zeta.
  split_and!.
  - exact Hread.
  - cbn. apply DependencyList_add_elem. by left.
  - change (dependency_set (register_format (set_link_target target ?s)))
      with (dependency_set s).
    rewrite dependency_set_note. apply elem_of_union_l, elem_of_singleton. done.
  - done.
  - cbn. rewrite Hname, lookup_insert_eq. cbn. by rewrite lookup_insert_eq.
Qed.

End ParserStages.

Lemma relative_target_root_raises_ValueError_witness :
  let st := Examples.fresh (Examples.project "/project/docs") "index"
              (Some "build") in
  let text := Examples.media_value_text (Examples.quoted "") in
  posixpath.isabs (os.getcwd (fs st)) = true
  ∧ posixpath.isabs "build" = false
  ∧ (parse Examples.json_loads 4 text st).1 = Raise ValueError
  ∧ ∀ rawtext, (parse Examples.json_loads 4 text st).1 ≠ Done rawtext.
Proof.
  cbv zeta. split; [reflexivity |]. split; [reflexivity |].
  split; [vm_compute; reflexivity |].
  apply (relative_target_root_raises_ValueError Examples.json_loads 4
           (Examples.media_value_text (Examples.quoted ""))
           (Examples.fresh (Examples.project "/project/docs") "index"
              (Some "build"))
           "build");
    [reflexivity | reflexivity | discriminate | reflexivity].
Defined.

Lemma unreadable_notebook_raises_NotebookError_witness :
  let st := Examples.fresh (Examples.project "/project/docs") "a/index" None in
  let text := Examples.media_value_text (Examples.quoted "") in
  Examples.json_loads text = inr (Examples.media_value_link (JStr ""))
  ∧ os.read_file (fs st) "notebooks/demo.ipynb" = inl ENOENT
  ∧ ∃ st',
      parse Examples.json_loads 4 text st
      = (Raise (NotebookError "a/index" ENOENT), st')
      ∧ fs st' = fs st
      ∧ warnings st' = warnings st
      ∧ record_dependencies st'
        = DependencyList_add "notebooks/demo.ipynb" (record_dependencies st)
      ∧ dependency_set st' = {["notebooks/demo.ipynb"]} ∪ dependency_set st.
Proof.
  cbv zeta. split; [vm_compute; reflexivity |].
  split; [vm_compute; reflexivity |].
  apply (unreadable_notebook_raises_NotebookError Examples.json_loads 4
           (Examples.media_value_text (Examples.quoted ""))
           (Examples.fresh (Examples.project "/project/docs") "a/index" None)
           (Examples.fresh (Examples.project "/project/docs") "a/index" None)
           [("path", JStr "../notebooks/demo.ipynb");
            ("extra-media", JStr "")]
           "../notebooks/demo.ipynb"
           (mkPath "" ["notebooks"; "demo.ipynb"]) ENOENT);
    vm_compute; reflexivity.
Defined.

Lemma parse_returns_the_notebook_witness :
  let st := Examples.fresh (Examples.scenario "/project") "docs/a/b" None in
  let r := parse Examples.json_loads 8 Examples.absolute_entry_text st in
  r.1 = Done "notebook"
  ∧ ∃ items p target,
      Examples.json_loads Examples.absolute_entry_text = inr (JDict items)
      ∧ dict_get items "path" = Some (JStr p)
      ∧ let cwd := os.getcwd (fs st) in
        let abs_path := notebook_abs_path cwd (docname st) p in
        let path := pathlib.fspath (notebook_path cwd abs_path) in
        os.read_file (fs r.2) path = inr "notebook"
        ∧ path ∈ record_dependencies r.2
        ∧ path ∈ dependency_set r.2
        ∧ link_target cwd (nbsphinx_link_target_root st) abs_path = Some target
        ∧ default ∅ (metadata r.2 !! docname st) !! "nbsphinx-link-target"
          = Some target.
Proof.
  cbv zeta. split; [vm_compute; reflexivity |].
  apply (parse_returns_the_notebook Examples.json_loads 8
           Examples.absolute_entry_text "notebook"
           (Examples.fresh (Examples.scenario "/project") "docs/a/b" None)).
  vm_compute. reflexivity.
Defined.

(** ** The path of the notebook *)

Lemma join_cons_cons a b l :
  Str.join (a :: b :: l) = a +:+ String Str.sep (Str.join (b :: l)).
Proof. reflexivity. Qed.

Lemma join_split x : Str.join (Str.split x) = x.
Proof.
  induction x as [| c x IH]; [done |]. cbn [Str.split].
  destruct (Str.split x) as [| h t] eqn:Hx; [by apply split_nonempty in Hx |].
  destruct (Str.is_sep c) eqn:Hc.
  - apply is_sep_eq in Hc as ->. by rewrite join_cons_cons, IH.
  - destruct t as [| h' t]; [cbn in *; by rewrite IH |].
    rewrite join_cons_cons, append_cons. rewrite join_cons_cons in IH.
    by rewrite IH.
Qed.

Lemma split_slashes i x :
  Str.split (posixpath.slashes i +:+ x) = repeat "" i ++ Str.split x.
Proof.
  induction i as [| i IH]; [done |]. cbn [posixpath.slashes repeat app].
  rewrite append_cons.
  change (String Str.sep ?s) with ("" +:+ String Str.sep s).
  by rewrite split_append_sep, IH.
Qed.

Lemma split_join_clean l :
  Forall clean l → Str.split (Str.join l) = match l with [] => [""] | _ => l end.
Proof.
  intros Hl. destruct l as [| a l]; [done |].
  apply split_join; [done | by apply clean_sep_free].
Qed.

Lemma normpath_components x :
  x ≠ "" →
  let i := posixpath.initial_slashes x in
  let path := posixpath.slashes i
              +:+ Str.join (posixpath.norm_comps i (comps_of x) []) in
  posixpath.normpath x = if Str.eqb path "" then "." else path.
Proof.
  intros Hx. cbv zeta. unfold posixpath.normpath, Str.eqb.
  rewrite bool_decide_eq_false_2 by done.
  by rewrite <- (norm_comps_filter _ (Str.split x)).
Qed.

Lemma slashes_nonempty i x : 0 < i → posixpath.slashes i +:+ x ≠ "".
Proof. by destruct i; [lia |]. Qed.

Lemma normpath_normalised i t :
  0 < i ≤ 2 → Forall proper t →
  posixpath.normpath (posixpath.slashes i +:+ Str.join t)
  = posixpath.slashes i +:+ Str.join t.
Proof.
  intros [Hpos Hle] Ht. pose proof (proper_clean _ Ht) as Hclean.
  rewrite normpath_components by by apply slashes_nonempty.
  cbv zeta. rewrite initial_slashes_anchor by (done || by apply join_clean_anchor).
  rewrite comps_of_slashes, comps_of_join, norm_comps_proper by done.
  cbn [rev app]. unfold Str.eqb.
  by rewrite bool_decide_eq_false_2 by by apply slashes_nonempty.
Qed.

Lemma fspath_absolute i t :
  0 < i → pathlib.fspath (mkPath (posixpath.slashes i) t)
          = posixpath.slashes i +:+ Str.join t.
Proof.
  intros Hpos. unfold pathlib.fspath, pathlib.format_parsed_parts, Str.eqb.
  cbn [pathlib.root pathlib.tail].
  by rewrite bool_decide_eq_false_2 by by apply slashes_nonempty.
Qed.

Lemma isabs_slashes i x : 0 < i → posixpath.isabs (posixpath.slashes i +:+ x) = true.
Proof. by destruct i; [lia |]. Qed.

Lemma abspath_dummy_file cwd :
  posixpath.isabs cwd = true →
  let j := posixpath.initial_slashes cwd in
  let s := posixpath.norm_comps j (comps_of cwd) [] in
  posixpath.abspath cwd "dummy_file"
  = posixpath.slashes j +:+ Str.join (s ++ ["dummy_file"]).
Proof.
  intros Hcwd. cbv zeta. unfold posixpath.abspath.
  change (posixpath.isabs "dummy_file") with false. cbn match.
  pose proof (isabs_positive _ Hcwd) as Hpos.
  rewrite normpath_components by (apply join_nonempty; by intros ->).
  cbv zeta. rewrite initial_slashes_os_join, comps_of_os_join by done.
  change (comps_of "dummy_file") with ["dummy_file"].
  rewrite norm_comps_app.
  assert (Hs : Forall proper
                 (posixpath.norm_comps (posixpath.initial_slashes cwd)
                    (comps_of cwd) [])).
  { apply norm_comps_keeps_proper; [lia | apply comps_of_clean | done]. }
  rewrite norm_comps_proper, rev_involutive
    by (by repeat constructor).
  unfold Str.eqb.
  by rewrite bool_decide_eq_false_2 by by apply slashes_nonempty.
Qed.

Lemma common_len_take a b :
  take (posixpath.common_len a b) a = take (posixpath.common_len a b) b.
Proof.
  revert b. induction a as [| x a IH]; intros [| y b]; try done.
  cbn [posixpath.common_len]. unfold Str.eqb. case_bool_decide as Hxy; [| done].
  subst. cbn [take]. by rewrite IH.
Qed.

Lemma common_len_le a b :
  posixpath.common_len a b ≤ length a ∧ posixpath.common_len a b ≤ length b.
Proof.
  revert b. induction a as [| x a IH]; intros [| y b]; cbn; try lia.
  destruct (Str.eqb x y); cbn; [| lia]. specialize (IH b). lia.
Qed.

Lemma common_len_snoc a b x :
  x ∉ a → posixpath.common_len a (b ++ [x]) = posixpath.common_len a b.
Proof.
  revert b. induction a as [| y a IH]; intros b Hx; [by destruct b |].
  apply not_elem_of_cons in Hx as [Hxy Hx].
  destruct b as [| z b]; cbn [app posixpath.common_len]; unfold Str.eqb.
  - by rewrite bool_decide_eq_false_2.
  - case_bool_decide; [| done]. by rewrite IH.
Qed.

Lemma split_absolute i t :
  Forall clean t →
  Str.split (posixpath.slashes i +:+ Str.join t)
  = repeat "" i ++ match t with [] => [""] | _ => t end.
Proof. intros Ht. by rewrite split_slashes, split_join_clean. Qed.

Lemma proper_nonempty x : proper x → x ≠ "".
Proof. by intros [(? & _) _]. Qed.

Lemma abspath_normalised cwd i t :
  0 < i ≤ 2 → Forall proper t →
  posixpath.abspath cwd (posixpath.slashes i +:+ Str.join t)
  = posixpath.slashes i +:+ Str.join t.
Proof.
  intros Hi Ht. unfold posixpath.abspath.
  rewrite (isabs_slashes i) by lia. by apply normpath_normalised.
Qed.

Lemma common_len_comm a b :
  posixpath.common_len a b = posixpath.common_len b a.
Proof.
  revert b. induction a as [| x a IH]; intros [| y b]; try done.
  cbn [posixpath.common_len]. unfold Str.eqb.
  destruct (decide (x = y)) as [-> | Hxy].
  - rewrite !bool_decide_eq_true_2 by done. by rewrite IH.
  - by rewrite !bool_decide_eq_false_2 by done.
Qed.

(** [relative_path(None, target)] for a normalised absolute [target],
    from a working directory with one leading slash: the path is
    relative when the first component is shared with the file
    [dummy_file] of the working directory, from which it is measured. *)
Lemma relative_path_None cwd i t :
  posixpath.initial_slashes cwd = 1 → 0 < i ≤ 2 → Forall proper t →
  let s := posixpath.norm_comps 1 (comps_of cwd) [] in
  let c := posixpath.common_len (s ++ ["dummy_file"]) t in
  docutils.relative_path cwd None (posixpath.slashes i +:+ Str.join t)
  = if bool_decide (i = 1 ∧ c ≠ 0)
    then Str.join (repeat ".." (length s + 1 - c - 1) ++ drop c t)
    else posixpath.slashes i +:+ Str.join t.
Proof.
  intros Hj Hi Ht s c. unfold docutils.relative_path. cbn [default from_option].
  assert (Hcwd : posixpath.isabs cwd = true)
    by (rewrite isabs_initial, Hj; done).
  assert (Hs : Forall proper s).
  { apply norm_comps_keeps_proper; [lia | apply comps_of_clean | done]. }
  rewrite abspath_dummy_file by done. cbv zeta. rewrite Hj. fold s.
  rewrite (abspath_normalised cwd i t) by done.
  rewrite !split_absolute
    by (try apply Forall_app; try split; try (by apply proper_clean);
        by repeat constructor).
  assert (Hlen : length (s ++ ["dummy_file"]) = length s + 1)
    by (rewrite length_app; cbn; lia).
  assert (Hsrc : ∃ h l, s ++ ["dummy_file"] = h :: l ∧ h ≠ "") .
  { destruct Hs as [| h l Hh Hl]; cbn; [by eexists _, _ |].
    eexists _, _. split; [done |]. by apply proper_nonempty. }
  destruct Hsrc as (h & l & Hsrc & Hh). subst c. rewrite Hsrc in *.
  clear Hsrc. destruct Hi as [Hpos Hle].
  destruct i as [| [| [| i]]]; [lia | | | lia].
  - cbn [repeat app].
    destruct Ht as [| x t Hx Ht].
    + cbn [take posixpath.common_len].
      rewrite bool_decide_eq_false_2 by congruence.
      rewrite bool_decide_eq_false_2 by (by intros [_ ?]).
      done.
    + cbn [take posixpath.common_len]. unfold Str.eqb.
      rewrite (bool_decide_eq_true_2 ("" = "")) by done.
      destruct (decide (h = x)) as [-> | Hxh].
      * rewrite (bool_decide_eq_true_2 (x = x)) by done.
        rewrite (bool_decide_eq_true_2 (_ = _)) by done.
        rewrite (bool_decide_eq_true_2 (_ ∧ _)) by (split; lia).
        cbn [drop length] in *. rewrite length_drop.
        by replace (length l - posixpath.common_len l t - 1)
          with (length s + 1 - S (posixpath.common_len l t) - 1) by lia.
      * rewrite (bool_decide_eq_false_2 (h = x)) by done.
        rewrite bool_decide_eq_false_2 by congruence.
        rewrite bool_decide_eq_false_2 by (by intros [_ ?]).
        done.
  - cbn [repeat app take].
    rewrite bool_decide_eq_false_2 by congruence.
    rewrite bool_decide_eq_false_2 by (intros [? _]; done).
    destruct t; done.
Qed.

Lemma Path_join_relative l :
  Forall clean l → pathlib.Path (Str.join l) = mkPath "" l.
Proof.
  intros Hl. rewrite Path_eq, comps_of_join by done.
  change (Str.join l) with (posixpath.slashes 0 +:+ Str.join l) at 1.
  rewrite initial_slashes_anchor; [done | lia | by apply join_clean_anchor].
Qed.

Lemma Path_join_absolute i t :
  i ≤ 2 → Forall clean t →
  pathlib.Path (posixpath.slashes i +:+ Str.join t)
  = mkPath (posixpath.slashes i) t.
Proof.
  intros Hi Ht. rewrite Path_eq, comps_of_slashes, comps_of_join by done.
  rewrite initial_slashes_anchor; [done | done | by apply join_clean_anchor].
Qed.

Lemma resolve_normalised cwd i t :
  0 < i ≤ 2 → Forall proper t →
  pathlib.resolve cwd (mkPath (posixpath.slashes i) t)
  = mkPath (posixpath.slashes i) t.
Proof.
  intros Hi Ht. rewrite (resolve_absolute cwd _ i); [| | done | done].
  - cbn [pathlib.tail]. by rewrite norm_comps_proper.
  - split; [exists i; split; [lia | done] | by apply proper_clean].
Qed.

Lemma Forall_clean_dots n l :
  Forall proper l → Forall clean (repeat ".." n ++ l).
Proof.
  intros Hl. apply Forall_app. split; [| by apply proper_clean].
  apply Forall_forall. intros x ->%list_elem_of_In%repeat_spec. apply clean_dots.
Qed.

(** X12. The path computed at line 183, which is registered and
    opened, names the notebook: resolved from the working directory it
    is the absolute path of line 182.  The working directory starts
    with one slash, and no component of the absolute path is
    [dummy_file], the name [relative_path] gives the file it measures
    from. *)
Theorem notebook_path_names_the_notebook (cwd docname P : string) :
  posixpath.initial_slashes cwd = 1 →
  let N := notebook_abs_path cwd docname P in
  "dummy_file" ∉ pathlib.tail N →
  pathlib.resolve cwd (notebook_path cwd N) = N.
Proof.
  intros Hj N Hdummy.
  assert (Hcwd : posixpath.isabs cwd = true)
    by (rewrite isabs_initial, Hj; done).
  destruct (notebook_abs_path_shape cwd docname P Hcwd)
    as (i & t & Hi & Ht & HN).
  fold N in HN. rewrite HN in *. cbn [pathlib.tail] in Hdummy.
  unfold notebook_path. rewrite fspath_absolute by lia.
  rewrite relative_path_None by done. cbv zeta.
  set (s := posixpath.norm_comps 1 (comps_of cwd) []).
  assert (Hs : Forall proper s).
  { apply norm_comps_keeps_proper; [lia | apply comps_of_clean | done]. }
  rewrite common_len_comm, common_len_snoc by done.
  set (c := posixpath.common_len t s).
  case_bool_decide as Hcase.
  - destruct Hcase as [-> Hc].
    pose proof (common_len_le t s) as [_ Hle]. fold c in Hle.
    pose proof (common_len_take t s) as Htake. fold c in Htake.
    replace (length s + 1 - c - 1) with (length (drop c s))
      by (rewrite length_drop; lia).
    assert (Hdrop : Forall proper (drop c t)) by by apply Forall_drop.
    rewrite Path_join_relative by by apply Forall_clean_dots.
    rewrite resolve_relative;
      [| split; [exists 0; by split; [lia |] | by apply Forall_clean_dots]
       | done].
    rewrite Hj. cbn [pathlib.tail]. f_equal.
    rewrite norm_comps_app. fold s.
    rewrite <- (take_drop c s) at 2. rewrite rev_app_distr.
    rewrite norm_comps_dots by by apply Forall_drop.
    rewrite norm_comps_proper, rev_involutive by done.
    by rewrite <- Htake, take_drop.
  - rewrite Path_join_absolute by (lia || by apply proper_clean).
    by apply resolve_normalised.
Qed.

Lemma notebook_path_names_the_notebook_witness :
  let N := notebook_abs_path "/project" "docs/a/b"
             "../../notebooks/demo.ipynb" in
  notebook_path "/project" N = mkPath "" ["notebooks"; "demo.ipynb"]
  ∧ pathlib.resolve "/project" (notebook_path "/project" N) = N.
Proof.
  cbv zeta. split; [vm_compute; reflexivity |].
  apply (notebook_path_names_the_notebook "/project" "docs/a/b"
           "../../notebooks/demo.ipynb"); [reflexivity |].
  vm_compute. intros H.
  by repeat (apply elem_of_cons in H as [H | H]; [discriminate |]);
    apply elem_of_nil in H.
Defined.

Lemma common_len_prefix p b :
  posixpath.common_len p (p ++ b) = length p.
Proof.
  induction p as [| x p IH]; [done |]. cbn [app posixpath.common_len length].
  unfold Str.eqb. rewrite bool_decide_eq_true_2 by done. by rewrite IH.
Qed.

(** X13. A notebook below the directory [dummy_file] of the working
    directory loses this component at line 183: [relative_path]
    measures from the file [dummy_file] of the working directory and
    takes the directory for it, so the path that is registered and
    opened is [more], which names a file of the working directory
    itself. *)
Theorem notebook_below_dummy_file (cwd : string) (more : list string) :
  posixpath.initial_slashes cwd = 1 →
  Forall proper more →
  let here := pathlib.tail (pathlib.Path (posixpath.normpath cwd)) in
  let abs_path := mkPath "/" (here ++ "dummy_file" :: more) in
  notebook_path cwd abs_path = mkPath "" more
  ∧ pathlib.resolve cwd (notebook_path cwd abs_path) = mkPath "/" (here ++ more).
Proof.
  intros Hj Hmore here abs_path.
  assert (Hhere : here = posixpath.norm_comps 1 (comps_of cwd) []).
  { unfold here. by rewrite Path_normpath, Hj. }
  assert (Hs : Forall proper here).
  { rewrite Hhere.
    apply norm_comps_keeps_proper; [lia | apply comps_of_clean | done]. }
  assert (Hpath : notebook_path cwd abs_path = mkPath "" more).
  { unfold notebook_path, abs_path.
    rewrite (fspath_absolute 1) by lia.
    rewrite relative_path_None; [| done | lia |].
    - cbv zeta. rewrite <- Hhere.
      change (here ++ "dummy_file" :: more)
        with (here ++ ["dummy_file"] ++ more).
      rewrite app_assoc, common_len_prefix.
      rewrite length_app. cbn [length].
      rewrite bool_decide_eq_true_2 by (split; lia).
      replace (length here + 1 - (length here + 1) - 1) with 0 by lia.
      cbn [repeat app].
      replace (length here + 1) with (length (here ++ ["dummy_file"]))
        by (rewrite length_app; cbn; lia).
      rewrite drop_app_length. by apply Path_join_relative, proper_clean.
    - apply Forall_app. split; [done |]. constructor; [| done].
      by split_and!. }
  split; [done |]. rewrite Hpath.
  rewrite resolve_relative;
    [| split; [exists 0; by split; [lia |] | by apply proper_clean] | done].
  rewrite Hj. cbn [pathlib.tail]. f_equal.
  rewrite norm_comps_app, <- Hhere, norm_comps_proper by done.
  by rewrite rev_involutive.
Qed.

Lemma notebook_below_dummy_file_witness :
  notebook_abs_path "/project" "index" "dummy_file/demo.ipynb"
  = mkPath "/" (pathlib.tail (pathlib.Path (posixpath.normpath "/project"))
                ++ "dummy_file" :: ["demo.ipynb"])
  ∧ notebook_path "/project" (mkPath "/" ["project"; "dummy_file"; "demo.ipynb"])
    = mkPath "" ["demo.ipynb"]
  ∧ pathlib.resolve "/project"
      (notebook_path "/project"
         (mkPath "/" ["project"; "dummy_file"; "demo.ipynb"]))
    = mkPath "/" ["project"; "demo.ipynb"].
Proof.
  split; [vm_compute; reflexivity |].
  apply (notebook_below_dummy_file "/project" ["demo.ipynb"]);
    [reflexivity |].
  repeat constructor; discriminate.
Defined.

(** ** Sources and destinations of the media, continued *)

Lemma cut_rfind_sep_free s : sep_free s = true → Str.cut_rfind s = ("", s).
Proof.
  induction s as [| c s IH]; [done |]. cbn [sep_free Str.cut_rfind].
  intros [Hc Hs]%andb_true_iff. apply negb_true_iff in Hc.
  by rewrite (IH Hs), Hc.
Qed.

Lemma dirname_sep_free s : sep_free s = true → posixpath.dirname s = "".
Proof.
  intros Hs. unfold posixpath.dirname, posixpath.split.
  by rewrite (cut_rfind_sep_free _ Hs).
Qed.

(** X14. For a link file in the working directory (its name has no
    slash, so that [source_dir] is empty), the two joins of lines 131
    and 132 leave a relative entry as it is: its source is the entry
    normalised. *)
Theorem top_level_entry_joined_once (source_file entry : string) :
  sep_free source_file = true →
  posixpath.isabs entry = false →
  media_src_path (posixpath.dirname source_file) entry
  = posixpath.normpath entry.
Proof.
  intros Hfile Hentry. rewrite (dirname_sep_free _ Hfile).
  unfold media_src_path. by rewrite Hentry, !join_empty_l.
Qed.

Lemma top_level_entry_joined_once_witness :
  sep_free "index" = true
  ∧ posixpath.normpath "../notebooks/./img" = "../notebooks/img"
  ∧ media_src_path (posixpath.dirname "index") "../notebooks/./img"
    = posixpath.normpath "../notebooks/./img".
Proof.
  split; [reflexivity |]. split; [reflexivity |].
  exact (top_level_entry_joined_once "index" "../notebooks/./img"
           eq_refl eq_refl).
Defined.

Lemma normpath_absolute x :
  posixpath.isabs x = true →
  ∃ i t, 0 < i ≤ 2 ∧ Forall proper t
         ∧ posixpath.normpath x = posixpath.slashes i +:+ Str.join t.
Proof.
  intros Hx. pose proof (isabs_positive _ Hx) as Hpos.
  pose proof (initial_slashes_le x) as Hle.
  exists (posixpath.initial_slashes x),
    (posixpath.norm_comps (posixpath.initial_slashes x) (comps_of x) []).
  split; [done |]. split.
  - apply norm_comps_keeps_proper; [lia | apply comps_of_clean | done].
  - rewrite normpath_components by (by destruct x). cbv zeta.
    unfold Str.eqb. by rewrite bool_decide_eq_false_2 by by apply slashes_nonempty.
Qed.

Lemma isabs_join cwd p :
  posixpath.isabs cwd = true → posixpath.isabs (posixpath.join cwd p) = true.
Proof.
  intros Hcwd. unfold posixpath.join.
  destruct (Str.startswith_sep p) eqn:Hp; [done |].
  destruct (_ || _); by apply isabs_append.
Qed.

Lemma abspath_shape cwd p :
  posixpath.isabs cwd = true →
  ∃ i t, 0 < i ≤ 2 ∧ Forall proper t
         ∧ posixpath.abspath cwd p = posixpath.slashes i +:+ Str.join t.
Proof.
  intros Hcwd. unfold posixpath.abspath.
  destruct (posixpath.isabs p) eqn:Hp; apply normpath_absolute;
    [done | by apply isabs_join].
Qed.

Lemma isabs_abspath cwd p :
  posixpath.isabs cwd = true → posixpath.isabs (posixpath.abspath cwd p) = true.
Proof.
  intros Hcwd. destruct (abspath_shape cwd p Hcwd) as (i & t & [Hi _] & _ & ->).
  by apply isabs_slashes.
Qed.

(** X15. Where the absolute paths of the notebook and of the source of
    an entry do not start with the same directory, [relative_path]
    gives the absolute path of the source, the join with [source_dir]
    keeps it, and the destination of lines 134 and 135 is the absolute
    path of the source itself. *)
Theorem media_without_common_directory (cwd source_dir nb_path src_path : string) :
  posixpath.isabs cwd = true →
  take 2 (Str.split (posixpath.abspath cwd nb_path))
  ≠ take 2 (Str.split (posixpath.abspath cwd src_path)) →
  media_dest_path cwd source_dir nb_path src_path
  = posixpath.abspath cwd src_path.
Proof.
  intros Hcwd Hdiffer. unfold media_dest_path, docutils.relative_path.
  cbn [default from_option]. rewrite bool_decide_eq_false_2 by done.
  rewrite join_split, join_absolute by by apply isabs_abspath.
  destruct (abspath_shape cwd src_path Hcwd) as (i & t & Hi & Ht & ->).
  by apply normpath_normalised.
Qed.

Lemma media_without_common_directory_witness :
  let st := Examples.fresh (Examples.project "/project") "docs/a/b" None in
  posixpath.isabs "/project" = true
  ∧ media_dest_path "/project" "docs/a" "/srv/demo.ipynb"
      "/project/notebooks/a.png"
    = posixpath.abspath "/project" "/project/notebooks/a.png"
  ∧ warnings
      (copy_and_register_files 4 "/project/notebooks/a.png"
         (media_dest_path "/project" "docs/a" "/srv/demo.ipynb"
            "/project/notebooks/a.png") st).2
    = [CopyFailed "/project/notebooks/a.png" SameFile].
Proof.
  cbv zeta. split; [reflexivity |]. split; [| vm_compute; reflexivity].
  apply (media_without_common_directory "/project" "docs/a" "/srv/demo.ipynb"
           "/project/notebooks/a.png"); [reflexivity |].
  vm_compute. discriminate.
Defined.

Lemma registers_absolute_refl st : registers_absolute st st.
Proof. split_and!; try done. intros path ?. by left. Qed.

Lemma registers_absolute_trans st1 st2 st3 :
  registers_absolute st1 st2 → registers_absolute st2 st3 →
  registers_absolute st1 st3.
Proof.
  intros (Hn1 & Hc1 & Hd1) (Hn2 & Hc2 & Hd2).
  split_and!; [congruence | congruence |].
  intros path [Hpath | Habs]%Hd2; [by apply Hd1 | by right].
Qed.

Lemma registers_absolute_copy_file src dest st :
  posixpath.isabs src = true →
  registers_absolute st (copy_file src dest st).2.
Proof.
  intros Hsrc. rewrite copy_file_run.
  destruct (shutil.copy (fs st) src dest) as [e | files'] eqn:Hcopy;
    cbn [snd].
  { split_and!; [done | done |]. intros path ?. by left. }
  split_and!; [done | exact (getcwd_copy _ _ _ _ Hcopy) |].
  intros path. rewrite dependency_set_note.
  intros [->%elem_of_singleton | Hpath]%elem_of_union; [by right | by left].
Qed.

Lemma registers_absolute_copy_filenames root dst_root filenames st :
  posixpath.isabs (os.getcwd (fs st)) = true →
  registers_absolute st (copy_filenames root dst_root filenames st).2.
Proof.
  revert st. induction filenames as [| filename filenames IH]; intros st Hcwd;
    cbn [copy_filenames]; [apply registers_absolute_refl |].
  rewrite bind_gets, bind_unfold.
  set (src := posixpath.abspath _ _).
  pose proof (registers_absolute_copy_file src dst_root st
                (isabs_abspath _ _ Hcwd)) as Hfile.
  destruct (copy_file src dst_root st) as [[[] | e |] st1]; [| done | done].
  cbn [snd] in Hfile. eapply registers_absolute_trans; [done |].
  apply IH. destruct Hfile as (_ & -> & _). done.
Qed.

Lemma registers_absolute_copy_directory src dest root filenames st :
  posixpath.isabs (os.getcwd (fs st)) = true →
  registers_absolute st (copy_directory src dest root filenames st).2.
Proof.
  intros Hcwd. unfold copy_directory. rewrite bind_gets.
  destruct (posixpath.relpath _ root src) as [rel |];
    [| apply registers_absolute_refl].
  rewrite bind_unfold. destruct (_ && _).
  - rewrite bind_unfold.
    destruct (os.makedirs (fs st) (posixpath.join dest rel))
      as [e | files'] eqn:Hmk; [apply registers_absolute_refl |].
    cbn [syscall]. rewrite ret_run. unfold modify.
    pose proof (getcwd_makedirs_loop _ _ _ _ Hmk) as Hsame.
    eapply registers_absolute_trans;
      [| apply registers_absolute_copy_filenames; cbn; by rewrite Hsame].
    split_and!; [done | done |]. intros path ?. by left.
  - rewrite ret_run. by apply registers_absolute_copy_filenames.
Qed.

Lemma registers_absolute_walk fuel stack src dest st :
  posixpath.isabs (os.getcwd (fs st)) = true →
  registers_absolute st (walk fuel stack src dest st).2.
Proof.
  revert stack st. induction fuel as [| fuel IH]; intros [| top stack] st Hcwd;
    cbn [walk]; try apply registers_absolute_refl.
  rewrite bind_gets.
  destruct (os.scandir (fs st) top) as [e | [dirs nondirs]]; [by apply IH |].
  rewrite bind_unfold.
  pose proof (registers_absolute_copy_directory src dest top nondirs st Hcwd)
    as Hdir.
  destruct (copy_directory src dest top nondirs st) as [[[] | e |] st1];
    [| done | done].
  cbn [snd] in Hdir. eapply registers_absolute_trans; [done |].
  apply IH. destruct Hdir as (_ & -> & _). done.
Qed.

(** X16. The files found in a directory of media are registered by
    their absolute paths (line 94), whatever the path of the directory
    is: every dependency of the document that
    [copy_and_register_files] adds for a source that is a directory is
    an absolute path. *)
Theorem directory_files_registered_absolute (fuel : nat) (src dest : string)
  (st : State) (path : string) :
  posixpath.isabs (os.getcwd (fs st)) = true →
  os.path_isdir (fs st) src = true →
  path ∈ dependency_set (copy_and_register_files fuel src dest st).2 →
  path ∈ dependency_set st ∨ posixpath.isabs path = true.
Proof.
  intros Hcwd Hdir. unfold copy_and_register_files.
  rewrite bind_gets, Hdir.
  destruct (registers_absolute_walk fuel [src] src dest st Hcwd)
    as (_ & _ & Habs).
  apply Habs.
Qed.

Lemma directory_files_registered_absolute_witness :
  let st := Examples.fresh (Examples.project "/project/docs") "index" None in
  let st' := (copy_and_register_files 4 "../notebooks/img" "img" st).2 in
  posixpath.isabs (os.getcwd (fs st)) = true
  ∧ os.path_isdir (fs st) "../notebooks/img" = true
  ∧ dependency_set st'
    = {["/project/notebooks/img/fig.png"; "/project/notebooks/img/b.png"]}
  ∧ ("/project/notebooks/img/fig.png" ∈ dependency_set st
     ∨ posixpath.isabs "/project/notebooks/img/fig.png" = true).
Proof.
  cbv zeta. split; [reflexivity |]. split; [vm_compute; reflexivity |].
  split; [vm_compute; reflexivity |].
  apply (directory_files_registered_absolute 4 "../notebooks/img" "img"
           (Examples.fresh (Examples.project "/project/docs") "index" None));
    [reflexivity | vm_compute; reflexivity |].
  vm_compute. reflexivity.
Defined.

(** ** The file system *)

Lemma lookup_set_entry_eq name f entries :
  os.lookup_entry name (os.set_entry name f entries)
  = Some (f (os.lookup_entry name entries)).
Proof.
  induction entries as [| [k n] entries IH]; cbn; unfold Str.eqb.
  - by rewrite bool_decide_eq_true_2.
  - case_bool_decide as Hk; cbn; unfold Str.eqb.
    + by rewrite bool_decide_eq_true_2.
    + by rewrite bool_decide_eq_false_2.
Qed.

Lemma lookup_set_entry_ne name name' f entries :
  name' ≠ name →
  os.lookup_entry name' (os.set_entry name f entries)
  = os.lookup_entry name' entries.
Proof.
  intros Hne. induction entries as [| [k n] entries IH]; cbn; unfold Str.eqb.
  - by rewrite bool_decide_eq_false_2.
  - case_bool_decide as Hk; cbn; unfold Str.eqb.
    + subst k. by rewrite !bool_decide_eq_false_2 by done.
    + case_bool_decide; [done | apply IH].
Qed.

Lemma get_node_app root a b :
  os.get_node root (a ++ b) = os.get_node root a ≫= fun n => os.get_node n b.
Proof.
  revert root. induction a as [| name a IH]; intros root; [done |].
  cbn [app os.get_node]. destruct root as [content | entries]; [done |].
  destruct (os.lookup_entry name entries); [apply IH | done].
Qed.

Lemma get_node_File root key content ext n :
  os.get_node root key = Some (File content) →
  os.get_node root (key ++ ext) = Some n → ext = [].
Proof.
  intros Hkey. rewrite get_node_app, Hkey. cbn. by destruct ext.
Qed.

Lemma get_node_set_node_same root key new n :
  os.get_node root key = Some n →
  os.get_node (os.set_node root key new) key = Some new.
Proof.
  revert root. induction key as [| name key IH]; intros root; [done |].
  cbn [os.get_node os.set_node]. destruct root as [content | entries]; [done |].
  rewrite lookup_set_entry_eq.
  destruct (os.lookup_entry name entries) as [n' |]; [apply IH | done].
Qed.

Lemma get_node_set_node_new root key name new entries :
  os.get_node root key = Some (Dir entries) →
  os.get_node (os.set_node root (key ++ [name]) new) (key ++ [name])
  = Some new.
Proof.
  revert root. induction key as [| k key IH]; intros root.
  - cbn. intros [= ->]. by rewrite lookup_set_entry_eq.
  - cbn [app os.get_node os.set_node].
    destruct root as [content | entries']; [done |].
    rewrite lookup_set_entry_eq.
    destruct (os.lookup_entry k entries') as [n' |]; [apply IH | done].
Qed.

(** Writing at [key] leaves the files elsewhere as they are. *)
Lemma get_node_set_node_other root key new k content :
  os.get_node root k = Some (File content) →
  ¬ key `prefix_of` k →
  os.get_node (os.set_node root key new) k = Some (File content).
Proof.
  revert root k. induction key as [| name key IH]; intros root k Hk Hprefix.
  { destruct Hprefix. apply prefix_nil. }
  cbn [os.set_node]. destruct root as [c | entries]; [done |].
  destruct k as [| kn k]; [done |]. cbn [os.get_node] in *.
  destruct (decide (kn = name)) as [-> | Hne].
  - rewrite lookup_set_entry_eq.
    destruct (os.lookup_entry name entries) as [n' |]; [| done]. cbn.
    apply IH; [done |]. intros Hp. apply Hprefix. by apply prefix_cons.
  - by rewrite lookup_set_entry_ne.
Qed.

(** Writing where no directory is keeps every directory, with the
    names it had. *)
Lemma set_node_keeps_directories root key new cur entries :
  (∀ e, os.get_node root key ≠ Some (Dir e)) →
  os.get_node root cur = Some (Dir entries) →
  ∃ entries',
    os.get_node (os.set_node root key new) cur = Some (Dir entries')
    ∧ ∀ name, is_Some (os.lookup_entry name entries) →
              is_Some (os.lookup_entry name entries').
Proof.
  revert root cur entries.
  induction key as [| name key IH]; intros root cur entries Hkey Hcur.
  { cbn in Hkey. destruct root as [c | e]; [| by destruct (Hkey e)].
    by destruct cur. }
  cbn [os.set_node]. destruct root as [c | e]; [by exists entries |].
  destruct cur as [| cn cur]; cbn [os.get_node] in *.
  - injection Hcur as ->. eexists. split; [done |]. intros x Hx.
    destruct (decide (x = name)) as [-> | Hne].
    + by rewrite lookup_set_entry_eq.
    + by rewrite lookup_set_entry_ne.
  - destruct (decide (cn = name)) as [-> | Hne].
    + rewrite lookup_set_entry_eq.
      destruct (os.lookup_entry name e) as [n' |]; [| done]. cbn.
      by apply IH.
    + rewrite lookup_set_entry_ne by done. by exists entries.
Qed.

Lemma walk_components_kept root root' cur comps key :
  keeps_directories root root' →
  os.walk_components root cur comps = inr key →
  os.walk_components root' cur comps = inr key.
Proof.
  intros Hkeeps. revert cur.
  induction comps as [| comp comps IH]; intros cur; [done |].
  cbn [os.walk_components].
  destruct (os.get_node root cur) as [[c | entries] |] eqn:Hcur; try done.
  destruct (Hkeeps _ _ Hcur) as (entries' & -> & Hnames).
  destruct (_ || _); [apply IH |].
  destruct (Str.eqb comp ".."); [apply IH |].
  destruct (os.lookup_entry comp entries) as [n |] eqn:Hcomp; [| done].
  destruct (Hnames comp) as [n' ->]; [by rewrite Hcomp |]. apply IH.
Qed.

Lemma walk_components_app root cur a b :
  os.walk_components root cur (a ++ b)
  = match os.walk_components root cur a with
    | inr cur' => os.walk_components root cur' b
    | inl e => inl e
    end.
Proof.
  revert cur. induction a as [| comp a IH]; intros cur; [done |].
  cbn [app os.walk_components].
  destruct (os.get_node root cur) as [[c | entries] |]; try done.
  destruct (_ || _); [apply IH |].
  destruct (Str.eqb comp ".."); [apply IH |].
  destruct (os.lookup_entry comp entries); [apply IH | done].
Qed.

Lemma stat_inv files path n :
  os.stat files path = inr n →
  ∃ key, os.namei files path = inr key
         ∧ os.get_node (os.fs_root files) key = Some n.
Proof.
  unfold os.stat. destruct (os.namei files path) as [e | key]; [done |].
  destruct (os.get_node _ key) as [n' |] eqn:Hn; [| done].
  intros [= ->]. by exists key.
Qed.

Lemma stat_intro files path key n :
  os.namei files path = inr key →
  os.get_node (os.fs_root files) key = Some n →
  os.stat files path = inr n.
Proof. intros Hkey Hn. unfold os.stat. by rewrite Hkey, Hn. Qed.

Lemma read_file_inv files path content :
  os.read_file files path = inr content →
  os.stat files path = inr (File content).
Proof.
  unfold os.read_file. destruct (os.stat files path) as [e | [c | entries]];
    [done | by intros [= ->] | done].
Qed.

Lemma namei_kept files root' path key :
  keeps_directories (os.fs_root files) root' →
  os.namei files path = inr key →
  os.namei (mkFS root' (os.getcwd files)) path = inr key.
Proof.
  intros Hkeeps. unfold os.namei, os.start_dir. cbn [os.fs_root os.getcwd].
  destruct (Str.eqb path ""); [done |]. by apply walk_components_kept.
Qed.

Lemma walk_components_start files path :
  canonical_cwd files →
  os.walk_components (os.fs_root files) [] (os.start_dir files path)
  = inr (os.start_dir files path).
Proof.
  intros Hcwd. unfold os.start_dir. by destruct (posixpath.isabs path).
Qed.

(** What [write_file] leaves: the content at the path, the other files
    as they were, and every directory. *)
Lemma write_file_read files path content files' :
  canonical_cwd files →
  os.write_file files path content = inr files' →
  os.read_file files' path = inr content
  ∧ (∀ other c,
       os.read_file files other = inr c →
       os.samefile files other path = false →
       os.read_file files' other = inr c)
  ∧ keeps_directories (os.fs_root files) (os.fs_root files').
Proof.
  intros Hcwd. unfold os.write_file.
  destruct (os.stat files path) as [err | [old | entries]] eqn:Hstat;
    [| | done].
  - (* the file is created *)
    destruct (Str.eqb path "") eqn:Hempty; [done |].
    destruct (Str.endswith_sep path); [done |].
    unfold os.create, os.from_root.
    set (start := os.start_dir files path).
    set (sp := Str.split path).
    assert (Hsp : sp ≠ []) by apply split_nonempty.
    assert (Hstart : os.walk_components (os.fs_root files) [] start
                     = inr start) by by apply walk_components_start.
    rewrite removelast_app by done.
    rewrite walk_components_app, Hstart.
    destruct (os.walk_components _ start (removelast sp)) as [e | key]
      eqn:Hwalk; [done |].
    destruct (os.get_node _ key) as [[c | entries] |] eqn:Hkey; try done.
    assert (Hlast : List.last (start ++ sp) "" = List.last sp "").
    { rewrite (app_removelast_last "" Hsp) at 1.
      by rewrite app_assoc, last_last. }
    rewrite Hlast.
    set (name := List.last sp "").
    destruct (_ || _) eqn:Hname; [done |]. intros [= <-].
    assert (Hsplit : sp = removelast sp ++ [name])
      by by apply app_removelast_last.
    assert (Hstep : ∀ root entries0 n,
              os.get_node root key = Some (Dir entries0) →
              os.lookup_entry name entries0 = Some n →
              os.walk_components root key [name] = inr (key ++ [name])).
    { intros root entries0 n Hdir Hlookup. cbn [os.walk_components].
      rewrite Hdir. apply orb_false_iff in Hname as [Hname ->].
      rewrite Hname, Hlookup. done. }
    assert (Hnew : os.lookup_entry name entries = None).
    { destruct (os.lookup_entry name entries) as [n |] eqn:Hlookup; [| done].
      assert (os.stat files path = inr n); [| congruence].
      apply (stat_intro _ _ (key ++ [name])).
      - unfold os.namei. rewrite Hempty. fold start sp.
        rewrite Hsplit, walk_components_app, Hwalk. by eapply Hstep.
      - rewrite get_node_app, Hkey. cbn. by rewrite Hlookup. }
    assert (Hnone : os.get_node (os.fs_root files) (key ++ [name]) = None).
    { rewrite get_node_app, Hkey. cbn. by rewrite Hnew. }
    set (root' := os.set_node (os.fs_root files) (key ++ [name]) (File content)).
    assert (Hkeeps : keeps_directories (os.fs_root files) root').
    { intros cur e He. apply set_node_keeps_directories; [| done].
      intros e0. by rewrite Hnone. }
    assert (Hfile : os.get_node root' (key ++ [name]) = Some (File content))
      by by eapply get_node_set_node_new.
    split; [| split; [| done]].
    + unfold os.read_file.
      rewrite (stat_intro _ _ (key ++ [name]) (File content)); [done | | done].
      unfold os.namei. rewrite Hempty.
      change (os.start_dir (mkFS root' (os.getcwd files)) path) with start.
      cbn [os.fs_root]. fold sp.
      rewrite Hsplit, walk_components_app.
      rewrite (walk_components_kept _ _ _ _ _ Hkeeps Hwalk).
      destruct (Hkeeps _ _ Hkey) as (entries' & Hkey' & _).
      rewrite get_node_app, Hkey' in Hfile. cbn in Hfile.
      destruct (os.lookup_entry name entries') as [n |] eqn:Hlookup; [| done].
      by eapply Hstep.
    + intros other c Hread _. apply read_file_inv, stat_inv in Hread
        as (ko & Hko & Hnode).
      unfold os.read_file.
      rewrite (stat_intro _ _ ko (File c)); [done | by apply namei_kept |].
      apply get_node_set_node_other; [done |].
      intros [ext ->]. by rewrite get_node_app, Hnone in Hnode.
  - (* the file is overwritten *)
    apply stat_inv in Hstat as (key & Hnamei & Hkey). rewrite Hnamei.
    intros [= <-].
    set (root' := os.set_node (os.fs_root files) key (File content)).
    assert (Hkeeps : keeps_directories (os.fs_root files) root').
    { intros cur e He. apply set_node_keeps_directories; [| done].
      intros e0. by rewrite Hkey. }
    split; [| split; [| done]].
    + unfold os.read_file.
      rewrite (stat_intro _ _ key (File content));
        [done | by apply namei_kept | by eapply get_node_set_node_same].
    + intros other c Hread Hsame. apply read_file_inv, stat_inv in Hread
        as (ko & Hko & Hnode).
      unfold os.samefile in Hsame. rewrite Hko, Hnamei in Hsame.
      apply bool_decide_eq_false_1 in Hsame.
      unfold os.read_file.
      rewrite (stat_intro _ _ ko (File c)); [done | by apply namei_kept |].
      apply get_node_set_node_other; [done |].
      intros [ext ->]. apply Hsame.
      rewrite (get_node_File _ _ _ _ _ Hkey Hnode). by rewrite app_nil_r.
Qed.

(** X17. After a copy that succeeded, the file at the destination (the
    entry named like the source, where the destination is a directory)
    has the content of the source, and the source has it still. *)
Theorem copy_file_copies_the_content (src dest : string) (st : State) :
  canonical_cwd (fs st) →
  copy_succeeds (fs st) src dest = true →
  let st' := (copy_file src dest st).2 in
  let target :=
    if os.path_isdir (fs st) dest
    then posixpath.join dest (posixpath.basename src) else dest in
  ∃ content,
    os.read_file (fs st) src = inr content
    ∧ os.read_file (fs st') target = inr content
    ∧ os.read_file (fs st') src = inr content.
Proof.
  intros Hcwd Hcopy st' target. subst st'. rewrite copy_file_run.
  unfold copy_succeeds in Hcopy.
  destruct (shutil.copy (fs st) src dest) as [e | files'] eqn:Hrun; [done |].
  cbn [snd fs note_dependency set_dependencies set_record_dependencies set_fs].
  unfold shutil.copy in Hrun. fold target in Hrun.
  destruct (os.samefile (fs st) src target) eqn:Hsame; [done |].
  destruct (os.read_file (fs st) src) as [e | content] eqn:Hread; [done |].
  exists content. split; [done |].
  destruct (write_file_read _ _ _ _ Hcwd Hrun) as (Htarget & Hothers & _).
  split; [done |]. by apply Hothers.
Qed.

Lemma copy_file_copies_the_content_witness :
  let st := Examples.fresh (Examples.project "/project/docs") "index" None in
  let st' := (copy_file "../notebooks/img/fig.png" "a" st).2 in
  canonical_cwd (fs st)
  ∧ os.path_isdir (fs st) "a" = true
  ∧ ∃ content,
      os.read_file (fs st) "../notebooks/img/fig.png" = inr content
      ∧ os.read_file (fs st') "a/fig.png" = inr content
      ∧ os.read_file (fs st') "../notebooks/img/fig.png" = inr content.
Proof.
  cbv zeta. split; [vm_compute; reflexivity |].
  split; [vm_compute; reflexivity |].
  apply (copy_file_copies_the_content "../notebooks/img/fig.png" "a"
           (Examples.fresh (Examples.project "/project/docs") "index" None));
    vm_compute; reflexivity.
Defined.

Lemma keeps_directories_refl root : keeps_directories root root.
Proof. intros cur entries H. by exists entries. Qed.

Lemma keeps_directories_trans root1 root2 root3 :
  keeps_directories root1 root2 → keeps_directories root2 root3 →
  keeps_directories root1 root3.
Proof.
  intros H12 H23 cur e1 H1. destruct (H12 _ _ H1) as (e2 & H2 & Hn12).
  destruct (H23 _ _ H2) as (e3 & H3 & Hn23). exists e3. split; [done |].
  intros name Hname. by apply Hn23, Hn12.
Qed.

Lemma fs_kept_refl files : fs_kept files files.
Proof. split; [done | apply keeps_directories_refl]. Qed.

Lemma fs_kept_trans files1 files2 files3 :
  fs_kept files1 files2 → fs_kept files2 files3 → fs_kept files1 files3.
Proof.
  intros [Hc12 Hk12] [Hc23 Hk23]. split; [congruence |].
  by eapply keeps_directories_trans.
Qed.

Lemma canonical_cwd_kept files files' :
  canonical_cwd files → fs_kept files files' → canonical_cwd files'.
Proof.
  unfold canonical_cwd. intros Hcwd [Hsame Hkeeps]. rewrite Hsame.
  by apply (walk_components_kept _ _ _ _ _ Hkeeps).
Qed.

Lemma write_file_kept files path content files' :
  canonical_cwd files → os.write_file files path content = inr files' →
  fs_kept files files'.
Proof.
  intros Hcwd Hwrite. split; [by eapply getcwd_write_file |].
  by destruct (write_file_read _ _ _ _ Hcwd Hwrite) as (_ & _ & ?).
Qed.

Lemma copy_kept files src dest files' :
  canonical_cwd files → shutil.copy files src dest = inr files' →
  fs_kept files files'.
Proof.
  intros Hcwd. unfold shutil.copy. destruct (os.samefile _ _ _); [done |].
  destruct (os.read_file files src); [done |]. by apply write_file_kept.
Qed.

Lemma strip_trailing_empty_spec comps :
  ∃ k, comps = os.strip_trailing_empty comps ++ repeat "" k.
Proof.
  induction comps as [| c comps [k IH]]; [by exists 0 |].
  cbn [os.strip_trailing_empty].
  destruct (os.strip_trailing_empty comps) as [| r rs].
  - cbn in IH. unfold Str.eqb. case_bool_decide as Hc.
    + subst c. exists (S k). cbn. f_equal. exact IH.
    + exists k. cbn. f_equal. exact IH.
  - exists k. cbn [app]. f_equal. exact IH.
Qed.

Lemma walk_components_empties root cur entries k :
  os.get_node root cur = Some (Dir entries) →
  os.walk_components root cur (repeat "" k) = inr cur.
Proof.
  intros Hcur. induction k as [| k IH]; [done |].
  cbn [repeat os.walk_components]. by rewrite Hcur.
Qed.

Lemma mkdir_kept files path files' :
  canonical_cwd files → os.mkdir files path = inr files' →
  fs_kept files files'.
Proof.
  intros Hcwd Hmkdir. split; [by eapply getcwd_mkdir |].
  revert Hmkdir. unfold os.mkdir.
  destruct (os.stat files path) as [err | n] eqn:Hstat; [| done].
  destruct (Str.eqb path "") eqn:Hempty; [done |].
  unfold os.create, os.from_root.
  set (start := os.start_dir files path).
  set (sp := Str.split path).
  assert (Hstart : os.walk_components (os.fs_root files) [] start
                   = inr start) by by apply walk_components_start.
  destruct (strip_trailing_empty_spec (start ++ sp)) as [k Hstrip].
  set (comps := os.strip_trailing_empty (start ++ sp)) in *.
  destruct (os.walk_components _ [] (removelast comps)) as [e | key]
    eqn:Hwalk; [done |].
  destruct (os.get_node _ key) as [[c | entries] |] eqn:Hkey; try done.
  set (name := List.last comps "").
  destruct (_ || _) eqn:Hname; [done |]. intros [= <-]. cbn [os.fs_root].
  intros cur e He. apply set_node_keeps_directories; [| done].
  intros e0 Hdir.
  assert (Hcomps : comps ≠ []).
  { intros Hnil. unfold name in Hname. by rewrite Hnil in Hname. }
  assert (os.stat files path = inr (Dir e0)); [| congruence].
  apply (stat_intro _ _ (key ++ [name])); [| done].
  unfold os.namei. rewrite Hempty. fold start sp.
  assert (Hall : os.walk_components (os.fs_root files) [] (start ++ sp)
                 = inr (key ++ [name])).
  { rewrite Hstrip, (app_removelast_last "" Hcomps). fold name.
    rewrite <- !app_assoc, walk_components_app, Hwalk.
    cbn [app os.walk_components]. rewrite Hkey.
    apply orb_false_iff in Hname as [Hname ->]. rewrite Hname.
    rewrite get_node_app, Hkey in Hdir. cbn in Hdir.
    destruct (os.lookup_entry name entries) as [n |] eqn:Hlookup; [| done].
    injection Hdir as ->. apply (walk_components_empties _ _ e0).
    rewrite get_node_app, Hkey. cbn. by rewrite Hlookup. }
  by rewrite walk_components_app, Hstart in Hall.
Qed.

Lemma makedirs_loop_kept fuel files name files' :
  canonical_cwd files → os.makedirs_loop fuel files name = inr files' →
  fs_kept files files'.
Proof.
  revert files name files'.
  induction fuel as [| fuel IH]; intros files name files' Hcwd; [done |].
  cbn [os.makedirs_loop].
  destruct (posixpath.split name) as [head tail].
  destruct (if Str.eqb tail "" then posixpath.split head else (head, tail))
    as [head' tail'].
  destruct (_ && _); [| by apply mkdir_kept].
  destruct (os.makedirs_loop fuel files head') as [e | files1] eqn:Hhead.
  - destruct e; try done.
    destruct (Str.eqb tail' "."); [intros [= <-]; apply fs_kept_refl |].
    by apply mkdir_kept.
  - pose proof (IH _ _ _ Hcwd Hhead) as Hkept.
    destruct (Str.eqb tail' "."); [by intros [= <-] |].
    intros Hmkdir. eapply fs_kept_trans; [done |].
    eapply mkdir_kept; [| done]. by eapply canonical_cwd_kept.
Qed.

Lemma never_deletes_same st st' : fs st' = fs st → never_deletes st st'.
Proof. intros Hfs Hcwd. rewrite Hfs. split; [done | apply fs_kept_refl]. Qed.

Lemma never_deletes_invariant : invariant never_deletes.
Proof.
  split; [split |..]; try (intros; by apply never_deletes_same).
  - intros st1 st2 st3 H12 H23 Hcwd. destruct (H12 Hcwd) as [Hcwd2 Hk12].
    destruct (H23 Hcwd2) as [Hcwd3 Hk23]. split; [done |].
    by eapply fs_kept_trans.
  - intros st src dest files' Hcopy Hcwd. cbn [fs set_fs].
    pose proof (copy_kept _ _ _ _ Hcwd Hcopy) as Hkept.
    split; [by eapply canonical_cwd_kept | done].
  - intros st name files' Hmk Hcwd. cbn [fs set_fs].
    pose proof (makedirs_loop_kept _ _ _ _ Hcwd Hmk) as Hkept.
    split; [by eapply canonical_cwd_kept | done].
Qed.

Lemma namei_fs_kept files files' path key :
  fs_kept files files' → os.namei files path = inr key →
  os.namei files' path = inr key.
Proof.
  intros [Hcwd Hkeeps] Hkey. destruct files' as [root' cwd']. cbn in *.
  subst cwd'. by apply namei_kept.
Qed.

Lemma path_isdir_kept files files' path :
  fs_kept files files' → os.path_isdir files path = true →
  os.path_isdir files' path = true.
Proof.
  intros Hkept. unfold os.path_isdir.
  destruct (os.stat files path) as [e | [c | entries]] eqn:Hstat; try done.
  apply stat_inv in Hstat as (key & Hkey & Hnode). intros _.
  destruct Hkept as [Hcwd Hkeeps].
  destruct (Hkeeps _ _ Hnode) as (entries' & Hnode' & _).
  by rewrite (stat_intro _ _ key (Dir entries'))
    by (done || by apply (namei_fs_kept files)).
Qed.

Lemma get_node_kept root root' key n :
  keeps_directories root root' → os.get_node root key = Some n →
  is_Some (os.get_node root' key).
Proof.
  intros Hkeeps Hnode.
  destruct (decide (key = [])) as [-> | Hkey]; [done |].
  rewrite (app_removelast_last "" Hkey) in *.
  rewrite get_node_app in *.
  destruct (os.get_node root (removelast key)) as [[c | entries] |] eqn:Hparent;
    try done.
  destruct (Hkeeps _ _ Hparent) as (entries' & -> & Hnames).
  cbn in *. destruct (os.lookup_entry _ entries) as [n0 |] eqn:Hlookup; [| done].
  destruct (Hnames (List.last key "")) as [n' ->]; [by rewrite Hlookup |].
  done.
Qed.

Lemma path_exists_kept files files' path :
  fs_kept files files' → os.path_exists files path = true →
  os.path_exists files' path = true.
Proof.
  intros Hkept. unfold os.path_exists.
  destruct (os.stat files path) as [e | n] eqn:Hstat; [done |].
  apply stat_inv in Hstat as (key & Hkey & Hnode). intros _.
  destruct (get_node_kept _ _ _ _ (proj2 Hkept) Hnode) as [n' Hnode'].
  by rewrite (stat_intro _ _ key n')
    by (done || by apply (namei_fs_kept files)).
Qed.

(** X18. [parse] removes nothing from the file system: whatever the
    link file is and however the call ends, a path that exists before
    exists after, a directory is still a directory, and the working
    directory is still there. *)
Theorem parse_never_deletes (json_loads : string → string + json)
  (fuel : nat) (text : string) (st : State) (path : string) :
  canonical_cwd (fs st) →
  let st' := (parse json_loads fuel text st).2 in
  canonical_cwd (fs st')
  ∧ (os.path_exists (fs st) path = true → os.path_exists (fs st') path = true)
  ∧ (os.path_isdir (fs st) path = true → os.path_isdir (fs st') path = true).
Proof.
  intros Hcwd st'.
  destruct (keeps_parse _ never_deletes_invariant json_loads fuel text st Hcwd)
    as [Hcwd' Hkept].
  split; [done |]. split; [by apply path_exists_kept | by apply path_isdir_kept].
Qed.

Lemma parse_never_deletes_witness :
  let st := Examples.fresh (Examples.scenario "/project") "docs/a/b" None in
  let st' := (parse Examples.json_loads 8 Examples.absolute_entry_text st).2 in
  canonical_cwd (fs st)
  ∧ os.path_exists (fs st) "docs/a/img" = false
  ∧ os.path_isdir (fs st') "docs/a/img" = true
  ∧ canonical_cwd (fs st')
  ∧ (os.path_exists (fs st) "notebooks/img/fig.png" = true →
     os.path_exists (fs st') "notebooks/img/fig.png" = true)
  ∧ (os.path_isdir (fs st) "notebooks/img/fig.png" = true →
     os.path_isdir (fs st') "notebooks/img/fig.png" = true).
Proof.
  cbv zeta. split; [vm_compute; reflexivity |].
  split; [vm_compute; reflexivity |]. split; [vm_compute; reflexivity |].
  apply (parse_never_deletes Examples.json_loads 8
           Examples.absolute_entry_text
           (Examples.fresh (Examples.scenario "/project") "docs/a/b" None)
           "notebooks/img/fig.png").
  vm_compute. reflexivity.
Defined.

Lemma same_rereads_invariant : copy_invariant same_rereads.
Proof.
  split; unfold same_rereads; try done.
  intros st1 st2 st3 [Hn1 Hr1] [Hn2 Hr2]. split; congruence.
Qed.

Lemma path_isdir_exists files path :
  os.path_isdir files path = true → os.path_exists files path = true.
Proof.
  unfold os.path_isdir, os.path_exists. by destruct (os.stat files path).
Qed.

(** One turn of the loop: the flag is set when the source is a
    directory, and a turn that leaves it unset marks nothing. *)
Lemma media_entry_flag fuel source_file nb_path entry any_dirs st a st' :
  media_entry fuel source_file nb_path (JStr entry) any_dirs st
  = (Done a, st') →
  a = any_dirs
      || os.path_isdir (fs st)
           (media_src_path (posixpath.dirname source_file) entry)
  ∧ (a = false → reread_always st' = reread_always st).
Proof.
  unfold media_entry. cbn [json_fspath]. mstep.
  set (src := media_src_path (posixpath.dirname source_file) entry).
  set (dest := media_dest_path _ _ _ _).
  destruct (os.path_exists (fs st) src) eqn:Hexists.
  - rewrite !bind_unfold.
    pose proof (keeps_copy_and_register_files _ same_rereads_invariant
                  fuel src dest st) as [_ Hsame].
    destruct (copy_and_register_files fuel src dest st) as [[[] | e |] st1];
      [| done | done].
    cbn [snd] in Hsame. rewrite ret_run.
    destruct (any_dirs || os.path_isdir (fs st) src) eqn:Hflag.
    + unfold note_reread. mstep. intros [= <- <-]. by split.
    + mstep. intros [= <- <-]. by split.
  - mstep. rewrite bind_unfold.
    assert (Hdir : os.path_isdir (fs st) src = false).
    { destruct (os.path_isdir (fs st) src) eqn:Hdir; [| done].
      apply path_isdir_exists in Hdir. congruence. }
    rewrite Hdir, orb_false_r.
    destruct any_dirs.
    + unfold note_reread. mstep. intros [= <- <-]. by split.
    + mstep. intros [= <- <-]. by split.
Qed.

Lemma media_loop_flag fuel source_file nb_path entries any_dirs st a st' :
  canonical_cwd (fs st) →
  media_loop fuel source_file nb_path (JStr <$> entries) any_dirs st
  = (Done a, st') →
  (any_dirs = true → a = true)
  ∧ (a = false → reread_always st' = reread_always st)
  ∧ (a = true →
     any_dirs = true
     ∨ ∃ entry, entry ∈ entries
                ∧ os.path_isdir (fs st')
                    (media_src_path (posixpath.dirname source_file) entry)
                  = true).
Proof.
  revert any_dirs st.
  induction entries as [| entry entries IH]; intros any_dirs st Hcwd.
  { cbn. intros [= -> ->]. split_and!; [done | done | by left]. }
  rewrite fmap_cons. cbn [media_loop]. intros Hloop.
  apply bind_Done_inv in Hloop as (a1 & st1 & Hentry & Hloop).
  destruct (media_entry_flag _ _ _ _ _ _ _ _ Hentry) as [Ha1 Hquiet1].
  destruct (keeps_media_entry _ never_deletes_invariant fuel source_file
              nb_path (JStr entry) any_dirs st Hcwd) as [Hcwd1 Hkept1].
  rewrite Hentry in Hcwd1, Hkept1. cbn [snd] in Hcwd1, Hkept1.
  destruct (keeps_media_loop _ never_deletes_invariant fuel source_file
              nb_path (JStr <$> entries) a1 st1 Hcwd1) as [_ Hkept].
  rewrite Hloop in Hkept. cbn [snd] in Hkept.
  destruct (IH _ _ Hcwd1 Hloop) as (Hsticky & Hquiet & Hmarked). split_and!.
  - intros ->. apply Hsticky. by rewrite Ha1.
  - intros ->. rewrite (Hquiet eq_refl). apply Hquiet1.
    destruct a1; [by specialize (Hsticky eq_refl) | done].
  - intros ->. destruct (Hmarked eq_refl) as [-> | (e & He & Hdir)].
    + symmetry in Ha1. apply orb_true_iff in Ha1 as [-> | Hdir]; [by left |].
      right. exists entry. split; [by left |].
      eapply path_isdir_kept; [| done]. by eapply fs_kept_trans.
    + right. exists e. split; [by right | done].
Qed.

(** X19. The document is marked for rereading only for a directory:
    where [collect_extra_media] returns and the marks have changed, one
    of the entries names a directory. *)
Theorem reread_only_for_directories (fuel : nat)
  (source_file nb_path : PurePath) (entries : list string) (st st' : State) :
  canonical_cwd (fs st) →
  collect_extra_media fuel (JList (JStr <$> entries)) source_file nb_path st
  = (Done tt, st') →
  reread_always st' ≠ reread_always st →
  ∃ entry,
    entry ∈ entries
    ∧ os.path_isdir (fs st')
        (media_src_path (posixpath.dirname (pathlib.fspath source_file)) entry)
      = true.
Proof.
  intros Hcwd Hrun Hmarked. rewrite collect_extra_media_list in Hrun.
  destruct (media_loop _ _ _ _ _ _) as [[a | e |] st1] eqn:Hloop;
    [| done | done].
  injection Hrun as ->.
  destruct (media_loop_flag _ _ _ _ _ _ _ _ Hcwd Hloop)
    as (_ & Hquiet & Hflag).
  destruct a; [| by destruct Hmarked; apply Hquiet].
  by destruct (Hflag eq_refl).
Qed.

Lemma reread_only_for_directories_witness :
  let st := Examples.fresh (Examples.scenario "/project") "docs/a/b" None in
  let st' :=
    (collect_extra_media 8 (JList (JStr <$> ["/project/notebooks/img"]))
       (pathlib.Path "docs/a/b") (pathlib.Path "notebooks/demo.ipynb") st).2 in
  canonical_cwd (fs st)
  ∧ reread_always st = ∅
  ∧ reread_always st' = {["docs/a/b"]}
  ∧ ∃ entry,
      entry ∈ ["/project/notebooks/img"]
      ∧ os.path_isdir (fs st')
          (media_src_path (posixpath.dirname "docs/a/b") entry) = true.
Proof.
  cbv zeta. split; [vm_compute; reflexivity |].
  split; [reflexivity |]. split; [vm_compute; reflexivity |].
  apply (reread_only_for_directories 8 (pathlib.Path "docs/a/b")
           (pathlib.Path "notebooks/demo.ipynb") ["/project/notebooks/img"]
           (Examples.fresh (Examples.scenario "/project") "docs/a/b" None));
    [vm_compute; reflexivity | vm_compute; reflexivity |].
  vm_compute. discriminate.
Defined.
